(** * Solid.StochasticHillClimb: a shallow embedding and its specification

    The development follows [src/Solid/StochasticHillClimb.py].

    Part I, the definitions:
    - [PyFloat]: Python's [float] (IEEE 754 binary64) on the Standard
      Library's [spec_float];
    - the Python values the constructor inspects and [__init__];
    - the Problem Model as a class, the search state, and [run] in a
      state-and-exception monad over a store of mutable state objects;
    - the predicates the properties are stated with;
    - a reference [math.exp] and a Problem Model to run the class on;
    - [__str__] and [__repr__] with the formats [%d] and [%f], and the
      predicates of the further properties: what a run prints and
      evaluates, the best state against the best objective, a run on a
      climber that has run before.

    Part II, the theorems:
    - the facts about floats that the acceptance test relies on;
    - the properties of the class, for every Problem Model (C1 to C10,
      then X1 to X16);
    - the properties on the reference Problem Model. *)

From Stdlib Require Import ZArith Lia Bool List String Sorted DecimalString.
From Stdlib Require Import Floats.SpecFloat.
From stdpp Require Import gmap.

Local Open Scope Z_scope.

(** * Part I: definitions *)

(** ** Python floats *)

Module PyFloat.

Definition prec : Z := 53.
Definition emax : Z := 1024.

(** A Python [float] is a binary64 number. *)
Definition float : Type := spec_float.

Definition valid (x : float) : bool := valid_binary prec emax x.

(** "A real number": neither NaN nor an infinity. *)
Definition is_finite (x : float) : bool :=
  match x with
  | S754_zero _ | S754_finite _ _ _ => true
  | S754_infinity _ | S754_nan => false
  end.

Definition is_nan (x : float) : bool :=
  match x with S754_nan => true | _ => false end.

(** [bool(x)] of a float: false exactly for [0.0] and [-0.0]. *)
Definition truthy (x : float) : bool :=
  match x with S754_zero _ => false | _ => true end.

Definition zero : float := S754_zero false.
Definition one : float := SFone prec emax.
Definition neg_inf : float := S754_infinity true.
Definition pos_inf : float := S754_infinity false.

(** [float(n)] for a Python int, before the range check. *)
Definition of_Z (n : Z) : float := binary_normalize prec emax n 0 false.

Definition sub (x y : float) : float := SFsub prec emax x y.
Definition neg (x : float) : float := SFopp x.
Definition div (x y : float) : float := SFdiv prec emax x y.

(** [x > y], [x >= y], [x <= y] and [x < y] of Python. *)
Definition gt (x y : float) : bool := SFltb y x.
Definition ge (x y : float) : bool := SFleb y x.
Definition le (x y : float) : bool := SFleb x y.
Definition lt (x y : float) : bool := SFltb x y.

(** Sign classes of the results of the arithmetic. *)
Definition nonpos (x : float) : Prop :=
  match x with
  | S754_zero _ | S754_finite true _ _ | S754_infinity true => True
  | _ => False
  end.

Definition nonneg (x : float) : Prop :=
  match x with
  | S754_zero _ | S754_finite false _ _ | S754_infinity false => True
  | _ => False
  end.

Definition signed (s : bool) (x : float) : Prop :=
  match x with
  | S754_zero s' | S754_finite s' _ _ | S754_infinity s' => s' = s
  | S754_nan => False
  end.

(** The order as a lexicographic key: class, then exponent, then
    mantissa, the last two mirrored for negative numbers. *)
Definition key (x : float) : Z * Z * Z :=
  match x with
  | S754_infinity true => (-2, 0, 0)
  | S754_finite true m e => (-1, - e, - Zpos m)
  | S754_zero _ => (0, 0, 0)
  | S754_finite false m e => (1, e, Zpos m)
  | S754_infinity false => (2, 0, 0)
  | S754_nan => (3, 0, 0)
  end.

Definition key_lt (a b : Z * Z * Z) : Prop :=
  let '(a1, a2, a3) := a in
  let '(b1, b2, b3) := b in
  a1 < b1 \/ (a1 = b1 /\ (a2 < b2 \/ (a2 = b2 /\ a3 < b3))).

Definition key_le (a b : Z * Z * Z) : Prop := key_lt a b \/ a = b.

(** *** Real numbers *)

(** A float that stands for a real number: a valid binary64 that is
    neither NaN nor an infinity. *)
Definition real (x : float) : bool := is_finite x && valid x.

End PyFloat.

Import PyFloat.

(** ** Exceptions and results *)

(** The exceptions of Python that the class raises or lets through, and
    [ModelError] for whatever else a Problem Model raises. *)
Inductive exn : Type :=
| OverflowError
| ZeroDivisionError
| TypeError
| ValueError (msg : string)
| ModelError (code : nat).

Inductive result (A : Type) : Type :=
| Ok (a : A)
| Raise (e : exn).

Arguments Ok {A} a.
Arguments Raise {A} e.

(** ** The values the constructor inspects *)

Inductive pyval : Type :=
| PyNone
| PyBool (b : bool)
| PyInt (n : Z)
| PyFloat (x : float)
| PyStr (s : string).

(** [isinstance(v, int)]: [bool] is a subclass of [int]. *)
Definition isinstance_int (v : pyval) : bool :=
  match v with PyBool _ | PyInt _ => true | _ => false end.

(** [isinstance(v, (float, int))]. *)
Definition isinstance_float_int (v : pyval) : bool :=
  match v with PyBool _ | PyInt _ | PyFloat _ => true | _ => false end.

(** The integer an [int] instance stands for ([True] is 1). *)
Definition int_value (v : pyval) : Z :=
  match v with
  | PyBool true => 1
  | PyInt n => n
  | _ => 0
  end.

(** [float(v)] for an instance of [float] or [int]: an int too large for a
    binary64 raises [OverflowError]. *)
Definition py_float (v : pyval) : result float :=
  match v with
  | PyFloat x => Ok x
  | PyBool b => Ok (if b then one else zero)
  | PyInt n =>
      match of_Z n with
      | S754_infinity _ => Raise OverflowError
      | x => Ok x
      end
  | _ => Raise TypeError
  end.

(** ** States and the store *)

(** A state is a reference to a mutable object of the store, or [None]. *)
Definition loc : Type := nat.
Definition state : Type := option loc.

(** ** Search configuration: what [__init__] stores *)

Record config : Type := {
  initial_state : state;
  n_samples : Z;
  points_to_evaluate : list state;
  max_steps : Z;
  max_objective : option float;
  temp : float
}.

Definition msg_max_steps : string := "Max steps must be a positive integer".
Definition msg_max_objective : string :=
  "Maximum objective must be a numeric type".
Definition msg_temp : string := "Temperature must be a numeric type".

(** [__init__(self, initial_state, temp, max_steps, max_objective=None,
    n_samples=1, points_to_evaluate=[])]; the checks run in the order of
    the source: max steps, max objective, temperature. *)
Definition __init__ (initial_state_ : state) (temp_ max_steps_ : pyval)
    (max_objective_ : pyval) (n_samples_ : Z)
    (points_to_evaluate_ : list state) : result config :=
  if isinstance_int max_steps_ && (0 <? int_value max_steps_) then
    match
      (match max_objective_ with
       | PyNone => Ok None
       | _ =>
           if isinstance_float_int max_objective_ then
             match py_float max_objective_ with
             | Ok x => Ok (Some x)
             | Raise e => Raise e
             end
           else Raise (ValueError msg_max_objective)
       end)
    with
    | Raise e => Raise e
    | Ok mo =>
        if isinstance_float_int temp_ then
          match py_float temp_ with
          | Ok t =>
              Ok {| initial_state := initial_state_;
                    n_samples := n_samples_;
                    points_to_evaluate := points_to_evaluate_;
                    max_steps := int_value max_steps_;
                    max_objective := mo;
                    temp := t |}
          | Raise e => Raise e
          end
        else Raise (ValueError msg_temp)
    end
  else Raise (ValueError msg_max_steps).

(** ** What a run prints *)

Inductive event : Type :=
| Progress (steps : Z) (best : option float) (best_at : state)
| ReachedMaximumObjective
| ReachedMaximumSteps.

(** ** States and the store *)

(** What a state holds in a store [h] of objects of type [V]. *)
Definition content {V : Type} (h : gmap loc V) (s : state) : option V :=
  match s with
  | Some l => h !! l
  | None => None
  end.

(** [copy.deepcopy(s)] on the store: a fresh object holding what [s]
    holds. *)
Definition copy_in {V : Type} (h : gmap loc V) (s : state)
  : state * gmap loc V :=
  match s with
  | None => (None, h)
  | Some l =>
      let l' := fresh (dom h) in
      (Some l',
       match h !! l with
       | Some v => <[l' := v]> h
       | None => h
       end)
  end.

(** ** The hill climber *)

(** What a run is given. [Val] is what a state object holds and [Rng] the
    state of the process-wide random source. The Problem Model is the three
    abstract methods: the objective is a function of what the state holds
    (deterministic, no effect); a neighbor and a random state may allocate,
    change the store and draw random numbers; each may raise. [random] and
    [exp] are [random.random()] and [math.exp]. *)
Class Problem : Type := {
  Val : Type;
  Rng : Type;
  model_objective : option Val -> result float;
  model_neighbor :
    gmap loc Val -> Rng -> state -> result state * gmap loc Val * Rng;
  model_random : gmap loc Val -> Rng -> result state * gmap loc Val * Rng;
  random : Rng -> float * Rng;
  exp : float -> result float
}.

Section Engine.

Context {PM : Problem}.

(** A checkpoint of the observation trace: the step counter, the best
    objective and the objective values evaluated so far. *)
Definition checkpoint : Type := Z * option float * list float.

(** The attributes of [self] that a run alters, the store and the random
    source, what was printed (latest first), and two observation traces
    that the code does not read: [seen], every objective value evaluated so
    far (latest first), and [marks], a checkpoint after every best-update
    (latest first). *)
Record mem : Type := {
  cur_steps : Z;
  current_state : state;
  best_state : state;
  best_objective : option float;
  current_objective : option float;
  heap : gmap loc Val;
  rng : Rng;
  out : list event;
  seen : list float;
  marks : list checkpoint
}.

Definition set_cur_steps (n : Z) (m : mem) : mem :=
  {| cur_steps := n; current_state := current_state m;
     best_state := best_state m; best_objective := best_objective m;
     current_objective := current_objective m; heap := heap m;
     rng := rng m; out := out m; seen := seen m; marks := marks m |}.

Definition set_current_state (s : state) (m : mem) : mem :=
  {| cur_steps := cur_steps m; current_state := s;
     best_state := best_state m; best_objective := best_objective m;
     current_objective := current_objective m; heap := heap m;
     rng := rng m; out := out m; seen := seen m; marks := marks m |}.

Definition set_best_state (s : state) (m : mem) : mem :=
  {| cur_steps := cur_steps m; current_state := current_state m;
     best_state := s; best_objective := best_objective m;
     current_objective := current_objective m; heap := heap m;
     rng := rng m; out := out m; seen := seen m; marks := marks m |}.

Definition set_best_objective (b : option float) (m : mem) : mem :=
  {| cur_steps := cur_steps m; current_state := current_state m;
     best_state := best_state m; best_objective := b;
     current_objective := current_objective m; heap := heap m;
     rng := rng m; out := out m; seen := seen m; marks := marks m |}.

Definition set_current_objective (b : option float) (m : mem) : mem :=
  {| cur_steps := cur_steps m; current_state := current_state m;
     best_state := best_state m; best_objective := best_objective m;
     current_objective := b; heap := heap m;
     rng := rng m; out := out m; seen := seen m; marks := marks m |}.

Definition set_world (h : gmap loc Val) (r : Rng) (m : mem) : mem :=
  {| cur_steps := cur_steps m; current_state := current_state m;
     best_state := best_state m; best_objective := best_objective m;
     current_objective := current_objective m; heap := h;
     rng := r; out := out m; seen := seen m; marks := marks m |}.

Definition emit (e : event) (m : mem) : mem :=
  {| cur_steps := cur_steps m; current_state := current_state m;
     best_state := best_state m; best_objective := best_objective m;
     current_objective := current_objective m; heap := heap m;
     rng := rng m; out := e :: out m; seen := seen m; marks := marks m |}.

Definition observe (o : float) (m : mem) : mem :=
  {| cur_steps := cur_steps m; current_state := current_state m;
     best_state := best_state m; best_objective := best_objective m;
     current_objective := current_objective m; heap := heap m;
     rng := rng m; out := out m; seen := o :: seen m; marks := marks m |}.

Definition mark (m : mem) : mem :=
  {| cur_steps := cur_steps m; current_state := current_state m;
     best_state := best_state m; best_objective := best_objective m;
     current_objective := current_objective m; heap := heap m;
     rng := rng m; out := out m; seen := seen m;
     marks := (cur_steps m, best_objective m, seen m) :: marks m |}.

(** *** State and exceptions

    A computation runs on a [mem] and either returns or raises; the [mem]
    survives an exception, as the attributes of [self] do. *)
Definition M (A : Type) : Type := mem -> result A * mem.

Definition ret {A : Type} (a : A) : M A := fun m => (Ok a, m).

Definition bind {A B : Type} (c : M A) (k : A -> M B) : M B :=
  fun m =>
    match c m with
    | (Ok a, m') => k a m'
    | (Raise e, m') => (Raise e, m')
    end.

Definition raise {A : Type} (e : exn) : M A := fun m => (Raise e, m).

Definition gets {A : Type} (f : mem -> A) : M A := fun m => (Ok (f m), m).

Definition modify (f : mem -> mem) : M unit := fun m => (Ok tt, f m).

(** [try: c / except OverflowError:]: [None] when the handler is taken. *)
Definition except_overflow {A : Type} (c : M A) : M (option A) :=
  fun m =>
    match c m with
    | (Ok a, m') => (Ok (Some a), m')
    | (Raise OverflowError, m') => (Ok None, m')
    | (Raise e, m') => (Raise e, m')
    end.

Notation "'let*' x ':=' c 'in' k" := (bind c (fun x => k))
  (at level 10, x name, c at level 100, k at level 200).
Notation "c ';;' k" := (bind c (fun _ => k))
  (at level 100, k at level 200, right associativity).

(** *** Python operations on objective values *)

(** [a > b] on attributes that hold a float or [None]; ordering against
    [None] is a [TypeError]. *)
Definition gt_attr (a b : option float) : M bool :=
  match a, b with
  | Some x, Some y => ret (gt x y)
  | _, _ => raise TypeError
  end.

(** [b or 0]: 0 when [b] is [None] or a zero, else [b]. *)
Definition or_zero (b : option float) : float :=
  match b with
  | None => zero
  | Some x => if truthy x then x else zero
  end.

(** [x / t] on floats: a zero divisor raises. *)
Definition truediv (x t : float) : M float :=
  if truthy t then ret (div x t) else raise ZeroDivisionError.

(** [copy.deepcopy(s)]. *)
Definition deepcopy (s : state) : M state :=
  fun m =>
    let '(s', h') := copy_in (heap m) s in
    (Ok s', set_world h' (rng m) m).

(** *** The calls into the Problem Model and the libraries *)

(** [self._objective(s)]; the value is recorded in [seen]. *)
Definition _objective (s : state) : M float :=
  fun m =>
    match model_objective (content (heap m) s) with
    | Ok o => (Ok o, observe o m)
    | Raise e => (Raise e, m)
    end.

(** [self._neighbor()], which reads [self.current_state]. *)
Definition _neighbor : M state :=
  fun m =>
    match model_neighbor (heap m) (rng m) (current_state m) with
    | (r, h, g) =>
        (r, set_world h g m)
    end.

(** [self._random()]. *)
Definition _random : M state :=
  fun m =>
    match model_random (heap m) (rng m) with
    | (r, h, g) => (r, set_world h g m)
    end.

(** [random()]. *)
Definition draw : M float :=
  fun m => let '(x, g) := random (rng m) in (Ok x, set_world (heap m) g m).

(** [math.exp(x)]. *)
Definition math_exp (x : float) : M float := fun m => (exp x, m).

(** [print(...)]. *)
Definition print (e : event) : M unit := modify (emit e).

(** *** The methods *)

(** [_clear]: the per-run attributes are reset. *)
Definition _clear : M unit :=
  modify (set_cur_steps 0) ;;
  modify (set_current_state None) ;;
  modify (set_best_state None) ;;
  modify (set_best_objective (Some neg_inf)).

(** [_accept_neighbor(self, neighbor)]. *)
Definition _accept_neighbor (c : config) (neighbor : state) : M bool :=
  let* p :=
    except_overflow
      (let* cur := gets current_state in
       let* oc := _objective cur in
       let* on := _objective neighbor in
       let* q := truediv (neg (sub oc on)) (temp c) in
       math_exp q) in
  match p with
  | None => ret true
  | Some p =>
      if ge p one then ret true
      else let* r := draw in ret (ge p r)
  end.

(** The body of [for point in self.points_to_evaluate]. *)
Definition seed_point (point : state) : M unit :=
  modify (set_current_state point) ;;
  let* cur := gets current_state in
  let* o := _objective cur in
  modify (set_current_objective (Some o)) ;;
  let* co := gets current_objective in
  let* bo := gets best_objective in
  let* better := gt_attr co bo in
  (if better then
     let* cur := gets current_state in
     modify (set_best_state cur) ;;
     let* co := gets current_objective in
     modify (set_best_objective co)
   else ret tt) ;;
  modify mark.

Fixpoint seed_points (points : list state) : M unit :=
  match points with
  | [] => ret tt
  | point :: rest => seed_point point ;; seed_points rest
  end.

(** The body of [while n < self.n_samples], up to [n += 1]. *)
Definition sample_once : M unit :=
  let* s := _random in
  modify (set_current_state s) ;;
  let* cur := gets current_state in
  let* o := _objective cur in
  modify (set_current_objective (Some o)) ;;
  let* co := gets current_objective in
  let* bo := gets best_objective in
  let* better := gt_attr co bo in
  (if better then
     let* cur := gets current_state in
     modify (set_best_state cur) ;;
     let* co := gets current_objective in
     modify (set_best_objective co)
   else ret tt) ;;
  modify mark.

(** [while n < self.n_samples: ...; n += 1], unrolled at most [fuel]
    times. *)
Fixpoint sample_loop (c : config) (fuel : nat) (n : Z) : M unit :=
  match fuel with
  | O => ret tt
  | S fuel' =>
      if n <? n_samples c then sample_once ;; sample_loop c fuel' (n + 1)
      else ret tt
  end.

(** The [else] branch of the seeding: the initial state is evaluated and
    its objective adopted. *)
Definition seed_initial (c : config) : M unit :=
  modify (set_current_state (initial_state c)) ;;
  let* cur := gets current_state in
  let* o := _objective cur in
  modify (set_best_objective (Some o)) ;;
  modify mark.

(** The seeding phase of [run]. *)
Definition seeding (c : config) : M unit :=
  if 0 <? Z.of_nat (length (points_to_evaluate c)) then
    seed_points (points_to_evaluate c)
  else if 1 <? n_samples c then
    sample_loop c (Z.to_nat (n_samples c)) 0
  else seed_initial c.

(** The best-update of the climbing loop. *)
Definition update_best : M unit :=
  let* cur := gets current_state in
  let* o := _objective cur in
  let* bo := gets best_objective in
  if gt o (or_zero bo) then
    let* cur := gets current_state in
    let* o' := _objective cur in
    modify (set_best_objective (Some o')) ;;
    let* cur := gets current_state in
    let* copy := deepcopy cur in
    modify (set_best_state copy)
  else ret tt.

(** The target test of the climbing loop: [Some] is the early [return]. *)
Definition check_target (c : config) : M (option (state * option float)) :=
  let* bo := gets best_objective in
  match max_objective c with
  | Some mo =>
      if gt (or_zero bo) mo then
        print ReachedMaximumObjective ;;
        let* bs := gets best_state in
        let* bo := gets best_objective in
        ret (Some (bs, bo))
      else ret None
  | None => ret None
  end.

(** One iteration of [for i in range(...)]. *)
Definition climb_step (c : config) (verbose : bool) (i : Z)
  : M (option (state * option float)) :=
  let* n := gets cur_steps in
  modify (set_cur_steps (n + 1)) ;;
  (if ((i + 1) mod 100 =? 0) && verbose then
     let* n := gets cur_steps in
     let* bo := gets best_objective in
     let* bs := gets best_state in
     print (Progress n bo bs)
   else ret tt) ;;
  let* neighbor := _neighbor in
  let* accepted := _accept_neighbor c neighbor in
  (if accepted then modify (set_current_state neighbor) else ret tt) ;;
  update_best ;;
  modify mark ;;
  check_target c.

(** [for i in range(k)], from index [i] on. *)
Fixpoint climb (c : config) (verbose : bool) (k : nat) (i : Z)
  : M (option (state * option float)) :=
  match k with
  | O => ret None
  | S k' =>
      let* r := climb_step c verbose i in
      match r with
      | Some v => ret (Some v)
      | None => climb c verbose k' (i + 1)
      end
  end.

(** The number of climbing iterations:
    [range(self.max_steps - self.n_samples - len(self.points_to_evaluate))]. *)
Definition budget (c : config) : Z :=
  max_steps c - n_samples c - Z.of_nat (length (points_to_evaluate c)).

(** [run(self, verbose=True)]. *)
Definition run (c : config) (verbose : bool) : M (state * option float) :=
  _clear ;;
  let* bo := gets best_objective in
  modify (set_current_objective bo) ;;
  seeding c ;;
  let* r := climb c verbose (Z.to_nat (budget c)) 0 in
  match r with
  | Some v => ret v
  | None =>
      print ReachedMaximumSteps ;;
      let* bs := gets best_state in
      let* bo := gets best_objective in
      ret (bs, bo)
  end.

(** The memory a run starts from: the class attributes, a store, a random
    source, nothing printed or observed. *)
Definition fresh_mem (h : gmap loc Val) (g : Rng) : mem :=
  {| cur_steps := 0; current_state := None; best_state := None;
     best_objective := Some neg_inf; current_objective := None;
     heap := h; rng := g; out := []; seen := []; marks := [] |}.

(** ** Reasoning about computations *)

(** [wp c Q m]: running [c] on [m] ends in a result and a memory that
    satisfy [Q]. *)
Definition wp {A : Type} (c : M A) (Q : result A -> mem -> Prop) (m : mem)
  : Prop :=
  Q (fst (c m)) (snd (c m)).

(** An exception that one of the three operations of the Problem Model
    raises on some input. *)
Definition model_raises (e : exn) : Prop :=
  (exists v, model_objective v = Raise e) \/
  (exists h g s, fst (fst (model_neighbor h g s)) = Raise e) \/
  (exists h g, fst (fst (model_random h g)) = Raise e).

(** Where the exceptions of a run may come from. *)
Definition raised_by (c : config) (e : exn) : Prop :=
  model_raises e \/ (e = ZeroDivisionError /\ truthy (temp c) = false).

(** What [_accept_neighbor] leaves alone: everything but the random source
    and the record of evaluated objectives. *)
Definition same_self (m m' : mem) : Prop :=
  cur_steps m' = cur_steps m /\ current_state m' = current_state m /\
  best_state m' = best_state m /\ best_objective m' = best_objective m /\
  current_objective m' = current_objective m /\ heap m' = heap m /\
  out m' = out m /\ marks m' = marks m.

(** The contract of [math.exp] that the class relies on: the only
    exception is [OverflowError], and [exp x >= 1] for [x >= 0]. *)
Definition exp_overflow_only : Prop :=
  forall x e, exp x = Raise e -> e = OverflowError.

Definition exp_ge_one : Prop :=
  forall x p, ge x zero = true -> exp x = Ok p -> ge p one = true.

(** *** The acceptance test *)

(** What a call of [_accept_neighbor] does: it evaluates the current state
    and the neighbor (in this order, stopping at an exception), may draw a
    random number, and rejects only after computing a probability below 1. *)
Definition accept_post (c : config) (n : state) (m : mem)
    (r : result bool) (m' : mem) : Prop :=
  same_self m m' /\
  (exp_overflow_only -> forall e, r = Raise e -> raised_by c e) /\
  (exists l, seen m' = l ++ seen m /\
     forall x, In x l ->
       model_objective (content (heap m) (current_state m)) = Ok x \/
       model_objective (content (heap m) n) = Ok x) /\
  (r = Ok false ->
   exists oc on p,
     model_objective (content (heap m) (current_state m)) = Ok oc /\
     model_objective (content (heap m) n) = Ok on /\
     seen m' = on :: oc :: seen m /\
     truthy (temp c) = true /\
     exp (div (neg (sub oc on)) (temp c)) = Ok p /\
     ge p one = false).

Definition update_post (m : mem) (r : result unit) (m' : mem) : Prop :=
  cur_steps m' = cur_steps m /\ current_state m' = current_state m /\
  current_objective m' = current_objective m /\ out m' = out m /\
  marks m' = marks m /\ rng m' = rng m /\
  (forall e, r = Raise e -> model_raises e /\ m' = m) /\
  (r = Ok tt ->
   exists o,
     model_objective (content (heap m) (current_state m)) = Ok o /\
     ((gt o (or_zero (best_objective m)) = false /\ m' = observe o m) \/
      (gt o (or_zero (best_objective m)) = true /\
       best_objective m' = Some o /\
       seen m' = o :: o :: seen m /\
       best_state m' = fst (copy_in (heap m) (current_state m)) /\
       heap m' = snd (copy_in (heap m) (current_state m))))).

Definition target_post (c : config) (m : mem)
    (r : result (option (state * option float))) (m' : mem) : Prop :=
  match r with
  | Ok (Some (bs, bo)) =>
      m' = emit ReachedMaximumObjective m /\
      bs = best_state m /\ bo = best_objective m /\
      exists mo, max_objective c = Some mo /\ gt (or_zero bo) mo = true
  | Ok None =>
      m' = m /\
      forall mo, max_objective c = Some mo ->
                 gt (or_zero (best_objective m)) mo = false
  | Raise _ => False
  end.

(** The parts of a checkpoint. *)
Definition cp_step (cp : checkpoint) : Z := fst (fst cp).
Definition cp_best (cp : checkpoint) : option float := snd (fst cp).
Definition cp_seen (cp : checkpoint) : list float := snd cp.

(** The best objective is a float the run knows: negative infinity, which
    [_clear] stores, or a value of the record of evaluations. *)
Definition known (bo : option float) (sn : list float) : Prop :=
  exists b, bo = Some b /\ (b = neg_inf \/ In b sn).

Definition best_known (m : mem) : Prop :=
  known (best_objective m) (seen m).

Definition cp_known (cp : checkpoint) : Prop :=
  known (cp_best cp) (cp_seen cp).

Definition step_post (c : config) (m : mem)
    (r : result (option (state * option float))) (m' : mem) : Prop :=
  cur_steps m' = cur_steps m + 1 /\
  (best_known m -> best_known m') /\
  match r with
  | Raise e => (exp_overflow_only -> raised_by c e) /\ marks m' = marks m
  | Ok x =>
      marks m' = (cur_steps m', best_objective m', seen m') :: marks m /\
      match x with
      | Some (bs, bo) =>
          head (out m') = Some ReachedMaximumObjective /\
          bs = best_state m' /\ bo = best_objective m' /\
          exists mo, max_objective c = Some mo /\ gt (or_zero bo) mo = true
      | None =>
          forall mo, max_objective c = Some mo ->
                     gt (or_zero (best_objective m')) mo = false
      end
  end.

(** *** The seeding phase *)

(** What the seeding does to the control state: no step is counted,
    nothing is printed, the best objective stays a known float, every new
    checkpoint is one of step 0, and only the Problem Model raises. *)
Definition seed_post (m : mem) (r : result unit) (m' : mem) : Prop :=
  cur_steps m' = cur_steps m /\ out m' = out m /\
  (best_known m ->
   best_known m' /\
   (forall e, r = Raise e -> model_raises e) /\
   exists new,
     marks m' = new ++ marks m /\
     Forall (fun cp => cp_step cp = cur_steps m /\ cp_known cp) new).

(** *** The climbing phase *)

Definition climb_post (c : config) (k : nat) (m : mem)
    (r : result (option (state * option float))) (m' : mem) : Prop :=
  (best_known m -> best_known m') /\
  (exists new,
      marks m' = new ++ marks m /\
      Forall (fun cp => cur_steps m < cp_step cp) new /\
      (best_known m -> Forall cp_known new) /\
      (r = Ok None ->
       length new = k /\
       forall mo, max_objective c = Some mo ->
         Forall (fun cp => gt (or_zero (cp_best cp)) mo = false) new)) /\
  match r with
  | Raise e => exp_overflow_only -> raised_by c e
  | Ok (Some (bs, bo)) =>
      head (out m') = Some ReachedMaximumObjective /\
      bs = best_state m' /\ bo = best_objective m' /\
      (exists mo, max_objective c = Some mo /\ gt (or_zero bo) mo = true) /\
      cur_steps m < cur_steps m' <= cur_steps m + Z.of_nat k
  | Ok None => cur_steps m' = cur_steps m + Z.of_nat k
  end.

(** *** The whole run *)

(** How a run ended, read off what it printed last. *)
Definition target_reached (m : mem) : Prop :=
  head (out m) = Some ReachedMaximumObjective.

Definition budget_exhausted (m : mem) : Prop :=
  head (out m) = Some ReachedMaximumSteps.

(** The climbing checkpoints of a trace: those of a step from 1 on. *)
Fixpoint climb_marks (mk : list checkpoint) : nat :=
  match mk with
  | [] => O
  | cp :: rest =>
      if 1 <=? cp_step cp then S (climb_marks rest) else climb_marks rest
  end.

Definition run_post (c : config) (r : result (state * option float))
    (m' : mem) : Prop :=
  best_known m' /\
  Forall cp_known (marks m') /\
  match r with
  | Raise e => exp_overflow_only -> raised_by c e
  | Ok (bs, bo) =>
      bs = best_state m' /\ bo = best_objective m' /\
      ((target_reached m' /\
        (exists mo, max_objective c = Some mo /\
                    gt (or_zero bo) mo = true) /\
        1 <= cur_steps m' <= budget c) \/
       (budget_exhausted m' /\
        cur_steps m' = Z.max 0 (budget c) /\
        climb_marks (marks m') = Z.to_nat (budget c) /\
        forall mo, max_objective c = Some mo ->
          Forall (fun cp => 1 <= cp_step cp ->
                            gt (or_zero (cp_best cp)) mo = false)
                 (marks m')))
  end.

(** ** The best objective is the maximum observed *)

Definition all_real (l : list float) : Prop :=
  Forall (fun x => real x = true) l.

(** [b] is the maximum of [l]: one of its values, and above all of them. *)
Definition is_max (b : float) (l : list float) : Prop :=
  In b l /\ forall x, In x l -> le x b = true.

(** At a checkpoint, the best objective is the maximum of the values
    evaluated so far. *)
Definition cp_max (cp : checkpoint) : Prop :=
  exists b, cp_best cp = Some b /\ is_max b (cp_seen cp).

(** The best objective of a later checkpoint is at least that of an
    earlier one. *)
Definition later_ge (later earlier : checkpoint) : Prop :=
  exists b1 b2,
    cp_best earlier = Some b1 /\ cp_best later = Some b2 /\
    le b1 b2 = true.

(** The property of the trace of checkpoints (latest first): each
    checkpoint holds the maximum, and the best objectives never decrease. *)
Definition trace_good (mk : list checkpoint) : Prop :=
  Forall cp_max mk /\ StronglySorted later_ge mk.

(** The trace against the current best [b] and the current record [sn]. *)
Definition marks_rel (b : float) (sn : list float) (mk : list checkpoint)
  : Prop :=
  Forall (fun cp =>
            exists bk, cp_best cp = Some bk /\ is_max bk (cp_seen cp) /\
                       le bk b = true /\
                       exists l, sn = l ++ cp_seen cp) mk /\
  StronglySorted later_ge mk.

(** Before the first evaluation. *)
Definition seed_start (m : mem) : Prop :=
  best_objective m = Some neg_inf /\ seen m = [] /\ marks m = [].

(** Between iterations: the best objective is the maximum of the record
    and bounds the objective of the current state. *)
Definition good (m : mem) : Prop :=
  exists b,
    best_objective m = Some b /\ In b (seen m) /\
    (forall x, In x (seen m) -> le x b = true) /\
    (forall oc,
        model_objective (content (heap m) (current_state m)) = Ok oc ->
        le oc b = true) /\
    marks_rel b (seen m) (marks m).

(** After the acceptance test: what was evaluated is below the best
    objective or is the objective of the current state. *)
Definition half_good (m : mem) : Prop :=
  exists b,
    best_objective m = Some b /\ In b (seen m) /\
    (forall x, In x (seen m) ->
               le x b = true \/
               model_objective (content (heap m) (current_state m)) = Ok x) /\
    marks_rel b (seen m) (marks m).

(** *** Carrying the invariant through a run

    [keeps P Q m r m']: the record of evaluated objectives only grows, and
    if all of it is real and [P] held before, then [Q] holds after a
    return, and the trace is good after an exception. *)
Definition keeps {A : Type} (P : mem -> Prop) (Q : A -> mem -> Prop)
    (m : mem) (r : result A) (m' : mem) : Prop :=
  suffix (seen m) (seen m') /\
  (all_real (seen m') -> P m ->
   match r with
   | Ok a => Q a m'
   | Raise _ => trace_good (marks m')
   end).

(** A neighbor is built without touching what the current state holds. *)
Definition neighbor_keeps_current : Prop :=
  forall (h : gmap loc Val) (g : Rng) (s : state) (r : result state)
         (h' : gmap loc Val) (g' : Rng),
    model_neighbor h g s = (r, h', g') -> content h' s = content h s.

(** *** The invariant through the seeding *)

(** Before a seeding step: nothing evaluated yet, or the best objective is
    the maximum of the record. *)
Definition seed_pre (m : mem) : Prop :=
  exists b,
    best_objective m = Some b /\
    ((b = neg_inf /\ seen m = [] /\ marks m = []) \/
     (In b (seen m) /\ (forall x, In x (seen m) -> le x b = true) /\
      marks_rel b (seen m) (marks m))).

End Engine.

(** ** A reference [math.exp]

    [exp_ref] computes [e^x] in fixed point with 256 fractional bits: the
    Taylor series of [e^(|x| / 4096)], squared twelve times, inverted for a
    negative [x] and rounded to binary64. A result beyond the range is an
    [OverflowError], as in Python. *)

Definition exp_bits : Z := 256.
Definition exp_unit : Z := 2 ^ exp_bits.

Fixpoint exp_taylor (fuel : nat) (n term acc y : Z) : Z :=
  match fuel with
  | O => acc
  | S fuel' =>
      let term' := term * y / exp_unit / n in
      exp_taylor fuel' (n + 1) term' (acc + term') y
  end.

(** A positive number [m / 2^256 * 2^e] with [2^256 <= m < 2^257]. *)
Definition exp_norm (v : Z * Z) : Z * Z :=
  let '(m, e) := v in if 2 * exp_unit <=? m then (m / 2, e + 1) else (m, e).

Definition exp_square (v : Z * Z) : Z * Z :=
  let '(m, e) := v in exp_norm (m * m / exp_unit, 2 * e).

Definition exp_recip (v : Z * Z) : Z * Z :=
  let '(m, e) := v in exp_norm (2 * exp_unit * exp_unit / m, - e - 1).

(** [exp] of [(-1)^s * m * 2^e], before the range check. *)
Definition exp_finite (s : bool) (m : positive) (e : Z) : float :=
  let x := if 0 <=? e + exp_bits then Zpos m * 2 ^ (e + exp_bits)
           else Zpos m / 2 ^ (- (e + exp_bits)) in
  if 1024 * exp_unit <=? x then (if s then zero else pos_inf)
  else
    let t := exp_taylor 40 1 exp_unit exp_unit (x / 4096) in
    let v := Nat.iter 12 exp_square (exp_norm (t, 0)) in
    let '(r, k) := if s then exp_recip v else v in
    binary_normalize prec emax r (k - exp_bits) false.

Definition fmax (x y : float) : float := if ge y x then y else x.

Definition exp_ref (x : float) : result float :=
  match x with
  | S754_nan => Ok S754_nan
  | S754_infinity false => Ok pos_inf
  | S754_infinity true => Ok zero
  | S754_zero _ => Ok one
  | S754_finite s m e =>
      match exp_finite s m e with
      | S754_infinity _ => Raise OverflowError
      | y => Ok (if s then y else fmax one y)
      end
  end.

(** ** A Problem Model: the walk on the integers

    A state holds an integer [x]; the objective is [-x^2]; a neighbor is a
    new state holding [x - 1] or [x + 1], by a random draw; a random state
    holds -2 or 2. The random source is the list of the draws to come. *)

Definition source : Type := list float.

Definition half : float := Eval vm_compute in div one (of_Z 2).

Definition next_random (g : source) : float * source :=
  match g with
  | x :: g' => (x, g')
  | [] => (half, [])
  end.

Definition walk_objective (v : option Z) : result float :=
  match v with
  | Some x => Ok (of_Z (- (x * x)))
  | None => Raise TypeError
  end.

Definition walk_neighbor (h : gmap loc Z) (g : source) (s : state)
  : result state * gmap loc Z * source :=
  match content h s with
  | Some x =>
      let '(d, g') := next_random g in
      let l := fresh (dom h) in
      (Ok (Some l), <[l := if lt d half then x - 1 else x + 1]> h, g')
  | None => (Raise TypeError, h, g)
  end.

Definition walk_random (h : gmap loc Z) (g : source)
  : result state * gmap loc Z * source :=
  let '(d, g') := next_random g in
  let l := fresh (dom h) in
  (Ok (Some l), <[l := if lt d half then -2 else 2]> h, g').

(** The walk, run with the reference [exp]. *)
Definition walk : Problem :=
  {| Val := Z; Rng := source;
     model_objective := walk_objective;
     model_neighbor := walk_neighbor;
     model_random := walk_random;
     random := next_random;
     exp := exp_ref |}.

Definition walk_run (c : config) (verbose : bool)
  : M (PM := walk) (state * option float) :=
  run (PM := walk) c verbose.

(** A tenth of [n]. *)
Definition tenths (n : Z) : float := div (of_Z n) (of_Z 10).

(** The configuration of a walk from the state at reference 0. *)
Definition walk_config (t : float) (steps : Z) (target : option float)
    (points : list state) : config :=
  {| initial_state := Some 0%nat; n_samples := 1;
     points_to_evaluate := points; max_steps := steps;
     max_objective := target; temp := t |}.

(** The store with one state, holding [x], at reference 0. *)
Definition one_state (x : Z) : gmap loc Z := {[ 0%nat := x ]}.

(** The memory after a run seeded with the one point at reference 0,
    holding 3, without a climbing iteration; and after a run from that
    state by the default path with one climbing iteration, which moves to
    2. *)
Definition seeded_mem : mem (PM := walk) :=
  snd (walk_run (walk_config one 1 None [Some 0%nat]) true
         (fresh_mem (PM := walk) (one_state 3) [])).

Definition climbed_mem : mem (PM := walk) :=
  snd (walk_run (walk_config one 2 None []) true
         (fresh_mem (PM := walk) (one_state 3) [tenths 1])).

(** A neighbor made in place: the current state's object is changed to
    hold [x + 1] and is returned. *)
Definition bump_neighbor (h : gmap loc Z) (g : source) (s : state)
  : result state * gmap loc Z * source :=
  match s, content h s with
  | Some l, Some x => (Ok s, <[l := x + 1]> h, g)
  | _, _ => (Raise TypeError, h, g)
  end.

(** The walk with the neighbor made in place. *)
Definition bump : Problem :=
  {| Val := Z; Rng := source;
     model_objective := walk_objective;
     model_neighbor := bump_neighbor;
     model_random := walk_random;
     random := next_random;
     exp := exp_ref |}.

(** The memory after a run seeded with the one point at reference 0,
    holding 0, and the one climbing iteration that 3 steps leave, made
    with [bump_neighbor]. *)
Definition bumped_mem : mem (PM := bump) :=
  snd (run (PM := bump) (walk_config one 3 None [Some 0%nat]) true
         (fresh_mem (PM := bump) (one_state 0) [])).

(** The walk with an objective that is infinite everywhere. *)
Definition flat : Problem :=
  {| Val := Z; Rng := source;
     model_objective := fun _ => Ok pos_inf;
     model_neighbor := walk_neighbor;
     model_random := walk_random;
     random := next_random;
     exp := exp_ref |}.

(** The memory of the acceptance examples, for [flat]. *)
Definition flat_mem : mem (PM := flat) :=
  set_current_state (Some 0%nat)
    (fresh_mem (PM := flat) (<[1%nat := 0]> (one_state 1)) [tenths 9]).

(** The memory of the acceptance examples: the current state holds 1, the
    state at reference 1 holds 0, and the next draw is 0.9. *)
Definition accept_mem : mem (PM := walk) :=
  set_current_state (Some 0%nat)
    (fresh_mem (PM := walk) (<[1%nat := 0]> (one_state 1)) [tenths 9]).

(** The draws of the runs below: at each iteration the neighbor's
    direction, then (when the neighbor is worse) the acceptance draw. *)
Definition walk_draws : source :=
  [tenths 1; tenths 9; tenths 1; tenths 9; tenths 7; tenths 9].

(** The draws of a walk that steps down twice. *)
Definition target_draws : source := [tenths 1; tenths 1; tenths 1].

(** The memory before the best-update of the first iteration of a run
    from the state holding 3: the best objective is -9 and the current
    state, at reference 1, holds 2. *)
Definition update_mem : mem (PM := walk) :=
  set_best_objective (Some (of_Z (-9)))
    (set_current_state (Some 1%nat)
       (fresh_mem (PM := walk) (<[1%nat := 2]> (one_state 3)) [])).

(** ** The text of a climber: [__str__] and [__repr__] *)

Definition newline : string := String (Ascii.ascii_of_nat 10) EmptyString.

(** [n] as [k] decimal digits, padded with zeros on the left. *)
Fixpoint digits (k : nat) (n : Z) : string :=
  match k with
  | O => EmptyString
  | S k' =>
      (digits k' (n / 10)
       ++ String (Ascii.ascii_of_nat (48 + Z.to_nat (n mod 10))) EmptyString)
      %string
  end.

(** ['%d' % n] for an int. *)
Definition percent_d (n : Z) : string :=
  NilZero.string_of_int (Z.to_int n).

(** [m * 2^e * 10^6] rounded to the nearest integer, ties to even: the
    millionths of a positive float. *)
Definition millionths (m e : Z) : Z :=
  if 0 <=? e then m * 2 ^ e * 10 ^ 6
  else
    let num := m * 10 ^ 6 in
    let den := 2 ^ (- e) in
    let q := num / den in
    let r := num mod den in
    if 2 * r <? den then q
    else if den <? 2 * r then q + 1
    else if Z.even q then q else q + 1.

(** ['%f' % x] for a float: six digits after the point, correctly
    rounded. *)
Definition percent_f (x : float) : string :=
  match x with
  | S754_nan => "nan"%string
  | S754_infinity s => (if s then "-inf" else "inf")%string
  | S754_zero s => (if s then "-0.000000" else "0.000000")%string
  | S754_finite s m e =>
      let q := millionths (Zpos m) e in
      ((if s then "-" else "")
       ++ percent_d (q / 10 ^ 6) ++ "." ++ digits 6 (q mod 10 ^ 6))%string
  end.

(** The format of [__str__] applied to the step counter, the best
    objective and [str(self.best_state)]: [%f] needs a number. *)
Definition climber_text (n : Z) (bo : option float) (text : string)
  : result string :=
  match bo with
  | Some b =>
      Ok ("STOCHASTIC HILL CLIMB: " ++ newline
          ++ "CURRENT STEPS: " ++ percent_d n ++ " " ++ newline
          ++ "BEST OBJECTIVE: " ++ percent_f b ++ " " ++ newline
          ++ "BEST STATE: " ++ text ++ " " ++ newline ++ newline)%string
  | None => Raise TypeError
  end.

Section Views.

Context {PM : Problem}.

(** [show] is [str] on what a state holds. *)
Variable show : option Val -> string.

(** [__str__(self)]. *)
Definition __str__ : M string :=
  fun m =>
    (climber_text (cur_steps m) (best_objective m)
       (show (content (heap m) (best_state m))), m).

(** [__repr__(self)]. *)
Definition __repr__ : M string := __str__.

End Views.

(** ** What a run prints, and how much it evaluates *)

(** The steps of the progress reports in what was printed, latest
    first. *)
Fixpoint progress_steps (o : list event) : list Z :=
  match o with
  | [] => []
  | Progress n _ _ :: o' => n :: progress_steps o'
  | _ :: o' => progress_steps o'
  end.

(** A progress report that [__str__] can format. *)
Definition is_report (e : event) : Prop :=
  match e with
  | Progress _ (Some _) _ => True
  | _ => False
  end.

(** The hundreds among the steps 1 to [n], latest first. *)
Fixpoint hundreds (n : nat) : list Z :=
  match n with
  | O => []
  | S n' =>
      if Z.of_nat n mod 100 =? 0 then Z.of_nat n :: hundreds n'
      else hundreds n'
  end.

(** The evaluations of the seeding: one per seed point, else one per
    sample, else the one of the initial state. *)
Definition seed_count (c : config) : nat :=
  if 0 <? Z.of_nat (length (points_to_evaluate c)) then
    length (points_to_evaluate c)
  else if 1 <? n_samples c then Z.to_nat (n_samples c)
  else 1%nat.

Section Shapes.

Context {PM : Problem}.

(** What was printed by a piece of a run: the message of a return, if
    any, above the progress reports. *)
Definition printed (final : list event) (reports : list event)
    (m m' : mem) : Prop :=
  out m' = final ++ reports ++ out m /\ Forall is_report reports.

(** One iteration: the step is counted, [current_objective] is left
    alone, at most four objective values are evaluated, and a report is
    printed at a hundred when [verbose] is set. *)
Definition step_shape (verbose : bool) (i : Z) (m : mem)
    (r : result (option (state * option float))) (m' : mem) : Prop :=
  cur_steps m' = cur_steps m + 1 /\
  current_objective m' = current_objective m /\
  (length (seen m') <= length (seen m) + 4)%nat /\
  out m' =
    (match r with Ok (Some _) => [ReachedMaximumObjective] | _ => [] end)
    ++ (if ((i + 1) mod 100 =? 0) && verbose
        then [Progress (cur_steps m + 1) (best_objective m) (best_state m)]
        else [])
    ++ out m.

(** The reports printed up to step [n]. *)
Definition reports_at (verbose : bool) (n : Z) : list Z :=
  if verbose then hundreds (Z.to_nat n) else [].

Definition climb_shape (verbose : bool) (k : nat) (i : Z) (m : mem)
    (r : result (option (state * option float))) (m' : mem) : Prop :=
  cur_steps m <= cur_steps m' <= cur_steps m + Z.of_nat k /\
  current_objective m' = current_objective m /\
  (length (seen m') <=
   length (seen m) + 4 * Z.to_nat (cur_steps m' - cur_steps m))%nat /\
  (best_known m ->
   exists reports,
     printed (match r with
              | Ok (Some _) => [ReachedMaximumObjective]
              | _ => []
              end) reports m m') /\
  (cur_steps m = i -> 0 <= i ->
   progress_steps (out m) = reports_at verbose (cur_steps m) ->
   progress_steps (out m') = reports_at verbose (cur_steps m')).

(** The seeding: it prints nothing and counts no step, evaluates at
    most [seed_count] values, all of them when it returns, and draws on
    the Problem Model's [_random] only when it samples. *)
Definition seeding_shape (c : config) (m : mem) (r : result unit)
    (m' : mem) : Prop :=
  cur_steps m' = cur_steps m /\ out m' = out m /\
  (length (seen m') <= length (seen m) + seed_count c)%nat /\
  (r = Ok tt -> length (seen m') = (length (seen m) + seed_count c)%nat) /\
  (0 < Z.of_nat (length (points_to_evaluate c)) \/ n_samples c <= 1 ->
   heap m' = heap m /\ rng m' = rng m) /\
  (length (points_to_evaluate c) = O -> n_samples c <= 1 ->
   current_objective m' = current_objective m).

Definition run_shape (c : config) (verbose : bool)
    (r : result (state * option float)) (m' : mem) : Prop :=
  0 <= cur_steps m' <= Z.max 0 (budget c) /\
  (length (seen m') <= seed_count c + 4 * Z.to_nat (cur_steps m'))%nat /\
  (length (points_to_evaluate c) = O -> n_samples c <= 1 ->
   current_objective m' = Some neg_inf) /\
  (exists final reports,
     out m' = final ++ reports /\ Forall is_report reports /\
     match r with
     | Ok _ =>
         final = [ReachedMaximumObjective] \/ final = [ReachedMaximumSteps]
     | Raise _ => final = []
     end) /\
  progress_steps (out m') = reports_at verbose (cur_steps m').

(** ** The best state holds the best objective *)

(** A state is alive in a store: it is [None] or refers to an object. *)
Definition alive (h : gmap loc Val) (s : state) : Prop :=
  match s with
  | Some l => is_Some (h !! l)
  | None => True
  end.

(** The Problem Model builds new states and leaves the objects of the
    store as they are; what it returns is alive. *)
Definition builds_new_states : Prop :=
  (forall (h : gmap loc Val) (g : Rng) (s s' : state)
          (h' : gmap loc Val) (g' : Rng),
      model_neighbor h g s = (Ok s', h', g') -> h ⊆ h' /\ alive h' s') /\
  (forall (h : gmap loc Val) (g : Rng) (s' : state)
          (h' : gmap loc Val) (g' : Rng),
      model_random h g = (Ok s', h', g') -> h ⊆ h' /\ alive h' s').

(** The best state, when there is one, has the best objective. *)
Definition best_sound (m : mem) : Prop :=
  best_state m = None \/
  exists b, best_objective m = Some b /\
            model_objective (content (heap m) (best_state m)) = Ok b.

(** The invariant of a run over the store [h0] it started from. *)
Definition sound (h0 : gmap loc Val) (m : mem) : Prop :=
  h0 ⊆ heap m /\ alive (heap m) (current_state m) /\
  alive (heap m) (best_state m) /\ best_sound m.

End Shapes.

(** ** A run on a climber that has run before *)

Section Grafts.

Context {PM : Problem}.

(** The memory [m] with what was printed and evaluated before put back
    under what it printed and evaluated: [o] under the output, [s] under
    the record of evaluations, at the checkpoints too, and [k] under the
    checkpoints. *)
Definition graft (o : list event) (s : list float) (k : list checkpoint)
    (m : mem) : mem :=
  {| cur_steps := cur_steps m; current_state := current_state m;
     best_state := best_state m; best_objective := best_objective m;
     current_objective := current_objective m; heap := heap m;
     rng := rng m; out := out m ++ o; seen := seen m ++ s;
     marks :=
       map (fun cp : checkpoint => (fst (fst cp), snd (fst cp), snd cp ++ s))
           (marks m) ++ k |}.

(** A computation that neither reads nor drops what was printed and
    evaluated before. *)
Definition oblivious {A : Type} (c : M A) : Prop :=
  forall o s k m,
    c (graft o s k m) = (fst (c m), graft o s k (snd (c m))).

End Grafts.

(** ** More Problem Models to run the class on *)

(** The walk with an objective that overflows away from 0: [_objective]
    raises [OverflowError] on a state holding 2 or more in absolute
    value. *)
Definition steep_objective (v : option Z) : result float :=
  match v with
  | Some x =>
      if 1 <? Z.abs x then Raise OverflowError else Ok (of_Z (- (x * x)))
  | None => Raise TypeError
  end.

Definition steep : Problem :=
  {| Val := Z; Rng := source;
     model_objective := steep_objective;
     model_neighbor := walk_neighbor;
     model_random := walk_random;
     random := next_random;
     exp := exp_ref |}.

(** The walk with an objective that is not a number at 0. *)
Definition hole_objective (v : option Z) : result float :=
  match v with
  | Some x => Ok (if x =? 0 then S754_nan else of_Z (- (x * x)))
  | None => Raise TypeError
  end.

Definition hole : Problem :=
  {| Val := Z; Rng := source;
     model_objective := hole_objective;
     model_neighbor := walk_neighbor;
     model_random := walk_random;
     random := next_random;
     exp := exp_ref |}.

(** A memory whose current state, at reference 0, holds [x] and whose
    state at reference 1 holds [y]; the next draw is 0.9. *)
Definition pair_mem (PM : Problem) (x y : @Val PM) (g : @Rng PM)
  : mem (PM := PM) :=
  set_current_state (Some 0%nat)
    (fresh_mem (PM := PM) (<[1%nat := y]> {[ 0%nat := x ]}) g).

(** [str] of what a state of the walk holds. *)
Definition walk_show (v : option Z) : string :=
  match v with
  | Some x => percent_d x
  | None => "None"%string
  end.

(** * Part II: theorems *)

(** ** Facts about floats *)

Module FloatFacts.

(** *** The order *)

Lemma compare_cont_Eq_spec (m n : positive) :
  match Pos.compare_cont Eq m n with
  | Lt => (Zpos m < Zpos n)
  | Eq => m = n
  | Gt => (Zpos n < Zpos m)
  end.
Proof.
  change (Pos.compare_cont Eq m n) with (Pos.compare m n).
  destruct (Pos.compare_spec m n); [assumption | lia | lia].
Qed.

Lemma compare_key (x y : float) :
  is_nan x = false -> is_nan y = false ->
  match SFcompare x y with
  | Some Lt => key_lt (key x) (key y)
  | Some Eq => key x = key y
  | Some Gt => key_lt (key y) (key x)
  | None => False
  end.
Proof.
  destruct x as [sx|sx| |sx mx ex], y as [sy|sy| |sy my ey];
    try discriminate; intros _ _; cbn [SFcompare key];
    try (destruct sx; try destruct sy; cbn; first [reflexivity | lia]).
  all: try (destruct sy; cbn; first [reflexivity | lia]).
  destruct sx, sy; cbn [key_lt]; try lia.
  - destruct (Z.compare_spec ex ey); try lia.
    pose proof (compare_cont_Eq_spec mx my) as H1.
    destruct (Pos.compare_cont Eq mx my); cbn [CompOpp];
      first [subst; reflexivity | lia].
  - destruct (Z.compare_spec ex ey); try lia.
    pose proof (compare_cont_Eq_spec mx my) as H1.
    destruct (Pos.compare_cont Eq mx my);
      first [subst; reflexivity | lia].
Qed.

Ltac key_arith :=
  unfold key_le, key_lt in *;
  repeat match goal with
         | |- context [key ?x] =>
             let a := fresh "a" in let b := fresh "b" in let c := fresh "c" in
             destruct (key x) as [[a b] c]
         | H : context [key ?x] |- _ =>
             let a := fresh "a" in let b := fresh "b" in let c := fresh "c" in
             destruct (key x) as [[a b] c]
         end;
  repeat match goal with
         | H : (_, _) = (_, _) |- _ => injection H as ? ?
         | H : _ \/ (_, _) = (_, _) |- _ => destruct H as [H | H]
         end;
  subst;
  first [ lia | right; reflexivity | left; lia
        | exfalso; lia ].

Lemma key_total (a b : Z * Z * Z) : key_lt a b \/ a = b \/ key_lt b a.
Proof.
  destruct a as [[a1 a2] a3], b as [[b1 b2] b3]; cbn.
  destruct (Z.lt_total a1 b1) as [H1|[H1|H1]]; [lia | | lia].
  destruct (Z.lt_total a2 b2) as [H2|[H2|H2]]; [lia | | lia].
  destruct (Z.lt_total a3 b3) as [H3|[H3|H3]]; [lia | | lia].
  subst. right; left; reflexivity.
Qed.

Lemma lt_key (x y : float) :
  is_nan x = false -> is_nan y = false ->
  (lt x y = true <-> key_lt (key x) (key y)).
Proof.
  intros Hx Hy. pose proof (compare_key x y Hx Hy) as H.
  unfold lt, SFltb. destruct (SFcompare x y) as [[]|];
    split; intros H'; try reflexivity; try discriminate; try contradiction;
    key_arith.
Qed.

Lemma le_key (x y : float) :
  is_nan x = false -> is_nan y = false ->
  (le x y = true <-> key_le (key x) (key y)).
Proof.
  intros Hx Hy. pose proof (compare_key x y Hx Hy) as H.
  unfold le, SFleb. destruct (SFcompare x y) as [[]|];
    split; intros H'; try reflexivity; try discriminate; try contradiction;
    key_arith.
Qed.

Lemma gt_key (x y : float) :
  is_nan x = false -> is_nan y = false ->
  (gt x y = true <-> key_lt (key y) (key x)).
Proof. intros; unfold gt; apply lt_key; assumption. Qed.

(** Comparison is total away from NaN: [not (x > y)] is [x <= y]. *)
Lemma not_gt_le (x y : float) :
  is_nan x = false -> is_nan y = false -> gt x y = false -> le x y = true.
Proof.
  intros Hx Hy H. apply le_key; try assumption.
  assert (~ key_lt (key y) (key x)) as Hn.
  { intros Hc. apply gt_key in Hc; try assumption. congruence. }
  clear H. destruct (key_total (key x) (key y)) as [H|[H|H]];
    [left; assumption | right; assumption | contradiction].
Qed.

Lemma gt_le (x y : float) :
  is_nan x = false -> is_nan y = false -> gt x y = true -> le y x = true.
Proof.
  intros Hx Hy H. apply le_key; try assumption.
  apply gt_key in H; try assumption. key_arith.
Qed.

Lemma gt_not_le (x y : float) : gt x y = true -> le x y = false.
Proof.
  unfold gt, le, SFltb, SFleb.
  destruct x as [sx|sx| |sx mx ex], y as [sy|sy| |sy my ey]; cbn;
    try discriminate; try (destruct sx; try destruct sy; cbn; congruence);
    try (destruct sy; cbn; congruence).
  destruct sx, sy; try congruence.
  - rewrite (Z.compare_antisym ey ex).
    destruct (ey ?= ex) eqn:E; cbn; try congruence.
    apply Z.compare_eq in E; subst.
    change (Pos.compare_cont Eq mx my) with (Pos.compare mx my).
    change (Pos.compare_cont Eq my mx) with (Pos.compare my mx).
    rewrite (Pos.compare_antisym my mx).
    destruct (my ?= mx)%positive; cbn; congruence.
  - rewrite (Z.compare_antisym ey ex).
    destruct (ey ?= ex) eqn:E; cbn; try congruence.
    change (Pos.compare_cont Eq mx my) with (Pos.compare mx my).
    change (Pos.compare_cont Eq my mx) with (Pos.compare my mx).
    rewrite (Pos.compare_antisym my mx).
    destruct (my ?= mx)%positive; cbn; congruence.
Qed.

Lemma le_refl (x : float) : is_nan x = false -> le x x = true.
Proof. intros Hx. apply le_key; try assumption. right; reflexivity. Qed.

Lemma le_trans (x y z : float) :
  is_nan x = false -> is_nan y = false -> is_nan z = false ->
  le x y = true -> le y z = true -> le x z = true.
Proof.
  intros Hx Hy Hz H1 H2.
  apply le_key in H1; try assumption. apply le_key in H2; try assumption.
  apply le_key; try assumption. key_arith.
Qed.

Lemma le_antisym_key (x y : float) :
  is_nan x = false -> is_nan y = false ->
  le x y = true -> le y x = true -> key x = key y.
Proof.
  intros Hx Hy H1 H2.
  apply le_key in H1; try assumption. apply le_key in H2; try assumption.
  unfold key_le in *. destruct H1 as [H1|H1]; [|assumption].
  destruct H2 as [H2|H2]; [|symmetry; assumption].
  exfalso. key_arith.
Qed.

Lemma neg_inf_le (x : float) : is_nan x = false -> le neg_inf x = true.
Proof. destruct x as [s|s| |s m e]; try destruct s; cbn; congruence. Qed.

Lemma finite_not_nan (x : float) : is_finite x = true -> is_nan x = false.
Proof. destruct x; cbn; congruence. Qed.

(** *** Rounding keeps the sign *)

Lemma shr_1_nonneg (mrs : shr_record) :
  0 <= shr_m mrs -> 0 <= shr_m (shr_1 mrs).
Proof.
  destruct mrs as [m r s]; cbn. destruct m as [|p|p]; [cbn; lia | | lia].
  intros _. destruct p; cbn; lia.
Qed.

Lemma iter_shr_1_nonneg (p : positive) (mrs : shr_record) :
  0 <= shr_m mrs -> 0 <= shr_m (SpecFloat.iter_pos shr_1 p mrs).
Proof.
  revert mrs; induction p as [p IH|p IH|]; intros mrs H; cbn.
  - apply IH, IH, shr_1_nonneg, H.
  - apply IH, IH, H.
  - apply shr_1_nonneg, H.
Qed.

Lemma shr_fexp_nonneg (m e : Z) (l : location) :
  0 <= m -> 0 <= shr_m (fst (shr_fexp prec emax m e l)).
Proof.
  intros H. unfold shr_fexp, shr.
  assert (0 <= shr_m (shr_record_of_loc m l)) as H0
      by (destruct l as [|[]]; exact H).
  destruct (fexp prec emax (Zdigits2 m + e) - e); cbn [fst];
    auto using iter_shr_1_nonneg.
Qed.

Lemma round_nearest_even_nonneg (m : Z) (l : location) :
  0 <= m -> 0 <= round_nearest_even m l.
Proof.
  destruct l as [|[]]; cbn; try lia. destruct (Z.even m); lia.
Qed.

Lemma binary_round_aux_signed (s : bool) (m e : Z) (l : location) :
  0 <= m -> signed s (binary_round_aux prec emax s m e l).
Proof.
  intros Hm. unfold binary_round_aux.
  pose proof (shr_fexp_nonneg m e l Hm) as H1.
  destruct (shr_fexp prec emax m e l) as [mrs1 e1]; cbn [fst] in H1.
  pose proof (shr_fexp_nonneg _ e1 loc_Exact
                (round_nearest_even_nonneg _ (loc_of_shr_record mrs1) H1))
    as H2.
  destruct (shr_fexp prec emax _ e1 loc_Exact) as [mrs2 e2];
    cbn [fst] in H2.
  destruct (shr_m mrs2) as [|q|q]; [reflexivity | | lia].
  destruct (e2 <=? emax - prec); reflexivity.
Qed.

Lemma binary_round_signed (s : bool) (m : positive) (e : Z) :
  signed s (binary_round prec emax s m e).
Proof.
  unfold binary_round. destruct (shl_align m e _) as [mz ez].
  apply binary_round_aux_signed. lia.
Qed.

Lemma signed_true_nonpos (x : float) : signed true x -> nonpos x.
Proof. destruct x as [s|s| |s m e]; cbn; intros H; subst; auto. Qed.

Lemma signed_false_nonneg (x : float) : signed false x -> nonneg x.
Proof. destruct x as [s|s| |s m e]; cbn; intros H; subst; auto. Qed.

(** *** Mantissas, exponents and their values *)

Lemma iter_xO_val (m d : positive) :
  Zpos (Pos.iter xO m d) = Zpos m * 2 ^ Zpos d.
Proof.
  induction d as [|d IH] using Pos.peano_ind.
  - cbn [Pos.iter]. rewrite Z.pow_1_r. lia.
  - rewrite Pos.iter_succ, Pos2Z.inj_succ, Z.pow_succ_r by lia.
    rewrite Pos2Z.inj_xO, IH. lia.
Qed.

Lemma shl_align_val (m : positive) (e e' : Z) :
  e' <= e -> Zpos (fst (shl_align m e e')) = Zpos m * 2 ^ (e - e').
Proof.
  intros H. unfold shl_align. destruct (e' - e) as [|d|d] eqn:E.
  - replace (e - e') with 0 by lia. cbn [fst]. lia.
  - lia.
  - cbn [fst]. rewrite iter_xO_val. f_equal. f_equal. lia.
Qed.

Lemma digits2_pos_bounds (m : positive) :
  2 ^ (Zpos (digits2_pos m) - 1) <= Zpos m < 2 ^ Zpos (digits2_pos m).
Proof.
  induction m as [m IH|m IH|]; cbn [digits2_pos].
  - rewrite Pos2Z.inj_succ, Z.pow_succ_r by lia.
    replace (Z.succ (Zpos (digits2_pos m)) - 1)
      with (Z.succ (Zpos (digits2_pos m) - 1)) by lia.
    rewrite Z.pow_succ_r by lia. lia.
  - rewrite Pos2Z.inj_succ, Z.pow_succ_r by lia.
    replace (Z.succ (Zpos (digits2_pos m)) - 1)
      with (Z.succ (Zpos (digits2_pos m) - 1)) by lia.
    rewrite Z.pow_succ_r by lia. lia.
  - cbn. lia.
Qed.

(** Of two valid numbers, the one with the smaller exponent is the
    smaller in magnitude. *)
Lemma bounded_lt_scaled (m1 : positive) (e1 : Z) (m2 : positive) (e2 : Z) :
  bounded prec emax m1 e1 = true -> bounded prec emax m2 e2 = true ->
  e1 < e2 -> Zpos m1 < Zpos m2 * 2 ^ (e2 - e1).
Proof.
  unfold bounded, canonical_mantissa, fexp, emin, prec, emax.
  intros H1 H2 Hlt.
  apply andb_prop in H1 as [H1 _]. apply andb_prop in H2 as [H2 _].
  apply Z.eqb_eq in H1. apply Z.eqb_eq in H2.
  pose proof (digits2_pos_bounds m1) as [_ B1].
  pose proof (digits2_pos_bounds m2) as [B2 _].
  assert (Zpos (digits2_pos m1) <= 53) as D1 by lia.
  assert (Zpos (digits2_pos m2) = 53) as D2 by lia.
  rewrite D2 in B2.
  assert (2 ^ Zpos (digits2_pos m1) <= 2 ^ 53) as P1
      by (apply Z.pow_le_mono_r; lia).
  assert (2 ^ 1 <= 2 ^ (e2 - e1)) as P2 by (apply Z.pow_le_mono_r; lia).
  change (2 ^ 1) with 2 in P2.
  change (2 ^ (53 - 1)) with 4503599627370496 in B2.
  change (2 ^ 53) with 9007199254740992 in P1.
  nia.
Qed.

(** *** Signs of [x - y], [-x] and [x / t] *)

(** For real numbers [x <= y], the difference [x - y] is zero, negative,
    or (on overflow) minus infinity: never NaN, never positive. *)
Lemma sub_le_nonpos (x y : float) :
  valid x = true -> valid y = true ->
  is_finite x = true -> is_finite y = true ->
  le x y = true -> nonpos (sub x y).
Proof.
  destruct x as [sx|sx| |sx mx ex], y as [sy|sy| |sy my ey];
    try discriminate; intros Vx Vy _ _ Hle.
  - destruct sx, sy; exact I.
  - destruct sy; [discriminate | exact I].
  - destruct sx; [exact I | discriminate].
  - cbn [valid valid_binary] in Vx, Vy.
    unfold sub, SFsub.
    set (ez := Z.min ex ey).
    rewrite (shl_align_val mx ex ez), (shl_align_val my ey ez)
      by (subst ez; lia).
    set (d := cond_Zopp sx _ - cond_Zopp sy _).
    assert (d <= 0) as Hd.
    { subst d. unfold le, SFleb, SFcompare in Hle.
      pose proof (compare_cont_Eq_spec mx my) as Hm.
      assert (0 < 2 ^ (ex - ez)) by (apply Z.pow_pos_nonneg; subst ez; lia).
      assert (0 < 2 ^ (ey - ez)) by (apply Z.pow_pos_nonneg; subst ez; lia).
      destruct sx, sy; cbn [cond_Zopp]; try discriminate; try nia.
      - destruct (Z.compare_spec ex ey) as [E|E|E]; try discriminate.
        + subst ey. replace ez with ex in * by (subst ez; lia).
          destruct (Pos.compare_cont Eq mx my); cbn in Hle;
            try discriminate; subst; nia.
        + pose proof (bounded_lt_scaled my ey mx ex Vy Vx E).
          replace ez with ey in * by (subst ez; lia).
          rewrite Z.sub_diag, Z.pow_0_r. nia.
      - destruct (Z.compare_spec ex ey) as [E|E|E]; try discriminate.
        + subst ey. replace ez with ex in * by (subst ez; lia).
          destruct (Pos.compare_cont Eq mx my); cbn in Hle;
            try discriminate; subst; nia.
        + pose proof (bounded_lt_scaled mx ex my ey Vx Vy E).
          replace ez with ex in * by (subst ez; lia).
          rewrite Z.sub_diag, Z.pow_0_r. nia. }
    clearbody d. unfold binary_normalize.
    destruct d as [|q|q]; [exact I | lia | ].
    apply signed_true_nonpos, binary_round_signed.
Qed.

Lemma neg_nonpos_nonneg (x : float) : nonpos x -> nonneg (neg x).
Proof. destruct x as [s|s| |s m e]; try destruct s; cbn; auto. Qed.

(** Dividing a non-negative number by a positive real keeps it
    non-negative (possibly rounding to zero or to infinity). *)
Lemma div_nonneg_pos (x : float) (mt : positive) (et : Z) :
  nonneg x -> nonneg (div x (S754_finite false mt et)).
Proof.
  destruct x as [s|s| |s m e]; cbn [nonneg]; try contradiction.
  - intros _. exact I.
  - destruct s; [contradiction | intros _; exact I].
  - destruct s; [contradiction | intros _].
    unfold div, SFdiv, SFdiv_core_binary.
    set (m' := match _ - _ - _ with Z0 => _ | Zpos _ => _ | Zneg _ => _ end).
    assert (0 <= m') as Hm'.
    { subst m'. destruct (_ - _ - _) as [|q|q]; try lia.
      apply Z.shiftl_nonneg. lia. }
    clearbody m'.
    pose proof (Z_div_mod m' (Zpos mt) eq_refl) as Hdiv.
    destruct (Z.div_eucl m' (Zpos mt)) as [q r].
    apply signed_false_nonneg. change (xorb false false) with false.
    apply binary_round_aux_signed. nia.
Qed.

Lemma nonneg_ge_zero (x : float) : nonneg x -> ge x zero = true.
Proof. destruct x as [s|s| |s m e]; try destruct s; cbn; tauto. Qed.

(** The exponent of the acceptance probability is non-negative whenever
    the neighbor is at least as good and the temperature positive. *)
Lemma exponent_nonneg (oc on : float) (mt : positive) (et : Z) :
  valid oc = true -> valid on = true ->
  is_finite oc = true -> is_finite on = true ->
  le oc on = true ->
  nonneg (div (neg (sub oc on)) (S754_finite false mt et)).
Proof.
  intros. apply div_nonneg_pos, neg_nonpos_nonneg, sub_le_nonpos;
    assumption.
Qed.

Lemma real_finite (x : float) : real x = true -> is_finite x = true.
Proof. unfold real. intros H. apply andb_prop in H. tauto. Qed.

Lemma real_valid (x : float) : real x = true -> valid x = true.
Proof. unfold real. intros H. apply andb_prop in H. tauto. Qed.

Lemma real_not_nan (x : float) : real x = true -> is_nan x = false.
Proof. intros H. apply finite_not_nan, real_finite, H. Qed.

Lemma le_total (x y : float) :
  is_nan x = false -> is_nan y = false -> le x y = true \/ le y x = true.
Proof.
  intros Hx Hy. destruct (key_total (key x) (key y)) as [H|[H|H]].
  - left. apply le_key; try assumption. left; exact H.
  - left. apply le_key; try assumption. right; exact H.
  - right. apply le_key; try assumption. left; exact H.
Qed.

Lemma le_gt_trans (x b o : float) :
  is_nan x = false -> is_nan b = false -> is_nan o = false ->
  le x b = true -> gt o b = true -> le x o = true.
Proof.
  intros Hx Hb Ho H1 H2.
  eapply le_trans; [| | | exact H1 | apply gt_le]; assumption.
Qed.

Lemma real_gt_neg_inf (x : float) : real x = true -> gt x neg_inf = true.
Proof.
  intros H. apply real_finite in H.
  destruct x as [s|s| |s m e]; try discriminate; reflexivity.
Qed.

Lemma gt_not_nan_l (x y : float) : gt x y = true -> is_nan x = false.
Proof.
  unfold gt, SFltb. destruct x, y; cbn; try discriminate; reflexivity.
Qed.

(** Comparing against a zero of either sign is comparing against [0]. *)
Lemma compare_zero_l (s : bool) (x : float) :
  SFcompare (S754_zero s) x = SFcompare zero x.
Proof. destruct x; reflexivity. Qed.

Lemma compare_zero_r (s : bool) (x : float) :
  SFcompare x (S754_zero s) = SFcompare x zero.
Proof. destruct x; reflexivity. Qed.

End FloatFacts.

Import FloatFacts.

(** ** The class, for every Problem Model *)

Section EngineFacts.

Context {PM : Problem}.

Lemma wp_bind {A B : Type} (c : M A) (k : A -> M B) Q m :
  wp c (fun r m' =>
          match r with
          | Ok a => wp (k a) Q m'
          | Raise e => Q (Raise e) m'
          end) m ->
  wp (bind c k) Q m.
Proof.
  unfold wp, bind. destruct (c m) as [[a|e] m']; cbn; auto.
Qed.

Lemma wp_ret {A : Type} (a : A) (Q : result A -> mem -> Prop) m :
  Q (Ok a) m -> wp (ret a) Q m.
Proof. exact (fun H => H). Qed.

Lemma wp_raise {A : Type} (e : exn) (Q : result A -> mem -> Prop) m :
  Q (Raise e) m -> wp (raise e) Q m.
Proof. exact (fun H => H). Qed.

Lemma wp_gets {A : Type} (f : mem -> A) (Q : result A -> mem -> Prop) m :
  Q (Ok (f m)) m -> wp (gets f) Q m.
Proof. exact (fun H => H). Qed.

Lemma wp_modify (f : mem -> mem) (Q : result unit -> mem -> Prop) m :
  Q (Ok tt) (f m) -> wp (modify f) Q m.
Proof. exact (fun H => H). Qed.

Lemma wp_print (e : event) (Q : result unit -> mem -> Prop) m :
  Q (Ok tt) (emit e m) -> wp (print e) Q m.
Proof. exact (fun H => H). Qed.

Lemma wp_mono {A : Type} (c : M A) (Q Q' : result A -> mem -> Prop) m :
  wp c Q m -> (forall r m', Q r m' -> Q' r m') -> wp c Q' m.
Proof. unfold wp; auto. Qed.

Lemma wp_if {A : Type} (b : bool) (c1 c2 : M A) Q m :
  (b = true -> wp c1 Q m) -> (b = false -> wp c2 Q m) ->
  wp (if b then c1 else c2) Q m.
Proof. destruct b; auto. Qed.

Lemma wp_objective (s : state) (Q : result float -> mem -> Prop) m :
  (forall o, model_objective (content (heap m) s) = Ok o ->
             Q (Ok o) (observe o m)) ->
  (forall e, model_objective (content (heap m) s) = Raise e ->
             Q (Raise e) m) ->
  wp (_objective s) Q m.
Proof.
  unfold wp, _objective. intros H1 H2.
  destruct (model_objective (content (heap m) s)); cbn; auto.
Qed.

Lemma wp_neighbor (Q : result state -> mem -> Prop) m :
  (forall r h g,
      model_neighbor (heap m) (rng m) (current_state m) = (r, h, g) ->
      Q r (set_world h g m)) ->
  wp _neighbor Q m.
Proof.
  unfold wp, _neighbor. intros H.
  destruct (model_neighbor (heap m) (rng m) (current_state m))
    as [[r h] g]; cbn; auto.
Qed.

Lemma wp_random (Q : result state -> mem -> Prop) m :
  (forall r h g,
      model_random (heap m) (rng m) = (r, h, g) -> Q r (set_world h g m)) ->
  wp _random Q m.
Proof.
  unfold wp, _random. intros H.
  destruct (model_random (heap m) (rng m)) as [[r h] g]; cbn; auto.
Qed.

Lemma wp_draw (Q : result float -> mem -> Prop) m :
  (forall x g, random (rng m) = (x, g) ->
               Q (Ok x) (set_world (heap m) g m)) ->
  wp draw Q m.
Proof.
  unfold wp, draw. intros H. destruct (random (rng m)) as [x g]; cbn; auto.
Qed.

Lemma wp_math_exp (x : float) (Q : result float -> mem -> Prop) m :
  Q (exp x) m -> wp (math_exp x) Q m.
Proof. exact (fun H => H). Qed.

Lemma wp_truediv (x t : float) (Q : result float -> mem -> Prop) m :
  (truthy t = true -> Q (Ok (div x t)) m) ->
  (truthy t = false -> Q (Raise ZeroDivisionError) m) ->
  wp (truediv x t) Q m.
Proof. unfold wp, truediv. destruct (truthy t); cbn; auto. Qed.

Lemma wp_except_overflow {A : Type} (c : M A) Q m :
  wp c (fun r m' =>
          match r with
          | Ok a => Q (Ok (Some a)) m'
          | Raise OverflowError => Q (Ok None) m'
          | Raise e => Q (Raise e) m'
          end) m ->
  wp (except_overflow c) Q m.
Proof.
  unfold wp, except_overflow. destruct (c m) as [[a|[]] m']; cbn; auto.
Qed.

Lemma wp_gt_attr (a b : option float) (Q : result bool -> mem -> Prop) m :
  (forall x y, a = Some x -> b = Some y -> Q (Ok (gt x y)) m) ->
  (a = None \/ b = None -> Q (Raise TypeError) m) ->
  wp (gt_attr a b) Q m.
Proof.
  unfold wp, gt_attr. destruct a, b; cbn; eauto.
Qed.

Lemma wp_deepcopy (s : state) (Q : result state -> mem -> Prop) m :
  Q (Ok (fst (copy_in (heap m) s)))
    (set_world (snd (copy_in (heap m) s)) (rng m) m) ->
  wp (deepcopy s) Q m.
Proof.
  unfold wp, deepcopy. destruct (copy_in (heap m) s) as [s' h']; cbn; auto.
Qed.

(** One step of symbolic execution, in the order of evaluation. *)
Ltac wp_step :=
  lazymatch goal with
  | |- wp (bind _ _) _ _ => apply wp_bind
  | |- wp (ret _) _ _ => apply wp_ret
  | |- wp (raise _) _ _ => apply wp_raise
  | |- wp (gets _) _ _ => apply wp_gets
  | |- wp (modify _) _ _ => apply wp_modify
  | |- wp (print _) _ _ => apply wp_print
  | |- wp (math_exp _) _ _ => apply wp_math_exp
  | |- wp (_objective _) _ _ =>
      apply wp_objective; [intros ? ? | intros ? ?]
  | |- wp _neighbor _ _ => apply wp_neighbor; intros ? ? ? ?
  | |- wp _random _ _ => apply wp_random; intros ? ? ? ?
  | |- wp draw _ _ => apply wp_draw; intros ? ? ?
  | |- wp (truediv _ _) _ _ => apply wp_truediv; intros ?
  | |- wp (except_overflow _) _ _ => apply wp_except_overflow
  | |- wp (gt_attr _ _) _ _ =>
      apply wp_gt_attr; [intros ? ? ? ? | intros ?]
  | |- wp (deepcopy _) _ _ => apply wp_deepcopy
  | |- wp (if _ then _ else _) _ _ => apply wp_if; intros ?
  | |- wp (match ?x with Some _ => _ | None => _ end) _ _ =>
      destruct x eqn:?
  | |- match ?x with Ok _ => _ | Raise _ => _ end => destruct x eqn:?
  | |- match ?e with OverflowError => _ | _ => _ end => destruct e
  end.

Ltac mem_simpl :=
  cbn [cur_steps current_state best_state best_objective current_objective
       heap rng out seen marks set_cur_steps set_current_state
       set_best_state set_best_objective set_current_objective set_world
       emit observe mark] in *.

Ltac wp_go := repeat (wp_step; cbn beta iota; mem_simpl).

Lemma same_self_refl (m : mem) : same_self m m.
Proof. repeat split. Qed.

Lemma model_raises_objective (v : option Val) (e : exn) :
  model_objective v = Raise e -> model_raises e.
Proof. intros H. left. exists v. exact H. Qed.

Lemma model_raises_neighbor h g s e h' g' :
  model_neighbor h g s = (Raise e, h', g') -> model_raises e.
Proof.
  intros H. right; left. exists h, g, s. rewrite H. reflexivity.
Qed.

Lemma model_raises_random h g e h' g' :
  model_random h g = (Raise e, h', g') -> model_raises e.
Proof.
  intros H. right; right. exists h, g. rewrite H. reflexivity.
Qed.

Lemma accept_spec (c : config) (n : state) (m : mem) :
  wp (_accept_neighbor c n) (accept_post c n m) m.
Proof.
  unfold _accept_neighbor. wp_go.
  all: unfold accept_post; split; [repeat split|].
  all: split;
    [intros Hexp e' He'; try discriminate; injection He' as <-;
     first [ left; eapply model_raises_objective; eassumption
           | right; split; [reflexivity | assumption]
           | match goal with
             | H : exp _ = Raise _ |- _ => apply Hexp in H; discriminate
             end ] |].
  all: split;
    [ first [ exists []; split; [reflexivity | intros ? []]
            | eexists [_]; split; [reflexivity |];
              intros ? [<- | []]; left; assumption
            | eexists [_; _]; split; [reflexivity |];
              intros ? [<- | [<- | []]]; [right | left]; assumption ] |].
  all: intros Hr; try discriminate.
  all: do 3 eexists; repeat split; eassumption.
Qed.

(** *** The best-update and the target test *)

(** The copy holds what the copied state holds, and the copied state is
    left as it was. *)
Lemma copy_in_content_same (h : gmap loc Val) (s : state) :
  content (snd (copy_in h s)) s = content h s.
Proof.
  destruct s as [l|]; [|reflexivity]. cbn.
  destruct (h !! l) as [v|] eqn:E; [|exact E].
  rewrite lookup_insert_ne; [exact E|].
  intros Hl. pose proof (is_fresh (dom h)) as Hf.
  apply Hf. rewrite Hl. apply elem_of_dom. rewrite E. eauto.
Qed.

Lemma copy_in_content_copy (h : gmap loc Val) (s : state) :
  content (snd (copy_in h s)) (fst (copy_in h s)) = content h s.
Proof.
  destruct s as [l|]; [|reflexivity]. cbn.
  destruct (h !! l) as [v|] eqn:E.
  - apply lookup_insert_eq.
  - apply not_elem_of_dom, is_fresh.
Qed.

(** The copy is a new object: no reference of the store is the copy. *)
Lemma copy_in_fresh (h : gmap loc Val) (l : loc) :
  exists l', fst (copy_in h (Some l)) = Some l' /\ l' ∉ dom h.
Proof. eexists; split; [reflexivity | apply is_fresh]. Qed.

Lemma update_best_spec (m : mem) : wp update_best (update_post m) m.
Proof.
  unfold update_best. wp_go.
  all: unfold update_post; mem_simpl.
  all: repeat match goal with |- _ /\ _ => split end; try reflexivity.
  all: try (intros e' He'; try discriminate; injection He' as <-;
            first [ split; [eapply model_raises_objective; eassumption
                           | reflexivity]
                  | congruence ]).
  all: intros Hr; try discriminate.
  - exists o; split; [assumption|]. right.
    replace o0 with o by congruence. repeat split. assumption.
  - exists o; split; [assumption|]. left. split; [assumption|reflexivity].
Qed.

Lemma check_target_spec (c : config) (m : mem) :
  wp (check_target c) (target_post c m) m.
Proof.
  unfold check_target. wp_go; unfold target_post.
  - repeat split. eauto.
  - split; [reflexivity|]. congruence.
  - split; [reflexivity|]. congruence.
Qed.

(** *** The best objective is a known float *)

Lemma known_new (o : float) (sn : list float) : known (Some o) (o :: sn).
Proof. exists o. split; [reflexivity | right; left; reflexivity]. Qed.

Lemma known_app (bo : option float) (l sn : list float) :
  known bo sn -> known bo (l ++ sn).
Proof.
  intros (b & Hb & [Hn | Hi]); exists b; (split; [exact Hb|]).
  - left. exact Hn.
  - right. apply in_or_app. right. exact Hi.
Qed.

Lemma known_cons (bo : option float) (o : float) (sn : list float) :
  known bo sn -> known bo (o :: sn).
Proof. apply (known_app bo [o]). Qed.

(** The best objective after a piece of code is the one before, with a
    longer record, or the value evaluated last. *)
Ltac known_leaf :=
  unfold best_known; intros Hk; mem_simpl;
  repeat match goal with
    | H : exists l, seen _ = l ++ _ /\ _ |- _ => destruct H as (? & ? & _)
    end;
  repeat match goal with
    | H : best_objective _ = _ |- _ =>
        first [rewrite H in Hk; try rewrite H | rewrite H]
    | H : seen _ = _ |- _ => rewrite H
    end;
  first [ apply known_new
        | exact Hk
        | apply known_app; exact Hk
        | apply known_cons; first [exact Hk | apply known_app; exact Hk] ].

(** *** One climbing iteration *)

Ltac wp_call :=
  lazymatch goal with
  | |- wp (_accept_neighbor _ _) _ _ =>
      eapply wp_mono; [apply accept_spec |]; cbn beta; intros ? ? ?
  | |- wp update_best _ _ =>
      eapply wp_mono; [apply update_best_spec |]; cbn beta; intros ? ? ?
  | |- wp (check_target _) _ _ =>
      eapply wp_mono; [apply check_target_spec |]; cbn beta; intros ? ? ?
  end.

Ltac wp_run := repeat (first [wp_step | wp_call]; cbn beta iota; mem_simpl).

Ltac post_split :=
  repeat match goal with
    | H : accept_post _ _ _ _ _ |- _ =>
        destruct H as ((? & ? & ? & ? & ? & ? & ? & ?) & ? & ? & ?)
    | H : same_self _ _ |- _ => destruct H as (? & ? & ? & ? & ? & ? & ? & ?)
    | H : update_post _ _ _ |- _ =>
        destruct H as (? & ? & ? & ? & ? & ? & ? & ?)
    | H : target_post _ _ (Ok (Some (_, _))) _ |- _ =>
        destruct H as (? & ? & ? & ? & ? & ?)
    | H : target_post _ _ (Ok None) _ |- _ => destruct H as (? & ?)
    | H : target_post _ _ (Raise _) _ |- _ => destruct H
    | H : target_post _ _ ?r _ |- _ => destruct r as [[[? ?]|]|?]
    | H : exp_overflow_only -> _, H' : exp_overflow_only |- _ =>
        specialize (H H')
    | H : forall e, Raise ?e' = Raise e -> _ |- _ =>
        specialize (H e' eq_refl)
    | H : forall e, Ok _ = Raise e -> _ |- _ => clear H
    | H : Raise _ = Ok _ -> _ |- _ => clear H
    | H : Ok ?a = Ok tt -> _ |- _ =>
        destruct a; specialize (H eq_refl);
        destruct H as (? & ? & [[? ?] | (? & ? & ? & ? & ?)])
    | H : _ /\ _ |- _ => destruct H
    end;
  subst; mem_simpl.

Lemma climb_step_spec (c : config) (verbose : bool) (i : Z) (m : mem) :
  wp (climb_step c verbose i) (step_post c m) m.
Proof.
  unfold climb_step. wp_run.
  all: post_split; unfold step_post; mem_simpl.
  all: repeat match goal with |- _ /\ _ => split end.
  all: try first [ assumption | reflexivity | congruence
                 | eexists; split; eassumption
                 | known_leaf
                 | intros _; left; eapply model_raises_neighbor; eassumption
                 | intros _; left; assumption
                 | intros Hexp; auto ].
Qed.

Lemma seed_post_refl (m : mem) : seed_post m (Ok tt) m.
Proof.
  repeat split; auto; try discriminate. exists []. split; auto.
Qed.

Lemma seed_post_trans (m m1 m2 : mem) (r : result unit) :
  seed_post m (Ok tt) m1 -> seed_post m1 r m2 -> seed_post m r m2.
Proof.
  intros (S1 & O1 & H1) (S2 & O2 & H2).
  split; [congruence|]. split; [congruence|]. intros Hb.
  destruct (H1 Hb) as (B1 & _ & new1 & M1 & F1).
  destruct (H2 B1) as (B2 & R2 & new2 & M2 & F2).
  split; [assumption|]. split; [assumption|].
  exists (new2 ++ new1). split.
  - rewrite M2, M1, app_assoc. reflexivity.
  - apply Forall_app. split; [|assumption].
    eapply Forall_impl; [exact F2|]. cbn. intros cp [? ?]. split; congruence.
Qed.

Ltac seed_leaf :=
  unfold seed_post; mem_simpl;
  split; [reflexivity|]; split; [reflexivity|];
  intros Hb;
  split; [revert Hb; known_leaf|];
  split;
  [ intros e' He'; try discriminate; injection He' as <-;
    first [ eapply model_raises_objective; eassumption
          | eapply model_raises_random; eassumption
          | match goal with
            | H : _ = None \/ _ = None |- _ =>
                destruct Hb as (? & ? & _); destruct H; congruence
            end ]
  | first [ exists []; split; [reflexivity | constructor]
          | eexists [_]; split; [reflexivity|];
            constructor;
            [ split; [reflexivity |];
              revert Hb; unfold cp_known, cp_best, cp_seen; cbn [fst snd];
              known_leaf
            | constructor ] ] ].

Lemma seed_point_spec (point : state) (m : mem) :
  wp (seed_point point) (seed_post m) m.
Proof. unfold seed_point. wp_go. all: seed_leaf. Qed.

Lemma sample_once_spec (m : mem) : wp sample_once (seed_post m) m.
Proof. unfold sample_once. wp_go. all: seed_leaf. Qed.

Lemma seed_initial_spec (c : config) (m : mem) :
  wp (seed_initial c) (seed_post m) m.
Proof. unfold seed_initial. wp_go. all: seed_leaf. Qed.

Lemma seed_points_spec (points : list state) (m : mem) :
  wp (seed_points points) (seed_post m) m.
Proof.
  revert m. induction points as [|point rest IH]; intros m; cbn [seed_points].
  - apply wp_ret, seed_post_refl.
  - apply wp_bind. eapply wp_mono; [apply seed_point_spec|].
    intros [[]|e] m1 H1; [|exact H1].
    eapply wp_mono; [apply IH|]. intros r m2 H2.
    eapply seed_post_trans; eassumption.
Qed.

Lemma sample_loop_spec (c : config) (fuel : nat) (n : Z) (m : mem) :
  wp (sample_loop c fuel n) (seed_post m) m.
Proof.
  revert n m. induction fuel as [|fuel IH]; intros n m; cbn [sample_loop].
  - apply wp_ret, seed_post_refl.
  - destruct (n <? n_samples c); [|apply wp_ret, seed_post_refl].
    apply wp_bind. eapply wp_mono; [apply sample_once_spec|].
    intros [[]|e] m1 H1; [|exact H1].
    eapply wp_mono; [apply IH|]. intros r m2 H2.
    eapply seed_post_trans; eassumption.
Qed.

(** The unrolling of the sampling loop is long enough: with at least
    [n_samples - n] unrollings the [while] has run to its end, and more of
    them change nothing. *)
Lemma sample_loop_fuel (c : config) (fuel fuel' : nat) (n : Z) (m : mem) :
  n_samples c - n <= Z.of_nat fuel -> (fuel <= fuel')%nat ->
  sample_loop c fuel' n m = sample_loop c fuel n m.
Proof.
  revert fuel' n m.
  induction fuel as [|fuel IH]; intros fuel' n m Hn Hf.
  - destruct fuel' as [|fuel']; [reflexivity|]. cbn [sample_loop].
    replace (n <? n_samples c) with false; [reflexivity|].
    symmetry. apply Z.ltb_ge. lia.
  - destruct fuel' as [|fuel']; [lia|]. cbn [sample_loop].
    destruct (n <? n_samples c); [|reflexivity].
    unfold bind. destruct (sample_once m) as [[[]|e] m1]; [|reflexivity].
    apply IH; lia.
Qed.

Lemma seeding_spec (c : config) (m : mem) : wp (seeding c) (seed_post m) m.
Proof.
  unfold seeding.
  destruct (0 <? Z.of_nat (length (points_to_evaluate c)));
    [apply seed_points_spec|].
  destruct (1 <? n_samples c);
    [apply sample_loop_spec | apply seed_initial_spec].
Qed.

Lemma climb_spec (c : config) (verbose : bool) (k : nat) (i : Z) (m : mem) :
  wp (climb c verbose k i) (climb_post c k m) m.
Proof.
  revert i m.
  induction k as [|k IH]; intros i m; cbn [climb].
  - apply wp_ret. split; [auto|]. split; [|cbn; lia].
    exists []. repeat split; auto.
  - apply wp_bind. eapply wp_mono; [apply climb_step_spec|].
    intros [[[bs bo]|]|e] m1 (S1 & B1 & H1).
    + apply wp_ret. destruct H1 as (M1 & O1 & -> & -> & T1).
      split; [assumption|]. split.
      * eexists [_]. split; [exact M1|]. split; [|split].
        -- constructor; [cbn; lia | constructor].
        -- intros Hb. constructor; [exact (B1 Hb) | constructor].
        -- discriminate.
      * repeat split; auto; lia.
    + destruct H1 as (M1 & T1).
      eapply wp_mono; [apply IH|].
      intros r m2 (B2 & (new & M2 & F2 & G2 & N2) & R2).
      split; [auto|]. split.
      * exists (new ++ [(cur_steps m1, best_objective m1, seen m1)]).
        split; [rewrite M2, M1, <- app_assoc; reflexivity|].
        split; [|split].
        -- apply Forall_app. split.
           ++ eapply Forall_impl; [exact F2|]. cbn. intros; lia.
           ++ constructor; [cbn; lia | constructor].
        -- intros Hb. apply Forall_app. split; [auto|].
           constructor; [exact (B1 Hb) | constructor].
        -- intros ->. destruct (N2 eq_refl) as [L2 N2']. split.
           ++ rewrite length_app, L2. cbn. lia.
           ++ intros mo Hmo. apply Forall_app. split; [eauto|].
              constructor; [cbn; auto | constructor].
      * destruct r as [[[bs bo]|]|e]; [| |exact R2].
        -- destruct R2 as (? & ? & ? & ? & ?). repeat split; auto; lia.
        -- lia.
    + destruct H1 as (Hr & M1). split; [assumption|]. split; [|assumption].
      exists []. split; [exact M1|]. repeat split; auto; discriminate.
Qed.

Lemma climb_marks_app (l1 l2 : list checkpoint) :
  climb_marks (l1 ++ l2) = (climb_marks l1 + climb_marks l2)%nat.
Proof.
  induction l1 as [|cp l1 IH]; cbn; [reflexivity|].
  destruct (1 <=? cp_step cp); rewrite IH; reflexivity.
Qed.

Lemma climb_marks_all (l : list checkpoint) :
  Forall (fun cp => 0 < cp_step cp) l -> climb_marks l = length l.
Proof.
  induction 1 as [|cp l H _ IH]; cbn; [reflexivity|].
  replace (1 <=? cp_step cp) with true by (symmetry; apply Z.leb_le; lia).
  rewrite IH. reflexivity.
Qed.

Lemma climb_marks_none (l : list checkpoint) :
  Forall (fun cp => cp_step cp = 0) l -> climb_marks l = O.
Proof.
  induction 1 as [|cp l H _ IH]; cbn; [reflexivity|].
  rewrite H. cbn. exact IH.
Qed.

Lemma run_spec (c : config) (verbose : bool) (h : gmap loc Val) (g : Rng) :
  wp (run c verbose) (run_post c) (fresh_mem h g).
Proof.
  unfold run, _clear. wp_go.
  eapply wp_mono; [apply seeding_spec|].
  intros r1 m1 (S1 & O1 & H1). mem_simpl.
  assert (known (Some neg_inf) (seen (fresh_mem h g))) as K0
    by (exists neg_inf; auto).
  destruct (H1 K0) as (B1 & R1 & new1 & M1 & F1). clear H1 K0.
  cbn [fresh_mem marks] in M1. rewrite app_nil_r in M1.
  destruct r1 as [[]|e]; cycle 1.
  { split; [assumption|]. split.
    - rewrite M1. eapply Forall_impl; [exact F1|]. cbn. tauto.
    - intros _. left. auto. }
  apply wp_bind. eapply wp_mono; [apply climb_spec|].
  intros r2 m2 (B2 & (new2 & M2 & F2 & G2 & N2) & R2).
  assert (Forall cp_known (marks m2)) as HF.
  { rewrite M2, M1. apply Forall_app. split; [auto|].
    eapply Forall_impl; [exact F1|]. cbn. tauto. }
  destruct r2 as [[[bs bo]|]|e]; [| |repeat split; auto].
  - apply wp_ret. destruct R2 as (O2 & -> & -> & T2 & C2).
    split; [auto|]. split; [assumption|]. split; [reflexivity|].
    split; [reflexivity|]. left. split; [exact O2|]. split; [exact T2|]. lia.
  - wp_go. cbn beta iota in R2. unfold run_post, budget_exhausted. mem_simpl.
    destruct (N2 eq_refl) as [L2 N2'].
    split; [auto|]. split; [assumption|]. split; [reflexivity|].
    split; [reflexivity|]. right. split; [reflexivity|]. split; [lia|].
    split.
    + rewrite M2, M1, climb_marks_app, climb_marks_all, climb_marks_none.
      * lia.
      * eapply Forall_impl; [exact F1|]. cbn. intros cp [? ?]. lia.
      * eapply Forall_impl; [exact F2|]. cbn. intros cp ?. lia.
    + intros mo Hmo. rewrite M2, M1. apply Forall_app. split.
      * eapply Forall_impl; [exact (N2' mo Hmo)|]. cbn. auto.
      * eapply Forall_impl; [exact F1|]. cbn. intros cp [? ?] ?. lia.
Qed.

(** ** The acceptance test on a neighbor that is at least as good *)

(** C4 (as the code has it). With a positive real temperature and a
    [math.exp] that meets its contract, a neighbor whose objective is a real
    number at least the real objective of the current state is accepted,
    and no random number is drawn: the memory after the test differs from
    the one before only by the record of the two evaluations. *)
Theorem accept_at_least_as_good (c : config) (neighbor : state) (m : mem)
    (oc on : float) (mt : positive) (et : Z) :
  exp_overflow_only -> exp_ge_one ->
  temp c = S754_finite false mt et ->
  model_objective (content (heap m) (current_state m)) = Ok oc ->
  model_objective (content (heap m) neighbor) = Ok on ->
  real oc = true -> real on = true ->
  le oc on = true ->
  _accept_neighbor c neighbor m = (Ok true, observe on (observe oc m)).
Proof.
  intros Hexp Hge Ht Hoc Hon Roc Ron Hle.
  pose proof (exponent_nonneg oc on mt et (real_valid _ Roc)
                (real_valid _ Ron) (real_finite _ Roc) (real_finite _ Ron)
                Hle) as Hq.
  apply nonneg_ge_zero in Hq.
  unfold _accept_neighbor, bind, except_overflow, gets, _objective, truediv,
    math_exp, ret.
  rewrite Hoc. mem_simpl. rewrite Hon, Ht. cbn [truthy].
  destruct (exp _) as [p|e] eqn:E.
  - rewrite (Hge _ _ Hq E). reflexivity.
  - rewrite (Hexp _ _ E). reflexivity.
Qed.

(** So a rejected neighbor is no better than the current state. *)
Lemma rejected_not_better (c : config) (oc on p : float)
    (mt : positive) (et : Z) :
  exp_ge_one ->
  temp c = S754_finite false mt et ->
  real oc = true -> real on = true ->
  exp (div (neg (sub oc on)) (temp c)) = Ok p -> ge p one = false ->
  le on oc = true.
Proof.
  intros Hge Ht Roc Ron E Hp.
  destruct (le_total oc on (real_not_nan _ Roc) (real_not_nan _ Ron))
    as [Hle|Hle]; [|exact Hle].
  pose proof (exponent_nonneg oc on mt et (real_valid _ Roc)
                (real_valid _ Ron) (real_finite _ Roc) (real_finite _ Ron)
                Hle) as Hq.
  apply nonneg_ge_zero in Hq. rewrite <- Ht in Hq.
  rewrite (Hge _ _ Hq E) in Hp. discriminate.
Qed.

Lemma all_real_in (l : list float) (x : float) :
  all_real l -> In x l -> real x = true.
Proof.
  unfold all_real. rewrite List.Forall_forall. auto.
Qed.

Lemma all_real_app_r (l1 l2 : list float) :
  all_real (l1 ++ l2) -> all_real l2.
Proof. unfold all_real. rewrite Forall_app. tauto. Qed.

Lemma marks_rel_trace (b : float) (sn : list float) (mk : list checkpoint) :
  marks_rel b sn mk -> trace_good mk.
Proof.
  intros [F S]. split; [|exact S].
  eapply Forall_impl; [exact F|]. cbn.
  intros cp (bk & ? & ? & _). exists bk. auto.
Qed.

Lemma marks_rel_grow (b b' : float) (sn l : list float)
    (mk : list checkpoint) :
  marks_rel b sn mk -> all_real (l ++ sn) ->
  is_nan b = false -> is_nan b' = false -> le b b' = true ->
  marks_rel b' (l ++ sn) mk.
Proof.
  intros [F S] Hr Hb Hb' Hle. split; [|exact S].
  eapply Forall_impl; [exact F|]. cbn.
  intros cp (bk & E & [Hin Hmax] & Hk & l0 & Hs).
  exists bk. split; [exact E|]. split; [split; assumption|]. split.
  - eapply le_trans; [| | | exact Hk | exact Hle]; try assumption.
    apply real_not_nan. eapply all_real_in; [exact Hr|].
    apply in_or_app. right. rewrite Hs. apply in_or_app. right. exact Hin.
  - exists (l ++ l0). rewrite Hs, app_assoc. reflexivity.
Qed.

Lemma marks_rel_push (k : Z) (b : float) (sn : list float)
    (mk : list checkpoint) :
  marks_rel b sn mk -> is_max b sn -> is_nan b = false ->
  marks_rel b sn ((k, Some b, sn) :: mk).
Proof.
  intros [F S] Hmax Hb. split.
  - constructor; [|exact F].
    exists b. split; [reflexivity|]. split; [exact Hmax|].
    split; [apply le_refl, Hb|]. exists []. reflexivity.
  - constructor; [exact S|].
    eapply Forall_impl; [exact F|]. cbn.
    intros cp (bk & E & _ & Hk & _). exists bk, b. auto.
Qed.

Lemma good_frame (m m' : mem) :
  best_objective m' = best_objective m -> seen m' = seen m ->
  marks m' = marks m ->
  content (heap m') (current_state m') = content (heap m) (current_state m) ->
  good m -> good m'.
Proof.
  intros Eb Es Em Ec (b & Hb & Hin & Hall & Hcur & Hmk).
  exists b. rewrite Eb, Es, Em, Ec. auto.
Qed.

Lemma good_mark (m : mem) : all_real (seen m) -> good m -> good (mark m).
Proof.
  intros Hr (b & Hb & Hin & Hall & Hcur & Hmk).
  exists b. mem_simpl.
  split; [exact Hb|]. split; [exact Hin|]. split; [exact Hall|].
  split; [exact Hcur|]. rewrite Hb.
  apply marks_rel_push; [exact Hmk | split; assumption |].
  apply real_not_nan. eapply all_real_in; eassumption.
Qed.

(** The fallback to 0 changes no comparison. *)
Lemma gt_or_zero_r (x b : float) : gt x (or_zero (Some b)) = gt x b.
Proof.
  unfold or_zero. destruct b as [s|s| |s m e]; cbn [truthy]; try reflexivity.
Qed.

Lemma gt_or_zero_l (b x : float) : gt (or_zero (Some b)) x = gt b x.
Proof.
  unfold or_zero. destruct b as [s|s| |s m e]; cbn [truthy];
    first [ reflexivity
          | unfold gt, SFltb; rewrite (compare_zero_r s x); reflexivity ].
Qed.

Lemma accept_half (c : config) (n : state) (m1 m2 : mem) (acc : bool)
    (mt : positive) (et : Z) :
  exp_ge_one -> temp c = S754_finite false mt et ->
  good m1 -> accept_post c n m1 (Ok acc) m2 -> all_real (seen m2) ->
  half_good (if acc then set_current_state n m2 else m2).
Proof.
  intros Hge Ht (b & Hb & Hin & Hall & Hcur & Hmk)
    ((_ & Ecur & _ & Ebest & _ & Eheap & _ & Emarks) & _
     & (l & Eseen & Hl) & Hrej) Hreal.
  assert (is_nan b = false) as Nb.
  { apply real_not_nan. eapply all_real_in; [exact Hreal|].
    rewrite Eseen. apply in_or_app. right. exact Hin. }
  exists b.
  assert (best_objective (if acc then set_current_state n m2 else m2)
          = Some b) as -> by (destruct acc; mem_simpl; congruence).
  assert (seen (if acc then set_current_state n m2 else m2) = l ++ seen m1)
    as -> by (destruct acc; mem_simpl; congruence).
  assert (marks (if acc then set_current_state n m2 else m2) = marks m1)
    as -> by (destruct acc; mem_simpl; congruence).
  split; [reflexivity|]. split; [apply in_or_app; right; exact Hin|].
  rewrite Eseen in Hreal. split.
  - intros x Hx. apply in_app_or in Hx as [Hx|Hx]; [|left; auto].
    destruct (Hl x Hx) as [Hoc|Hon]; [left; auto|].
    destruct acc.
    + right. mem_simpl. rewrite Eheap. exact Hon.
    + left. destruct (Hrej eq_refl) as (oc & on & p & Hoc & Hon' & Es & _ & E & Hp).
      assert (x = on) as -> by congruence.
      assert (real oc = true /\ real on = true) as [Roc Ron].
      { rewrite <- Eseen, Es in Hreal.
        split; eapply all_real_in; try exact Hreal; cbn; auto. }
      apply (le_trans on oc b); auto using real_not_nan.
      exact (rejected_not_better c oc on p mt et Hge Ht Roc Ron E Hp).
  - apply (marks_rel_grow b b); auto using le_refl.
Qed.

Lemma update_good (m2 m3 : mem) :
  half_good m2 -> update_post m2 (Ok tt) m3 -> all_real (seen m3) ->
  good m3.
Proof.
  intros (b & Hb & Hin & Hall & Hmk)
    (_ & Ecur & _ & _ & Emarks & _ & _ & Hok) Hreal.
  destruct (Hok eq_refl) as (o & Ho & [[Hgt ->] | (Hgt & Eb & Es & _ & Eh)]);
    clear Hok; rewrite Hb, gt_or_zero_r in Hgt.
  - mem_simpl.
    assert (real o = true) as Ro by (eapply all_real_in; [exact Hreal|]; cbn; auto).
    assert (is_nan b = false) as Nb.
    { apply real_not_nan. eapply all_real_in; [exact Hreal|]. cbn; auto. }
    assert (le o b = true) as Hle by (apply not_gt_le; auto using real_not_nan).
    exists b. mem_simpl. split; [exact Hb|]. split; [cbn; auto|]. split.
    { intros x [<-|Hx]; [exact Hle|].
      destruct (Hall x Hx) as [?|Hx']; [assumption|]. congruence. }
    split; [intros oc Hoc; congruence|].
    apply (marks_rel_grow b b (seen m2) [o]); auto using le_refl.
  - rewrite Es in Hreal.
    assert (real o = true) as Ro by (eapply all_real_in; [exact Hreal|]; cbn; auto).
    assert (is_nan b = false) as Nb.
    { apply real_not_nan. eapply all_real_in; [exact Hreal|]. cbn; auto. }
    pose proof (real_not_nan _ Ro) as No.
    exists o. rewrite Es, Emarks, Ecur, Eh, copy_in_content_same.
    split; [exact Eb|]. split; [cbn; auto|]. split.
    { intros x [<-|[<-|Hx]]; try (apply le_refl, No).
      destruct (Hall x Hx) as [Hle|Hx'].
      - apply (le_gt_trans x b o); auto.
        apply real_not_nan. eapply all_real_in; [exact Hreal|]. cbn; auto.
      - assert (x = o) as -> by congruence. apply le_refl, No. }
    split; [intros oc Hoc; assert (oc = o) as -> by congruence;
            apply le_refl, No|].
    apply (marks_rel_grow b o (seen m2) [o; o]); auto using gt_le.
Qed.

Lemma all_real_suffix (l1 l2 : list float) :
  suffix l1 l2 -> all_real l2 -> all_real l1.
Proof. intros [k ->]. apply all_real_app_r. Qed.

Lemma keeps_bind {A B : Type} (P : mem -> Prop) (Q : A -> mem -> Prop)
    (T : B -> mem -> Prop) (c : M A) (k : A -> M B) (m : mem) :
  wp c (keeps P Q m) m ->
  (forall a m1, wp (k a) (keeps (Q a) T m1) m1) ->
  wp (bind c k) (keeps P T m) m.
Proof.
  intros Hc Hk. apply wp_bind. eapply wp_mono; [exact Hc|].
  intros [a|e] m1 [S1 H1]; [|split; assumption].
  eapply wp_mono; [apply Hk|]. intros r m2 [S2 H2]. split.
  - etransitivity; eassumption.
  - intros Hreal HP. apply H2; [exact Hreal|].
    apply H1; [|exact HP]. eapply all_real_suffix; eassumption.
Qed.

Lemma keeps_ret {A : Type} (P : mem -> Prop) (Q : A -> mem -> Prop)
    (a : A) (m : mem) :
  (P m -> Q a m) -> wp (ret a) (keeps P Q m) m.
Proof. intros H. apply wp_ret. split; [reflexivity | auto]. Qed.

Lemma keeps_gets {A : Type} (P : mem -> Prop) (f : mem -> A) (m : mem) :
  wp (gets f) (keeps P (fun _ => P) m) m.
Proof. apply wp_gets. split; [reflexivity | auto]. Qed.

Lemma keeps_modify (P Q : mem -> Prop) (f : mem -> mem) (m : mem) :
  seen (f m) = seen m ->
  (all_real (seen m) -> P m -> Q (f m)) ->
  wp (modify f) (keeps P (fun _ => Q) m) m.
Proof.
  intros Es H. apply wp_modify. split; [rewrite Es; reflexivity|].
  rewrite Es. exact H.
Qed.

Lemma keeps_weaken {A : Type} (P P' : mem -> Prop) (Q Q' : A -> mem -> Prop)
    (c : M A) (m : mem) :
  wp c (keeps P Q m) m -> (P' m -> P m) ->
  (forall a m', Q a m' -> Q' a m') ->
  wp c (keeps P' Q' m) m.
Proof.
  intros H HP HQ. eapply wp_mono; [exact H|].
  intros r m' [S K]. split; [exact S|]. intros Hreal HP'.
  specialize (K Hreal (HP HP')). destruct r; auto.
Qed.

Lemma good_trace (m : mem) : good m -> trace_good (marks m).
Proof. intros (b & _ & _ & _ & _ & H). eapply marks_rel_trace, H. Qed.

Lemma half_good_trace (m : mem) : half_good m -> trace_good (marks m).
Proof. intros (b & _ & _ & _ & H). eapply marks_rel_trace, H. Qed.

Lemma neighbor_keeps (m : mem) :
  neighbor_keeps_current ->
  wp _neighbor (keeps good (fun _ => good) m) m.
Proof.
  intros Hfr. apply wp_neighbor. intros r h g E. split; [reflexivity|].
  mem_simpl. intros _ Hg. destruct r as [n|e].
  - eapply good_frame; [..|exact Hg]; try reflexivity.
    mem_simpl. eapply Hfr, E.
  - apply good_trace in Hg. exact Hg.
Qed.

Lemma accept_keeps (c : config) (n : state) (m : mem)
    (mt : positive) (et : Z) :
  exp_ge_one -> temp c = S754_finite false mt et ->
  wp (_accept_neighbor c n)
     (keeps good
        (fun (acc : bool) m' =>
           half_good (if acc then set_current_state n m' else m')) m) m.
Proof.
  intros Hge Ht. eapply wp_mono; [apply accept_spec|].
  intros r m' Hpost. pose proof Hpost as (Hs & _ & (l & El & _) & _).
  split; [exists l; exact El|]. intros Hreal Hg. destruct r as [acc|e].
  - eapply accept_half; eassumption.
  - destruct Hs as (_ & _ & _ & _ & _ & _ & _ & Em). rewrite Em.
    apply good_trace, Hg.
Qed.

Lemma update_keeps (m : mem) :
  wp update_best (keeps half_good (fun _ => good) m) m.
Proof.
  eapply wp_mono; [apply update_best_spec|].
  intros r m' Hpost. split.
  - destruct Hpost as (_ & _ & _ & _ & _ & _ & Hr & Hok).
    destruct r as [[]|e].
    + destruct (Hok eq_refl) as (o & _ & [[_ ->] | (_ & _ & Es & _)]).
      * exists [o]. reflexivity.
      * exists [o; o]. exact Es.
    + destruct (Hr e eq_refl) as [_ ->]. reflexivity.
  - intros Hreal Hh. destruct r as [[]|e].
    + eapply update_good; eassumption.
    + destruct Hpost as (_ & _ & _ & _ & Em & _). rewrite Em.
      apply half_good_trace, Hh.
Qed.

Lemma check_target_keeps (c : config) (m : mem) :
  wp (check_target c) (keeps good (fun _ => good) m) m.
Proof.
  eapply wp_mono; [apply check_target_spec|].
  intros [[[bs bo]|]|e] m' Hpost; cbn in Hpost.
  - destruct Hpost as (-> & _). split; [reflexivity|]. intros _ Hg.
    eapply good_frame; [..|exact Hg]; reflexivity.
  - destruct Hpost as (-> & _). split; [reflexivity|]. auto.
  - destruct Hpost.
Qed.

Lemma climb_step_keeps (c : config) (verbose : bool) (i : Z) (m : mem)
    (mt : positive) (et : Z) :
  exp_ge_one -> temp c = S754_finite false mt et ->
  neighbor_keeps_current ->
  wp (climb_step c verbose i) (keeps good (fun _ => good) m) m.
Proof.
  intros Hge Ht Hfr. unfold climb_step.
  eapply keeps_bind; [apply keeps_gets|]. intros n m1.
  eapply keeps_bind.
  { apply keeps_modify; [reflexivity|]. intros _ Hg.
    eapply good_frame; [..|exact Hg]; reflexivity. }
  intros ? m2. eapply keeps_bind.
  { instantiate (1 := fun _ => good).
    destruct (((i + 1) mod 100 =? 0) && verbose).
    - eapply keeps_bind; [apply keeps_gets|]. intros n' m3.
      eapply keeps_bind; [apply keeps_gets|]. intros bo m4.
      eapply keeps_bind; [apply keeps_gets|]. intros bs m5.
      apply keeps_modify; [reflexivity|]. intros _ Hg.
      eapply good_frame; [..|exact Hg]; reflexivity.
    - apply keeps_ret. auto. }
  intros ? m3. eapply keeps_bind; [apply neighbor_keeps, Hfr|].
  intros nb m4. eapply keeps_bind; [eapply accept_keeps; eassumption|].
  intros acc m5. eapply keeps_bind.
  { instantiate (1 := fun _ => half_good). destruct acc.
    - apply keeps_modify; [reflexivity|]. auto.
    - apply keeps_ret. auto. }
  intros ? m6. eapply keeps_bind; [apply update_keeps|].
  intros ? m7. eapply keeps_bind.
  { apply keeps_modify; [reflexivity|]. apply good_mark. }
  intros ? m8. apply check_target_keeps.
Qed.

Lemma seed_start_pre (m : mem) : seed_start m -> seed_pre m.
Proof. intros (Hb & Hs & Hm). exists neg_inf. auto. Qed.

Lemma good_seed_pre (m : mem) : good m -> seed_pre m.
Proof. intros (b & Hb & Hin & Hall & _ & Hmk). exists b. auto. Qed.

Lemma seed_pre_trace (m : mem) : seed_pre m -> trace_good (marks m).
Proof.
  intros (b & _ & [(_ & _ & ->) | (_ & _ & H)]).
  - split; constructor.
  - eapply marks_rel_trace, H.
Qed.

Lemma seed_pre_frame (m m' : mem) :
  best_objective m' = best_objective m -> seen m' = seen m ->
  marks m' = marks m -> seed_pre m -> seed_pre m'.
Proof.
  intros Eb Es Em (b & Hb & H). exists b. rewrite Eb, Es, Em. auto.
Qed.

(** A seeding step that compares: the evaluated objective replaces the
    best objective when it is greater. *)
Lemma seed_eval_good (m m' : mem) (o b : float) :
  seed_pre m -> best_objective m = Some b ->
  seen m' = o :: seen m -> marks m' = marks m ->
  model_objective (content (heap m') (current_state m')) = Ok o ->
  best_objective m' = Some (if gt o b then o else b) ->
  all_real (seen m') -> good m'.
Proof.
  intros (b0 & Hb0 & Hpre) Hb Es Em Ho Eb Hreal.
  assert (b0 = b) as -> by congruence. clear Hb0.
  rewrite Es in Hreal.
  assert (real o = true) as Ro
      by (eapply all_real_in; [exact Hreal|]; cbn; auto).
  pose proof (real_not_nan _ Ro) as No.
  destruct Hpre as [(-> & Hs & Hm) | (Hin & Hall & Hmk)].
  - rewrite (real_gt_neg_inf _ Ro) in Eb.
    exists o. rewrite Es, Em, Hs, Hm.
    split; [exact Eb|]. split; [cbn; auto|]. split.
    { intros x [<-|[]]. apply le_refl, No. }
    split; [intros oc Hoc; assert (oc = o) as -> by congruence;
            apply le_refl, No|].
    split; constructor.
  - assert (is_nan b = false) as Nb.
    { apply real_not_nan. eapply all_real_in; [exact Hreal|]. cbn; auto. }
    destruct (gt o b) eqn:Hgt.
    + exists o. rewrite Es, Em.
      split; [exact Eb|]. split; [cbn; auto|]. split.
      { intros x [<-|Hx]; [apply le_refl, No|].
        apply (le_gt_trans x b o); auto.
        apply real_not_nan. eapply all_real_in; [exact Hreal|]. cbn; auto. }
      split; [intros oc Hoc; assert (oc = o) as -> by congruence;
              apply le_refl, No|].
      apply (marks_rel_grow b o (seen m) [o]); auto using gt_le.
    + assert (le o b = true) as Hle by (apply not_gt_le; auto).
      exists b. rewrite Es, Em.
      split; [exact Eb|]. split; [cbn; auto|]. split.
      { intros x [<-|Hx]; auto. }
      split; [intros oc Hoc; congruence|].
      apply (marks_rel_grow b b (seen m) [o]); auto using le_refl.
Qed.

Ltac seed_keeps_leaf :=
  lazymatch goal with
  | |- keeps _ _ _ (Raise _) _ =>
      split;
      [ mem_simpl; first [ reflexivity | apply suffix_cons_r; reflexivity ]
      | intros _ Hpre; mem_simpl; apply seed_pre_trace, Hpre ]
  | |- keeps _ _ ?m0 (Ok _) _ =>
      split;
      [ mem_simpl; apply suffix_cons_r; reflexivity
      | intros Hreal Hpre; apply good_mark; [exact Hreal|];
        match goal with
        | Hb : best_objective _ = Some ?y, He : Some ?o = Some ?x |- _ =>
            injection He as <-;
            apply (seed_eval_good m0 _ o y Hpre Hb); mem_simpl;
            [ reflexivity | reflexivity | assumption
            | match goal with
              | Hg : gt _ _ = _ |- _ => rewrite Hg
              end; first [reflexivity | assumption]
            | exact Hreal ]
        end ]
  end.

Lemma seed_point_keeps (point : state) (m : mem) :
  wp (seed_point point) (keeps seed_pre (fun _ => good) m) m.
Proof. unfold seed_point. wp_go. all: seed_keeps_leaf. Qed.

Lemma sample_once_keeps (m : mem) :
  wp sample_once (keeps seed_pre (fun _ => good) m) m.
Proof.
  unfold sample_once. wp_go. all: seed_keeps_leaf.
Qed.

Lemma seed_initial_keeps (c : config) (m : mem) :
  wp (seed_initial c) (keeps seed_start (fun _ => good) m) m.
Proof.
  unfold seed_initial. wp_go.
  - split; [mem_simpl; apply suffix_cons_r; reflexivity|].
    intros Hreal Hst. apply good_mark; [exact Hreal|].
    pose proof Hst as (Hb & _ & _).
    apply (seed_eval_good m _ o neg_inf (seed_start_pre _ Hst) Hb);
      mem_simpl; try reflexivity; try assumption.
    rewrite real_gt_neg_inf; [reflexivity|].
    eapply all_real_in; [exact Hreal|]. cbn; auto.
  - split; [reflexivity|]. intros _ Hst. mem_simpl.
    apply seed_pre_trace, seed_start_pre, Hst.
Qed.

Lemma seed_points_keeps_good (points : list state) (m : mem) :
  wp (seed_points points) (keeps good (fun _ => good) m) m.
Proof.
  revert m. induction points as [|point rest IH]; intros m; cbn [seed_points].
  - apply keeps_ret. auto.
  - eapply keeps_bind; [|intros ? m1; apply IH].
    eapply keeps_weaken; [apply seed_point_keeps | apply good_seed_pre | auto].
Qed.

Lemma seed_points_keeps (point : state) (rest : list state) (m : mem) :
  wp (seed_points (point :: rest)) (keeps seed_pre (fun _ => good) m) m.
Proof.
  cbn [seed_points]. eapply keeps_bind; [apply seed_point_keeps|].
  intros ? m1. apply seed_points_keeps_good.
Qed.

Lemma sample_loop_keeps_good (c : config) (fuel : nat) (n : Z) (m : mem) :
  wp (sample_loop c fuel n) (keeps good (fun _ => good) m) m.
Proof.
  revert n m. induction fuel as [|fuel IH]; intros n m; cbn [sample_loop].
  - apply keeps_ret. auto.
  - destruct (n <? n_samples c); [|apply keeps_ret; auto].
    eapply keeps_bind; [|intros ? m1; apply IH].
    eapply keeps_weaken; [apply sample_once_keeps | apply good_seed_pre | auto].
Qed.

Lemma sample_loop_keeps (c : config) (fuel : nat) (n : Z) (m : mem) :
  (n <? n_samples c) = true ->
  wp (sample_loop c (S fuel) n) (keeps seed_pre (fun _ => good) m) m.
Proof.
  intros Hn. cbn [sample_loop]. rewrite Hn.
  eapply keeps_bind; [apply sample_once_keeps|].
  intros ? m1. apply sample_loop_keeps_good.
Qed.

Lemma seeding_keeps (c : config) (m : mem) :
  wp (seeding c) (keeps seed_start (fun _ => good) m) m.
Proof.
  unfold seeding.
  destruct (points_to_evaluate c) as [|point rest] eqn:Ep; cbn [length].
  - change (0 <? Z.of_nat 0) with false. cbn iota.
    destruct (1 <? n_samples c) eqn:En; [|apply seed_initial_keeps].
    apply Z.ltb_lt in En.
    destruct (Z.to_nat (n_samples c)) as [|fuel] eqn:Ef; [lia|].
    eapply keeps_weaken;
      [apply sample_loop_keeps | apply seed_start_pre | auto].
    apply Z.ltb_lt. lia.
  - replace (0 <? Z.of_nat (S (length rest))) with true
      by (symmetry; apply Z.ltb_lt; lia).
    eapply keeps_weaken;
      [apply seed_points_keeps | apply seed_start_pre | auto].
Qed.

Lemma climb_keeps (c : config) (verbose : bool) (k : nat) (i : Z) (m : mem)
    (mt : positive) (et : Z) :
  exp_ge_one -> temp c = S754_finite false mt et ->
  neighbor_keeps_current ->
  wp (climb c verbose k i) (keeps good (fun _ => good) m) m.
Proof.
  intros Hge Ht Hfr. revert i m.
  induction k as [|k IH]; intros i m; cbn [climb].
  - apply keeps_ret. auto.
  - eapply keeps_bind; [eapply climb_step_keeps; eassumption|].
    intros [v|] m1; [apply keeps_ret; auto | apply IH].
Qed.

Lemma run_keeps (c : config) (verbose : bool) (mt : positive) (et : Z)
    (h : gmap loc Val) (g : Rng) :
  exp_ge_one -> temp c = S754_finite false mt et ->
  neighbor_keeps_current ->
  wp (run c verbose) (keeps (fun _ => True) (fun _ => good) (fresh_mem h g))
     (fresh_mem h g).
Proof.
  intros Hge Ht Hfr. unfold run, _clear. wp_go.
  eapply wp_mono; [apply seeding_keeps|].
  intros r1 m1 [S1 K1]. mem_simpl.
  assert (all_real (seen m1) ->
          match r1 with
          | Ok _ => good m1
          | Raise _ => trace_good (marks m1)
          end) as K1'.
  { intros Hr. apply K1; [exact Hr|]. repeat split. }
  clear K1. destruct r1 as [[]|e]; [|split; auto].
  apply wp_bind.
  eapply wp_mono; [eapply climb_keeps; eassumption|].
  intros r2 m2 [S2 K2].
  assert (suffix (seen (fresh_mem h g)) (seen m2)) as S12
      by (etransitivity; eassumption).
  assert (all_real (seen m2) ->
          match r2 with
          | Ok _ => good m2
          | Raise _ => trace_good (marks m2)
          end) as K2'.
  { intros Hr. apply K2; [exact Hr|]. apply K1'.
    eapply all_real_suffix; eassumption. }
  clear K2. destruct r2 as [[v|]|e]; [| |split; auto].
  - apply wp_ret. split; auto.
  - wp_go. split; [exact S12|]. intros Hr _.
    eapply good_frame; [..|apply K2', Hr]; reflexivity.
Qed.

(** ** Properties of a run *)

(** C2. With a positive real temperature, a [math.exp] that is at least 1
    on non-negative arguments and a Problem Model whose [_neighbor] leaves
    the current state as it is, if every objective value evaluated during
    the run is a real number then at every checkpoint (after every
    best-update of the seeding and of the climbing) the best objective is
    the maximum of the objective values evaluated so far, and the best
    objectives of the checkpoints never decrease. *)
Theorem best_objective_is_running_maximum (c : config) (verbose : bool)
    (mt : positive) (et : Z) (h : gmap loc Val) (g : Rng) :
  exp_ge_one -> temp c = S754_finite false mt et ->
  neighbor_keeps_current ->
  all_real (seen (snd (run c verbose (fresh_mem h g)))) ->
  trace_good (marks (snd (run c verbose (fresh_mem h g)))).
Proof.
  intros Hge Ht Hfr Hreal.
  pose proof (run_keeps c verbose mt et h g Hge Ht Hfr) as [_ K].
  specialize (K Hreal I).
  destruct (fst (run c verbose (fresh_mem h g))); [apply good_trace|]; exact K.
Qed.

(** The climbing stops at the first iteration whose checkpoint is above
    the target: when [climb] returns early, the latest checkpoint is that
    of the last step counted, and the iterations before it, one checkpoint
    each, ended none of them above a configured maximum objective. *)
Lemma climb_stops_at_first (c : config) (verbose : bool) (k : nat) (i : Z)
    (m : mem) :
  wp (climb c verbose k i)
     (fun r m' =>
        match r with
        | Ok (Some _) =>
            cur_steps m < cur_steps m' /\
            exists rest,
              marks m'
              = (cur_steps m', best_objective m', seen m') :: rest ++ marks m /\
              length rest = Z.to_nat (cur_steps m' - cur_steps m - 1) /\
              Forall (fun cp =>
                        cur_steps m < cp_step cp < cur_steps m' /\
                        forall mo, max_objective c = Some mo ->
                                   gt (or_zero (cp_best cp)) mo = false) rest
        | _ => True
        end) m.
Proof.
  revert i m. induction k as [|k IH]; intros i m; cbn [climb].
  - apply wp_ret. exact I.
  - apply wp_bind. eapply wp_mono; [apply climb_step_spec|]. cbn beta.
    intros [[[bs bo]|]|e] m1 (S1 & _ & H1).
    + apply wp_ret. destruct H1 as (M1 & _).
      split; [lia|]. exists []. split; [exact M1|].
      split; [cbn; lia | constructor].
    + destruct H1 as (M1 & T1).
      eapply wp_mono; [apply IH|]. cbn beta.
      intros [[v|]|e] m2 H2; try exact I.
      destruct H2 as (L2 & rest & M2 & N2 & F2).
      split; [lia|].
      exists (rest ++ [(cur_steps m1, best_objective m1, seen m1)]).
      split; [rewrite M2, M1, <- app_assoc; reflexivity|].
      split; [rewrite length_app, N2; cbn; lia|].
      apply Forall_app. split.
      * eapply Forall_impl; [exact F2|]. cbn beta.
        intros cp [? ?]. split; [lia | assumption].
      * constructor; [|constructor]. split; [cbn; lia | exact T1].
    + exact I.
Qed.

(** A run that returns on the target has stopped at the first climbing
    iteration that ended above it. *)
Lemma run_stops_at_first (c : config) (verbose : bool) (h : gmap loc Val)
    (g : Rng) :
  wp (run c verbose)
     (fun r m' =>
        match r with
        | Ok _ =>
            target_reached m' ->
            exists earlier,
              marks m' = (cur_steps m', best_objective m', seen m') :: earlier /\
              climb_marks earlier = Z.to_nat (cur_steps m' - 1) /\
              Forall (fun cp =>
                        1 <= cp_step cp ->
                        cp_step cp < cur_steps m' /\
                        forall mo, max_objective c = Some mo ->
                                   gt (or_zero (cp_best cp)) mo = false)
                     earlier
        | Raise _ => True
        end) (fresh_mem h g).
Proof.
  unfold run, _clear. wp_go.
  eapply wp_mono; [apply seeding_spec|]. cbn beta.
  intros r1 m1 (S1 & _ & H1). mem_simpl.
  assert (known (Some neg_inf) (seen (fresh_mem h g))) as K0
    by (exists neg_inf; auto).
  destruct (H1 K0) as (_ & _ & new1 & M1 & F1). clear H1 K0.
  cbn [fresh_mem marks cur_steps] in *. rewrite app_nil_r in M1.
  destruct r1 as [[]|e]; [|exact I].
  apply wp_bind. eapply wp_mono; [apply climb_stops_at_first|]. cbn beta.
  intros [[v|]|e] m2 H2; [| |exact I].
  - apply wp_ret. intros _. destruct H2 as (L2 & rest & M2 & N2 & F2).
    exists (rest ++ new1). split; [rewrite M2, M1; reflexivity|]. split.
    + rewrite climb_marks_app, climb_marks_all, climb_marks_none.
      * lia.
      * eapply Forall_impl; [exact F1|]. cbn beta. intros cp [? ?]. lia.
      * eapply Forall_impl; [exact F2|]. cbn beta. intros cp [? ?]. lia.
    + apply Forall_app. split.
      * eapply Forall_impl; [exact F2|]. cbn beta.
        intros cp [? ?] _. split; [lia | assumption].
      * eapply Forall_impl; [exact F1|]. cbn beta. intros cp [? ?] ?. lia.
  - wp_go. unfold target_reached. mem_simpl. cbn. intros [=].
Qed.

(** C3 (as the code has it). A run that returns either reports the target
    reached or reports the budget exhausted. In the first case a maximum
    objective is configured, the best objective returned is strictly
    greater than it, and the run has stopped at the first climbing
    iteration that ended so: the latest checkpoint is that of the last step
    counted, with the best objective returned, there is one climbing
    checkpoint for each step before it, and at none of them was the best
    objective strictly greater than the maximum objective; at least one
    and at most [budget] iterations were made. In the second case all
    [max(0, budget)] iterations were made, one climbing checkpoint each,
    and at no climbing checkpoint was the best objective strictly greater
    than a configured maximum objective. A run that raises raises what the
    Problem Model raised, or divided by a zero temperature. *)
Theorem target_or_budget (c : config) (verbose : bool)
    (h : gmap loc Val) (g : Rng) :
  exp_overflow_only ->
  match fst (run c verbose (fresh_mem h g)) with
  | Raise e => raised_by c e
  | Ok (bs, bo) =>
      (target_reached (snd (run c verbose (fresh_mem h g))) /\
       (exists mo b,
           max_objective c = Some mo /\ bo = Some b /\ gt b mo = true /\
           exists earlier,
             marks (snd (run c verbose (fresh_mem h g)))
             = (cur_steps (snd (run c verbose (fresh_mem h g))), Some b,
                seen (snd (run c verbose (fresh_mem h g)))) :: earlier /\
             climb_marks earlier
             = Z.to_nat (cur_steps (snd (run c verbose (fresh_mem h g))) - 1) /\
             Forall (fun cp =>
                       1 <= cp_step cp ->
                       cp_step cp
                       < cur_steps (snd (run c verbose (fresh_mem h g))) /\
                       exists b', cp_best cp = Some b' /\ gt b' mo = false)
                    earlier) /\
       1 <= cur_steps (snd (run c verbose (fresh_mem h g))) <= budget c) \/
      (budget_exhausted (snd (run c verbose (fresh_mem h g))) /\
       cur_steps (snd (run c verbose (fresh_mem h g))) = Z.max 0 (budget c) /\
       climb_marks (marks (snd (run c verbose (fresh_mem h g))))
       = Z.to_nat (Z.max 0 (budget c)) /\
       forall mo, max_objective c = Some mo ->
         Forall (fun cp => 1 <= cp_step cp ->
                           exists b, cp_best cp = Some b /\ gt b mo = false)
                (marks (snd (run c verbose (fresh_mem h g)))))
  end.
Proof.
  intros Hexp. pose proof (run_spec c verbose h g) as H.
  pose proof (run_stops_at_first c verbose h g) as F. unfold wp in H, F.
  destruct (run c verbose (fresh_mem h g)) as [r m']. cbn [fst snd] in *.
  destruct H as (Hb & Hm & H). destruct r as [[bs bo]|e]; [|auto].
  destruct H as (-> & -> & [(Ht & (mo & Hmo & Hgt) & Hs) | (He & Hs & Hc & Hn)]).
  - left. split; [exact Ht|]. split; [|exact Hs].
    destruct Hb as (b & Hb & _). exists mo, b. rewrite Hb in *.
    rewrite gt_or_zero_l in Hgt.
    split; [exact Hmo|]. split; [reflexivity|]. split; [exact Hgt|].
    destruct (F Ht) as (earlier & M & N & E). clear F.
    exists earlier. split; [exact M|]. split; [exact N|].
    rewrite M in Hm. apply Forall_cons in Hm. destruct Hm as [_ Hm].
    rewrite List.Forall_forall in *. intros cp Hin Hstep.
    destruct (E cp Hin Hstep) as [Hlt Hle]. split; [exact Hlt|].
    destruct (Hm cp Hin) as (b' & Hcp & _). exists b'. split; [exact Hcp|].
    specialize (Hle mo Hmo). rewrite Hcp, gt_or_zero_l in Hle. exact Hle.
  - right. split; [exact He|]. split; [exact Hs|]. split; [rewrite Hc; lia|].
    intros mo Hmo.
    specialize (Hn mo Hmo). rewrite List.Forall_forall in *.
    intros cp Hin Hstep. destruct (Hm cp Hin) as (b & Hcp & _). exists b.
    split; [exact Hcp|]. specialize (Hn cp Hin Hstep).
    rewrite Hcp, gt_or_zero_l in Hn. exact Hn.
Qed.

(** C6 (as the code has it). Whatever a run raises was raised by one of
    the three operations of the Problem Model, or is the
    [ZeroDivisionError] of dividing by a temperature that is zero; and an
    [OverflowError] of [math.exp] in the acceptance test is an acceptance. *)
Theorem run_raises_only (c : config) (verbose : bool)
    (h : gmap loc Val) (g : Rng) :
  exp_overflow_only ->
  (forall e, fst (run c verbose (fresh_mem h g)) = Raise e ->
             model_raises e \/
             (e = ZeroDivisionError /\ truthy (temp c) = false)) /\
  (forall (neighbor : state) (m : mem) (oc on : float),
      model_objective (content (heap m) (current_state m)) = Ok oc ->
      model_objective (content (heap m) neighbor) = Ok on ->
      truthy (temp c) = true ->
      exp (div (neg (sub oc on)) (temp c)) = Raise OverflowError ->
      _accept_neighbor c neighbor m = (Ok true, observe on (observe oc m))).
Proof.
  intros Hexp. split.
  - intros e He. pose proof (run_spec c verbose h g) as H. unfold wp in H.
    rewrite He in H. destruct H as (_ & _ & H). exact (H Hexp).
  - intros neighbor m oc on Hoc Hon Ht E.
    unfold _accept_neighbor, bind, except_overflow, gets, _objective,
      truediv, math_exp, ret.
    rewrite Hoc. mem_simpl. rewrite Hon, Ht, E. reflexivity.
Qed.

(** C9 (as the code has it). A run whose temperature is not zero, that
    raises no exception of the Problem Model and does not report the target
    reached, returns, reports the budget exhausted, and has made exactly
    [max(0, max_steps - n_samples - len(points_to_evaluate))] climbing
    iterations: that many climbing checkpoints, and a step counter of that
    value. *)
Theorem climbing_iterations (c : config) (verbose : bool)
    (h : gmap loc Val) (g : Rng) :
  exp_overflow_only ->
  truthy (temp c) = true ->
  (forall e, fst (run c verbose (fresh_mem h g)) = Raise e ->
             ~ model_raises e) ->
  ~ target_reached (snd (run c verbose (fresh_mem h g))) ->
  (exists v, fst (run c verbose (fresh_mem h g)) = Ok v) /\
  budget_exhausted (snd (run c verbose (fresh_mem h g))) /\
  climb_marks (marks (snd (run c verbose (fresh_mem h g))))
  = Z.to_nat (Z.max 0 (budget c)) /\
  cur_steps (snd (run c verbose (fresh_mem h g))) = Z.max 0 (budget c).
Proof.
  intros Hexp Ht Hmodel Hnt.
  pose proof (run_spec c verbose h g) as H. unfold wp in H.
  destruct (run c verbose (fresh_mem h g)) as [r m']. cbn [fst snd] in *.
  destruct H as (_ & _ & H). destruct r as [[bs bo]|e].
  - destruct H as (_ & _ & [(Htr & _) | (He & Hs & Hc & _)]);
      [contradiction|].
    split; [eauto|]. split; [exact He|]. split; [|exact Hs].
    rewrite Hc. lia.
  - exfalso. destruct (H Hexp) as [Hm | [_ Hz]].
    + exact (Hmodel e eq_refl Hm).
    + congruence.
Qed.

(** C10. After a run, and at every checkpoint of it (after every
    best-update of the seeding and of the climbing), the best objective is
    a float, never [None]: negative infinity or one of the objective values
    evaluated before; and for a float the comparisons through
    [best_objective or 0] are the comparisons with the best objective
    itself. *)
Theorem best_objective_never_none (c : config) (verbose : bool)
    (h : gmap loc Val) (g : Rng) :
  best_known (snd (run c verbose (fresh_mem h g))) /\
  Forall cp_known (marks (snd (run c verbose (fresh_mem h g)))) /\
  (forall b x : float,
      gt x (or_zero (Some b)) = gt x b /\
      gt (or_zero (Some b)) x = gt b x).
Proof.
  pose proof (run_spec c verbose h g) as H. unfold wp in H.
  destruct H as (Hb & Hm & _).
  split; [exact Hb|]. split; [exact Hm|].
  intros b x. split; [apply gt_or_zero_r | apply gt_or_zero_l].
Qed.

(** C7 (as the code has it). In the best-update of the climbing loop a
    negative best objective is replaced by any strictly greater objective
    of the current state, negative or not: the fallback to 0 does not hold
    it back. *)
Theorem negative_best_is_improved (m : mem) (b o : float) :
  best_objective m = Some b -> lt b zero = true ->
  model_objective (content (heap m) (current_state m)) = Ok o ->
  gt o b = true ->
  fst (update_best m) = Ok tt /\
  best_objective (snd (update_best m)) = Some o.
Proof.
  intros Hb _ Ho Hgt.
  unfold update_best, bind, gets, _objective, modify, deepcopy, ret.
  rewrite Ho. mem_simpl. rewrite Hb, gt_or_zero_r, Hgt. mem_simpl.
  rewrite Ho. mem_simpl.
  destruct (copy_in (heap m) (current_state m)) as [s' h']. cbn.
  split; reflexivity.
Qed.

(** ** More on the acceptance test *)

(** For real numbers [y <= x], the difference [x - y] is zero, positive,
    or (on overflow) plus infinity. *)
Lemma sub_ge_nonneg (x y : float) :
  valid x = true -> valid y = true ->
  is_finite x = true -> is_finite y = true ->
  le y x = true -> nonneg (sub x y).
Proof.
  destruct x as [sx|sx| |sx mx ex], y as [sy|sy| |sy my ey];
    try discriminate; intros Vx Vy _ _ Hle.
  - destruct sx, sy; exact I.
  - destruct sy; [exact I | discriminate].
  - destruct sx; [discriminate | exact I].
  - cbn [valid valid_binary] in Vx, Vy.
    unfold sub, SFsub.
    set (ez := Z.min ex ey).
    rewrite (shl_align_val mx ex ez), (shl_align_val my ey ez)
      by (subst ez; lia).
    set (d := cond_Zopp sx _ - cond_Zopp sy _).
    assert (0 <= d) as Hd.
    { subst d. unfold le, SFleb, SFcompare in Hle.
      pose proof (compare_cont_Eq_spec my mx) as Hm.
      assert (0 < 2 ^ (ex - ez)) by (apply Z.pow_pos_nonneg; subst ez; lia).
      assert (0 < 2 ^ (ey - ez)) by (apply Z.pow_pos_nonneg; subst ez; lia).
      destruct sx, sy; cbn [cond_Zopp]; try discriminate; try nia.
      - destruct (Z.compare_spec ey ex) as [E|E|E]; try discriminate.
        + subst ey. replace ez with ex in * by (subst ez; lia).
          destruct (Pos.compare_cont Eq my mx); cbn in Hle;
            try discriminate; subst; nia.
        + pose proof (bounded_lt_scaled mx ex my ey Vx Vy E).
          replace ez with ex in * by (subst ez; lia).
          rewrite Z.sub_diag, Z.pow_0_r. nia.
      - destruct (Z.compare_spec ey ex) as [E|E|E]; try discriminate.
        + subst ey. replace ez with ex in * by (subst ez; lia).
          destruct (Pos.compare_cont Eq my mx); cbn in Hle;
            try discriminate; subst; nia.
        + pose proof (bounded_lt_scaled my ey mx ex Vy Vx E).
          replace ez with ey in * by (subst ez; lia).
          rewrite Z.sub_diag, Z.pow_0_r. nia. }
    clearbody d. unfold binary_normalize.
    destruct d as [|q|q]; [exact I | | lia].
    apply signed_false_nonneg, binary_round_signed.
Qed.

Lemma neg_nonneg_nonpos (x : float) : nonneg x -> nonpos (neg x).
Proof. destruct x as [s|s| |s m e]; try destruct s; cbn; auto. Qed.

(** Dividing a non-positive number by a negative real gives a
    non-negative one. *)
Lemma div_nonpos_neg (x : float) (mt : positive) (et : Z) :
  nonpos x -> nonneg (div x (S754_finite true mt et)).
Proof.
  destruct x as [s|s| |s m e]; cbn [nonpos]; try contradiction.
  - intros _. exact I.
  - destruct s; [intros _; exact I | contradiction].
  - destruct s; [intros _ | contradiction].
    unfold div, SFdiv, SFdiv_core_binary.
    set (m' := match _ - _ - _ with Z0 => _ | Zpos _ => _ | Zneg _ => _ end).
    assert (0 <= m') as Hm'.
    { subst m'. destruct (_ - _ - _) as [|q|q]; try lia.
      apply Z.shiftl_nonneg. lia. }
    clearbody m'.
    pose proof (Z_div_mod m' (Zpos mt) eq_refl) as Hdiv.
    destruct (Z.div_eucl m' (Zpos mt)) as [q r].
    apply signed_false_nonneg. change (xorb true true) with false.
    apply binary_round_aux_signed. nia.
Qed.

(** A finite number divided by an infinity is a zero. *)
Lemma div_finite_infinity (x : float) (s : bool) :
  is_finite x = true -> ge (div x (S754_infinity s)) zero = true.
Proof. destruct x as [sx|sx| |sx m e], s; try discriminate; reflexivity. Qed.

Lemma neg_finite (x : float) : is_finite (neg x) = is_finite x.
Proof. destruct x; reflexivity. Qed.

(** What the acceptance test does to the record and to the random
    source. *)
Lemma accept_effects (c : config) (n : state) (m : mem) :
  wp (_accept_neighbor c n)
     (fun r m' =>
        (length (seen m') <= length (seen m) + 2)%nat /\
        (rng m' = rng m \/ rng m' = snd (random (rng m))) /\
        (r = Ok false -> rng m' = snd (random (rng m))) /\
        (forall b, r = Ok b ->
                   (length (seen m) + 0 <= length (seen m'))%nat)) m.
Proof.
  unfold _accept_neighbor. wp_go.
  all: repeat match goal with |- _ /\ _ => split end.
  all: cbn [length]; try lia; auto.
  all: try (intros Hr; discriminate Hr).
  all: try match goal with
           | H : random _ = _ |- _ => rewrite H; cbn [snd]; auto
           end.
Qed.

(** X4. The acceptance test reads the climber and the store and changes
    neither: it adds at most two values to the record of evaluations
    and takes at most one number from the random source, one exactly
    when it rejects. *)
Theorem accept_changes_only_random_source (c : config) (neighbor : state)
    (m : mem) :
  same_self m (snd (_accept_neighbor c neighbor m)) /\
  (length (seen (snd (_accept_neighbor c neighbor m)))
   <= length (seen m) + 2)%nat /\
  (rng (snd (_accept_neighbor c neighbor m)) = rng m \/
   rng (snd (_accept_neighbor c neighbor m)) = snd (random (rng m))) /\
  (fst (_accept_neighbor c neighbor m) = Ok false ->
   rng (snd (_accept_neighbor c neighbor m)) = snd (random (rng m))).
Proof.
  pose proof (accept_spec c neighbor m) as [H _].
  pose proof (accept_effects c neighbor m) as (H1 & H2 & H3 & _).
  auto.
Qed.

(** X5. An [OverflowError] that [_objective] raises inside the [try], on
    the current state or on the neighbor, is taken for an overflow of the
    probability: the neighbor is accepted, and no random number drawn. *)
Theorem accept_swallows_overflow_of_objective (c : config)
    (neighbor : state) (m : mem) :
  model_objective (content (heap m) (current_state m)) = Raise OverflowError \/
  (exists oc,
      model_objective (content (heap m) (current_state m)) = Ok oc /\
      model_objective (content (heap m) neighbor) = Raise OverflowError) ->
  fst (_accept_neighbor c neighbor m) = Ok true /\
  rng (snd (_accept_neighbor c neighbor m)) = rng m.
Proof.
  unfold _accept_neighbor, bind, except_overflow, gets, _objective, ret.
  intros [H | (oc & H1 & H2)].
  - rewrite H. split; reflexivity.
  - rewrite H1. mem_simpl. rewrite H2. split; reflexivity.
Qed.

(** X6. With an infinite temperature the exponent is a zero whatever the
    finite difference of the objectives, and the neighbor is accepted
    without a draw. *)
Theorem accept_at_infinite_temperature (c : config) (neighbor : state)
    (m : mem) (oc on : float) (s : bool) :
  exp_overflow_only -> exp_ge_one ->
  temp c = S754_infinity s ->
  model_objective (content (heap m) (current_state m)) = Ok oc ->
  model_objective (content (heap m) neighbor) = Ok on ->
  is_finite (sub oc on) = true ->
  _accept_neighbor c neighbor m = (Ok true, observe on (observe oc m)).
Proof.
  intros Hexp Hge Ht Hoc Hon Hfin.
  assert (ge (div (neg (sub oc on)) (S754_infinity s)) zero = true) as Hq
    by (apply div_finite_infinity; rewrite neg_finite; exact Hfin).
  unfold _accept_neighbor, bind, except_overflow, gets, _objective, truediv,
    math_exp, ret.
  rewrite Hoc. mem_simpl. rewrite Hon, Ht. cbn [truthy].
  destruct (exp _) as [p|e] eqn:E.
  - rewrite (Hge _ _ Hq E). reflexivity.
  - rewrite (Hexp _ _ E). reflexivity.
Qed.

(** X7. A negative temperature turns the test around: a neighbor that is no
    better than the current state is accepted without a draw. *)
Theorem accept_at_negative_temperature (c : config) (neighbor : state)
    (m : mem) (oc on : float) (mt : positive) (et : Z) :
  exp_overflow_only -> exp_ge_one ->
  temp c = S754_finite true mt et ->
  model_objective (content (heap m) (current_state m)) = Ok oc ->
  model_objective (content (heap m) neighbor) = Ok on ->
  real oc = true -> real on = true ->
  le on oc = true ->
  _accept_neighbor c neighbor m = (Ok true, observe on (observe oc m)).
Proof.
  intros Hexp Hge Ht Hoc Hon Roc Ron Hle.
  assert (nonneg (div (neg (sub oc on)) (S754_finite true mt et))) as Hq.
  { apply div_nonpos_neg, neg_nonneg_nonpos, sub_ge_nonneg;
      auto using real_valid, real_finite. }
  apply nonneg_ge_zero in Hq.
  unfold _accept_neighbor, bind, except_overflow, gets, _objective, truediv,
    math_exp, ret.
  rewrite Hoc. mem_simpl. rewrite Hon, Ht. cbn [truthy].
  destruct (exp _) as [p|e] eqn:E.
  - rewrite (Hge _ _ Hq E). reflexivity.
  - rewrite (Hexp _ _ E). reflexivity.
Qed.

Lemma ge_nan_l (x : float) : ge S754_nan x = false.
Proof. destruct x as [?|?| |? ? ?]; reflexivity. Qed.

(** X8. A NaN objective, of the current state or of the neighbor, makes the
    probability NaN: the neighbor is rejected whatever the draw. *)
Theorem accept_rejects_nan (c : config) (neighbor : state) (m : mem)
    (oc on : float) :
  exp S754_nan = Ok S754_nan ->
  truthy (temp c) = true ->
  model_objective (content (heap m) (current_state m)) = Ok oc ->
  model_objective (content (heap m) neighbor) = Ok on ->
  is_nan oc || is_nan on = true ->
  fst (_accept_neighbor c neighbor m) = Ok false.
Proof.
  intros Hexp Ht Hoc Hon Hnan.
  assert (div (neg (sub oc on)) (temp c) = S754_nan) as Hq.
  { destruct oc as [?|?| |? ? ?], on as [?|?| |? ? ?];
      try discriminate Hnan; reflexivity. }
  unfold _accept_neighbor, bind, except_overflow, gets, _objective, truediv,
    math_exp, ret, draw.
  rewrite Hoc. mem_simpl. rewrite Hon, Ht, Hq, Hexp, ge_nan_l. cbn.
  destruct (random (rng m)) as [x g]. cbn. rewrite ge_nan_l. reflexivity.
Qed.
(** ** The best-update *)

(** X10. A best-update that improves stores a new object: the best state is
    a reference that the store did not hold, with what the current state
    holds, so that a later change of the current state's object is not a
    change of the best state. *)
Theorem best_update_stores_a_copy (m : mem) (l : loc) (v : Val)
    (o : float) :
  current_state m = Some l -> heap m !! l = Some v ->
  model_objective (Some v) = Ok o ->
  gt o (or_zero (best_objective m)) = true ->
  exists l',
    best_state (snd (update_best m)) = Some l' /\
    l' <> l /\ heap m !! l' = None /\
    heap (snd (update_best m)) = <[l' := v]> (heap m) /\
    current_state (snd (update_best m)) = Some l /\
    best_objective (snd (update_best m)) = Some o /\
    forall w,
      content (<[l := w]> (heap (snd (update_best m))))
              (best_state (snd (update_best m))) = Some v.
Proof.
  intros Hc Hl Ho Hgt.
  assert (model_objective (content (heap m) (current_state m)) = Ok o) as Ho'
    by (rewrite Hc; cbn; rewrite Hl; exact Ho).
  unfold update_best, bind, gets, _objective, modify, deepcopy, ret.
  rewrite Ho'. mem_simpl. rewrite Hgt. mem_simpl. rewrite Ho'. mem_simpl.
  rewrite Hc. cbn [copy_in]. rewrite Hl. mem_simpl. cbn [fst snd].
  assert (heap m !! fresh (dom (heap m)) = None) as Hf
    by (apply not_elem_of_dom, is_fresh).
  assert (fresh (dom (heap m)) <> l) as Hne by congruence.
  exists (fresh (dom (heap m))).
  repeat match goal with |- _ /\ _ => split end; auto.
  intros w. mem_simpl. cbn [content].
  rewrite lookup_insert_ne by congruence. apply lookup_insert_eq.
Qed.
(** ** What a run prints and how much it evaluates *)

Lemma wp_conj {A : Type} (c : M A) (Q1 Q2 : result A -> mem -> Prop) m :
  wp c Q1 m -> wp c Q2 m -> wp c (fun r m' => Q1 r m' /\ Q2 r m') m.
Proof. unfold wp; auto. Qed.

Ltac conj_split := repeat match goal with |- _ /\ _ => split end.

(** *** The seeding *)

Lemma seed_point_shape (point : state) (m : mem) :
  wp (seed_point point)
     (fun r m' =>
        cur_steps m' = cur_steps m /\ out m' = out m /\
        heap m' = heap m /\ rng m' = rng m /\
        (length (seen m') <= length (seen m) + 1)%nat /\
        (r = Ok tt -> length (seen m') = (length (seen m) + 1)%nat)) m.
Proof.
  unfold seed_point. wp_go.
  all: cbn [length]; conj_split; try reflexivity; try lia;
    intros Hr; try discriminate Hr; lia.
Qed.

Lemma sample_once_shape (m : mem) :
  wp sample_once
     (fun r m' =>
        cur_steps m' = cur_steps m /\ out m' = out m /\
        (length (seen m') <= length (seen m) + 1)%nat /\
        (r = Ok tt -> length (seen m') = (length (seen m) + 1)%nat)) m.
Proof.
  unfold sample_once. wp_go.
  all: cbn [length]; conj_split; try reflexivity; try lia;
    intros Hr; try discriminate Hr; lia.
Qed.

Lemma seed_initial_shape (c : config) (m : mem) :
  wp (seed_initial c)
     (fun r m' =>
        cur_steps m' = cur_steps m /\ out m' = out m /\
        heap m' = heap m /\ rng m' = rng m /\
        current_objective m' = current_objective m /\
        (length (seen m') <= length (seen m) + 1)%nat /\
        (r = Ok tt -> length (seen m') = (length (seen m) + 1)%nat)) m.
Proof.
  unfold seed_initial. wp_go.
  all: cbn [length]; conj_split; try reflexivity; try lia;
    intros Hr; try discriminate Hr; lia.
Qed.

Lemma seed_points_shape (points : list state) (m : mem) :
  wp (seed_points points)
     (fun r m' =>
        cur_steps m' = cur_steps m /\ out m' = out m /\
        heap m' = heap m /\ rng m' = rng m /\
        (length (seen m') <= length (seen m) + length points)%nat /\
        (r = Ok tt ->
         length (seen m') = (length (seen m) + length points)%nat)) m.
Proof.
  revert m. induction points as [|point rest IH]; intros m; cbn [seed_points].
  - apply wp_ret. cbn [length]. conj_split; auto; lia.
  - apply wp_bind. eapply wp_mono; [apply seed_point_shape|].
    intros [[]|e] m1 (S1 & O1 & H1 & G1 & L1 & E1).
    + specialize (E1 eq_refl).
      eapply wp_mono; [apply IH|]. cbn beta.
      intros r m2 (S2 & O2 & H2 & G2 & L2 & E2). cbn [length].
      conj_split; try congruence; try lia.
      intros Hr. specialize (E2 Hr). lia.
    + cbn [length]. conj_split; auto; try lia. discriminate.
Qed.

Lemma sample_loop_shape (c : config) (fuel : nat) (n : Z) (m : mem) :
  (Z.to_nat (n_samples c - n) <= fuel)%nat ->
  wp (sample_loop c fuel n)
     (fun r m' =>
        cur_steps m' = cur_steps m /\ out m' = out m /\
        (length (seen m') <=
         length (seen m) + Z.to_nat (n_samples c - n))%nat /\
        (r = Ok tt ->
         length (seen m') =
         (length (seen m) + Z.to_nat (n_samples c - n))%nat)) m.
Proof.
  revert n m. induction fuel as [|fuel IH]; intros n m Hf; cbn [sample_loop].
  - apply wp_ret. conj_split; auto; lia.
  - destruct (n <? n_samples c) eqn:E;
      [apply Z.ltb_lt in E | apply Z.ltb_ge in E].
    + apply wp_bind. eapply wp_mono; [apply sample_once_shape|].
      intros [[]|e] m1 (S1 & O1 & L1 & E1).
      * specialize (E1 eq_refl).
        eapply wp_mono; [apply (IH (n + 1)); lia|]. cbn beta.
        intros r m2 (S2 & O2 & L2 & E2).
        conj_split; try congruence; try lia.
        intros Hr. specialize (E2 Hr). lia.
      * conj_split; auto; try lia. discriminate.
    + apply wp_ret. conj_split; auto; lia.
Qed.

Lemma seeding_shape_spec (c : config) (m : mem) :
  wp (seeding c) (seeding_shape c m) m.
Proof.
  unfold seeding, seeding_shape, seed_count.
  destruct (0 <? Z.of_nat (length (points_to_evaluate c))) eqn:Ep;
    [apply Z.ltb_lt in Ep | apply Z.ltb_ge in Ep].
  - eapply wp_mono; [apply seed_points_shape|]. cbn beta.
    intros r m' (S1 & O1 & H1 & G1 & L1 & E1).
    conj_split; auto. intros Hl. rewrite Hl in Ep. cbn in Ep. lia.
  - destruct (1 <? n_samples c) eqn:En;
      [apply Z.ltb_lt in En | apply Z.ltb_ge in En].
    + eapply wp_mono; [apply sample_loop_shape; lia|]. cbn beta.
      rewrite Z.sub_0_r.
      intros r m' (S1 & O1 & L1 & E1).
      conj_split; auto; lia.
    + eapply wp_mono; [apply seed_initial_shape|]. cbn beta.
      intros r m' (S1 & O1 & H1 & G1 & C1 & L1 & E1).
      conj_split; auto.
Qed.

(** X9. The seeding evaluates the objective once per seed point, or once per
    sample, or once for the initial state: on a return the record has
    grown by exactly [seed_count], and an exception leaves it shorter.
    No step is counted and nothing printed; and unless the seeding samples,
    the store and the random source are left alone. *)
Theorem seeding_evaluates_each_seed_once (c : config) (m : mem) :
  cur_steps (snd (seeding c m)) = cur_steps m /\
  out (snd (seeding c m)) = out m /\
  (length (seen (snd (seeding c m))) <= length (seen m) + seed_count c)%nat /\
  (fst (seeding c m) = Ok tt ->
   length (seen (snd (seeding c m))) = (length (seen m) + seed_count c)%nat) /\
  (0 < Z.of_nat (length (points_to_evaluate c)) \/ n_samples c <= 1 ->
   heap (snd (seeding c m)) = heap m /\ rng (snd (seeding c m)) = rng m).
Proof.
  pose proof (seeding_shape_spec c m) as (H1 & H2 & H3 & H4 & H5 & _).
  auto.
Qed.

(** *** The climbing *)

Lemma accept_full (c : config) (n : state) (m : mem) :
  wp (_accept_neighbor c n)
     (fun r m' =>
        accept_post c n m r m' /\
        (length (seen m') <= length (seen m) + 2)%nat) m.
Proof.
  apply wp_conj; [apply accept_spec|].
  eapply wp_mono; [apply accept_effects|]. cbn beta. tauto.
Qed.

Ltac wp_call_full :=
  lazymatch goal with
  | |- wp (_accept_neighbor _ _) _ _ =>
      eapply wp_mono; [apply accept_full |]; cbn beta; intros ? ? [? ?]
  | |- wp update_best _ _ =>
      eapply wp_mono; [apply update_best_spec |]; cbn beta; intros ? ? ?
  | |- wp (check_target _) _ _ =>
      eapply wp_mono; [apply check_target_spec |]; cbn beta; intros ? ? ?
  end.

Ltac wp_run_full :=
  repeat (first [wp_step | wp_call_full]; cbn beta iota; mem_simpl).

Lemma climb_step_shape (c : config) (verbose : bool) (i : Z) (m : mem) :
  wp (climb_step c verbose i) (step_shape verbose i m) m.
Proof.
  unfold climb_step. wp_run_full.
  all: post_split; unfold step_shape; mem_simpl.
  all: repeat match goal with
         | H : seen _ = _ |- _ => rewrite H in *
         | H : out _ = _ |- _ => rewrite H in *
         | H : cur_steps _ = _ |- _ => rewrite H in *
         | H : current_objective _ = _ |- _ => rewrite H in *
         | H : ?b = true |- context [?b] => rewrite H
         | H : ?b = false |- context [?b] => rewrite H
         end.
  all: cbn [length app] in *; conj_split;
    try reflexivity; try lia; try (intros Hr; try discriminate Hr; lia).
Qed.

Lemma progress_steps_app (a b : list event) :
  progress_steps (a ++ b) = progress_steps a ++ progress_steps b.
Proof.
  induction a as [|[n bo bs| |] a IH]; cbn; rewrite ?IH; reflexivity.
Qed.

Lemma reports_at_succ (verbose : bool) (n : Z) :
  0 <= n ->
  reports_at verbose (n + 1) =
  (if ((n + 1) mod 100 =? 0) && verbose then [n + 1] else [])
  ++ reports_at verbose n.
Proof.
  intros Hn. unfold reports_at.
  destruct verbose; [|rewrite andb_false_r; reflexivity].
  rewrite andb_true_r.
  replace (Z.to_nat (n + 1)) with (S (Z.to_nat n)) by lia.
  cbn [hundreds]. replace (Z.of_nat (S (Z.to_nat n))) with (n + 1) by lia.
  destruct (_ =? 0); reflexivity.
Qed.

Lemma step_reports (verbose : bool) (i : Z) (m : mem)
    (r : result (option (state * option float))) (m1 : mem) :
  step_shape verbose i m r m1 -> best_known m ->
  exists reports,
    printed (match r with
             | Ok (Some _) => [ReachedMaximumObjective]
             | _ => []
             end) reports m m1.
Proof.
  intros (_ & _ & _ & O1) (b & Hb & _). eexists. split; [exact O1|].
  destruct (_ && _); constructor; [|constructor].
  rewrite Hb. exact I.
Qed.

Lemma step_progress (verbose : bool) (i : Z) (m : mem)
    (r : result (option (state * option float))) (m1 : mem) :
  step_shape verbose i m r m1 -> cur_steps m = i -> 0 <= i ->
  progress_steps (out m) = reports_at verbose (cur_steps m) ->
  progress_steps (out m1) = reports_at verbose (cur_steps m1).
Proof.
  intros (S1 & _ & _ & O1) Hi H0 Hp.
  rewrite O1, S1, !progress_steps_app, Hp, reports_at_succ by lia.
  rewrite Hi.
  replace (progress_steps
             match r with
             | Ok (Some _) => [ReachedMaximumObjective]
             | _ => []
             end) with (@nil Z) by (destruct r as [[?|]|?]; reflexivity).
  destruct (_ && _); reflexivity.
Qed.

Lemma climb_shape_spec (c : config) (verbose : bool) (k : nat) (i : Z)
    (m : mem) :
  wp (climb c verbose k i) (climb_shape verbose k i m) m.
Proof.
  revert i m. induction k as [|k IH]; intros i m; cbn [climb].
  - apply wp_ret. unfold climb_shape. conj_split; try lia; auto.
    intros _. exists []. split; [reflexivity | constructor].
  - apply wp_bind.
    eapply wp_mono;
      [apply wp_conj; [apply climb_step_spec | apply climb_step_shape]|].
    cbn beta. intros r m1 [(_ & B1 & _) H1].
    pose proof (step_reports _ _ _ _ _ H1) as P1.
    pose proof (step_progress _ _ _ _ _ H1) as R1.
    destruct H1 as (S1 & C1 & L1 & _).
    destruct r as [[v|]|e].
    + apply wp_ret. unfold climb_shape. conj_split; auto; try lia.
    + eapply wp_mono; [apply IH|]. cbn beta.
      intros r m2 (A2 & C2 & L2 & P2 & R2).
      unfold climb_shape. conj_split; try congruence; try lia.
      * intros Hk. destruct (P1 Hk) as (rep1 & O1 & F1).
        destruct (P2 (B1 Hk)) as (rep2 & O2 & F2).
        exists (rep2 ++ rep1). split.
        -- rewrite O2, O1. cbn [app]. rewrite <- !app_assoc. reflexivity.
        -- apply Forall_app. split; assumption.
      * intros Hi H0 Hp. apply R2; [lia | lia |]. apply R1; assumption.
    + unfold climb_shape. conj_split; auto; try lia.
Qed.

Lemma reports_nil (l : list event) :
  Forall is_report l -> progress_steps l = [] -> l = [].
Proof.
  destruct 1 as [|[n [b|] bs| |] l H _]; cbn in *;
    try contradiction; [reflexivity | discriminate].
Qed.

Lemma run_shape_spec (c : config) (verbose : bool) (h : gmap loc Val)
    (g : Rng) :
  wp (run c verbose) (run_shape c verbose) (fresh_mem h g).
Proof.
  unfold run, _clear. wp_go.
  eapply wp_mono;
    [apply wp_conj; [apply seeding_spec | apply seeding_shape_spec]|].
  cbn beta. intros r1 m1 [(_ & _ & K1) (S1 & O1 & L1 & _ & _ & C1)].
  mem_simpl. cbn [fresh_mem seen out length] in *.
  assert (best_known m1) as B1.
  { apply K1. exists neg_inf. auto. }
  clear K1.
  destruct r1 as [[]|e]; cycle 1.
  { unfold run_shape. rewrite S1, O1. conj_split; try lia; auto.
    - exists [], []. repeat split. constructor.
    - destruct verbose; reflexivity. }
  apply wp_bind. eapply wp_mono; [apply climb_shape_spec|]. cbn beta.
  intros r2 m2 (A2 & C2 & L2 & P2 & R2).
  destruct (P2 B1) as (reports & O2 & F2). clear P2.
  rewrite O1, app_nil_r in O2. rewrite S1 in *.
  assert (progress_steps (out m2) = reports_at verbose (cur_steps m2)) as R2'.
  { apply R2; [reflexivity | lia |]. rewrite O1. destruct verbose; reflexivity. }
  clear R2.
  destruct r2 as [[[bs bo]|]|e].
  - apply wp_ret. unfold run_shape. conj_split; try lia; auto.
    + intros Hp Hn. rewrite C2. auto.
    + exists [ReachedMaximumObjective], reports. auto.
  - wp_go. unfold run_shape. mem_simpl. conj_split; try lia; auto.
    + intros Hp Hn. rewrite C2. auto.
    + exists [ReachedMaximumSteps], reports. rewrite O2. auto.
  - unfold run_shape. conj_split; try lia; auto.
    + intros Hp Hn. rewrite C2. auto.
    + exists [], reports. auto.
Qed.

Lemma hundreds_spec (k : nat) (n : Z) :
  In n (hundreds k) <-> 1 <= n <= Z.of_nat k /\ n mod 100 = 0.
Proof.
  induction k as [|k IH].
  - cbn. lia.
  - cbn [hundreds].
    destruct (Z.of_nat (S k) mod 100 =? 0) eqn:E;
      [apply Z.eqb_eq in E | apply Z.eqb_neq in E]; cbn [In];
      rewrite IH; split.
    + intros [<- | H]; lia.
    + intros [H1 H2].
      destruct (Z.eq_dec n (Z.of_nat (S k))); [left; congruence | right; lia].
    + lia.
    + intros [H1 H2].
      destruct (Z.eq_dec n (Z.of_nat (S k))); [congruence | lia].
Qed.

Lemma hundreds_NoDup (k : nat) : List.NoDup (hundreds k).
Proof.
  induction k as [|k IH]; [constructor|]. cbn [hundreds].
  destruct (_ =? 0); [|exact IH].
  constructor; [|exact IH]. rewrite hundreds_spec. lia.
Qed.

(** X13. With [verbose] unset a run still prints: the one line of its
    termination when it returns, and nothing when it raises. *)
Theorem quiet_run_prints_its_end (c : config) (h : gmap loc Val) (g : Rng) :
  match fst (run c false (fresh_mem h g)) with
  | Ok _ =>
      out (snd (run c false (fresh_mem h g))) = [ReachedMaximumObjective] \/
      out (snd (run c false (fresh_mem h g))) = [ReachedMaximumSteps]
  | Raise _ => out (snd (run c false (fresh_mem h g))) = []
  end.
Proof.
  pose proof (run_shape_spec c false h g) as H. unfold wp in H.
  destruct H as (_ & _ & _ & (final & reports & O & F & T) & P).
  rewrite O, progress_steps_app in P. cbn [reports_at] in P.
  apply app_eq_nil in P. destruct P as [_ P].
  apply (reports_nil _ F) in P. subst reports. rewrite app_nil_r in O.
  destruct (fst (run c false (fresh_mem h g)));
    [destruct T as [-> | ->]; auto | congruence].
Qed.

(** X14. The progress reports of a run are those of the steps 100, 200, ...
    up to the last step made, each printed once, and only when [verbose]
    is set. *)
Theorem progress_is_reported_at_hundreds (c : config) (verbose : bool)
    (h : gmap loc Val) (g : Rng) :
  (forall n,
      In n (progress_steps (out (snd (run c verbose (fresh_mem h g))))) <->
      verbose = true /\
      1 <= n <= cur_steps (snd (run c verbose (fresh_mem h g))) /\
      n mod 100 = 0) /\
  List.NoDup (progress_steps (out (snd (run c verbose (fresh_mem h g))))).
Proof.
  pose proof (run_shape_spec c verbose h g) as H. unfold wp in H.
  destruct H as (S & _ & _ & _ & P). rewrite P. unfold reports_at.
  destruct verbose.
  - split; [|apply hundreds_NoDup].
    intros n. rewrite hundreds_spec. split; [intros [? ?] | intros (_ & ? & ?)].
    + split; [reflexivity|]. lia.
    + lia.
  - split; [|constructor]. intros n. cbn. split; [tauto|].
    intros [? _]. discriminate.
Qed.

(** X15. Whatever the outcome of a run, it has counted at most
    [max(0, max_steps - n_samples - len(points_to_evaluate))] steps and
    evaluated the objective, with a value, at most once per seed and four
    times per step. *)
Theorem run_cost_is_bounded (c : config) (verbose : bool)
    (h : gmap loc Val) (g : Rng) :
  0 <= cur_steps (snd (run c verbose (fresh_mem h g))) <= Z.max 0 (budget c) /\
  (length (seen (snd (run c verbose (fresh_mem h g)))) <=
   seed_count c
   + 4 * Z.to_nat (cur_steps (snd (run c verbose (fresh_mem h g)))))%nat.
Proof.
  pose proof (run_shape_spec c verbose h g) as H. unfold wp in H.
  destruct H as (S & L & _). split; assumption.
Qed.

(** X16. The climbing loop never assigns [current_objective]: it is after the
    loop what it was before, and on the default path of the seeding, which
    does not assign it either, it is minus infinity after the run
    whatever was evaluated. *)
Theorem climbing_leaves_current_objective (c : config) (verbose : bool) :
  (forall (k : nat) (i : Z) (m : mem),
      current_objective (snd (climb c verbose k i m)) = current_objective m) /\
  (forall (h : gmap loc Val) (g : Rng),
      length (points_to_evaluate c) = O -> n_samples c <= 1 ->
      current_objective (snd (run c verbose (fresh_mem h g)))
      = Some neg_inf).
Proof.
  split.
  - intros k i m. pose proof (climb_shape_spec c verbose k i m) as H.
    unfold wp in H. destruct H as (_ & H & _). exact H.
  - intros h g Hp Hn. pose proof (run_shape_spec c verbose h g) as H.
    unfold wp in H. destruct H as (_ & _ & H & _). auto.
Qed.

(** X2. [__str__] needs a float for [%f], and in a run it has one: every
    progress report of a run holds a best objective that can be
    formatted, and after the run, whatever its outcome, [__str__] and
    [__repr__] return the same text and change nothing. *)
Theorem text_of_a_climber_in_a_run (show : option Val -> string)
    (c : config) (verbose : bool) (h : gmap loc Val) (g : Rng) :
  (forall n bo bs text,
      In (Progress n bo bs) (out (snd (run c verbose (fresh_mem h g)))) ->
      exists s, climber_text n bo text = Ok s) /\
  (exists s,
      __str__ show (snd (run c verbose (fresh_mem h g)))
      = (Ok s, snd (run c verbose (fresh_mem h g))) /\
      __repr__ show (snd (run c verbose (fresh_mem h g)))
      = (Ok s, snd (run c verbose (fresh_mem h g)))).
Proof.
  pose proof (run_shape_spec c verbose h g) as H. unfold wp in H.
  destruct H as (_ & _ & _ & (final & reports & O & F & T) & _).
  pose proof (run_spec c verbose h g) as K. unfold wp in K.
  destruct K as ((b & Hb & _) & _).
  split.
  - intros n bo bs text Hin. rewrite O in Hin.
    apply in_app_or in Hin. destruct Hin as [Hin | Hin].
    + destruct (fst (run c verbose (fresh_mem h g)));
        [destruct T as [-> | ->] | subst final];
        cbn in Hin; intuition discriminate.
    + rewrite List.Forall_forall in F. specialize (F _ Hin). cbn in F.
      destruct bo as [x|]; [|contradiction]. cbn. eauto.
  - unfold __repr__, __str__. rewrite Hb. cbn. eauto.
Qed.

(** ** The best state holds the best objective *)

Lemma alive_mono (h h' : gmap loc Val) (s : state) :
  h ⊆ h' -> alive h s -> alive h' s.
Proof.
  destruct s as [l|]; cbn; [|auto].
  intros Hs [v Hv]. exists v. eapply lookup_weaken; eassumption.
Qed.

Lemma content_mono (h h' : gmap loc Val) (s : state) :
  h ⊆ h' -> alive h s -> content h' s = content h s.
Proof.
  destruct s as [l|]; cbn; [|reflexivity].
  intros Hs [v Hv]. rewrite Hv. eapply lookup_weaken; eassumption.
Qed.

Lemma copy_in_grows (h : gmap loc Val) (s : state) :
  h ⊆ snd (copy_in h s).
Proof.
  destruct s as [l|]; cbn; [|reflexivity].
  destruct (h !! l); [|reflexivity].
  apply insert_subseteq, not_elem_of_dom, is_fresh.
Qed.

Lemma copy_in_alive (h : gmap loc Val) (s : state) :
  alive h s -> alive (snd (copy_in h s)) (fst (copy_in h s)).
Proof.
  destruct s as [l|]; cbn; [|auto].
  intros [v Hv]. rewrite Hv, lookup_insert_eq. eauto.
Qed.

Lemma best_sound_mono (m m' : mem) :
  heap m ⊆ heap m' -> alive (heap m) (best_state m) ->
  best_state m' = best_state m -> best_objective m' = best_objective m ->
  best_sound m -> best_sound m'.
Proof.
  intros Hs Ha Eb Eo [H | (b & Hb & Ho)]; [left; congruence|].
  right. exists b. split; [congruence|].
  rewrite Eb, (content_mono _ _ _ Hs Ha). exact Ho.
Qed.

Lemma seed_point_sound (h0 : gmap loc Val) (point : state) (m : mem) :
  sound h0 m -> alive (heap m) point ->
  wp (seed_point point)
     (fun r m' => match r with Ok _ => sound h0 m' | Raise _ => True end) m.
Proof.
  intros (Hs & Hc & Hb & Hbs) Hp. unfold seed_point. wp_go.
  all: try exact I.
  all: unfold sound, best_sound in *; mem_simpl; conj_split; auto.
  right. eauto.
Qed.

Lemma sample_once_sound (h0 : gmap loc Val) (m : mem) :
  builds_new_states -> sound h0 m ->
  wp sample_once
     (fun r m' => match r with Ok _ => sound h0 m' | Raise _ => True end) m.
Proof.
  intros [_ Hr] (Hs & Hc & Hb & Hbs). unfold sample_once. wp_go.
  all: try exact I.
  all: match goal with
       | H : model_random _ _ = _ |- _ => destruct (Hr _ _ _ _ _ H) as [Hsub Hal]
       end.
  all: unfold sound; mem_simpl; conj_split; auto.
  all: try (etransitivity; eassumption).
  all: try (eapply alive_mono; eassumption).
  - right. eauto.
  - eapply (best_sound_mono m); mem_simpl; auto.
Qed.

Lemma seed_initial_sound (h0 : gmap loc Val) (c : config) (m : mem) :
  sound h0 m -> alive (heap m) (initial_state c) -> best_state m = None ->
  wp (seed_initial c)
     (fun r m' => match r with Ok _ => sound h0 m' | Raise _ => True end) m.
Proof.
  intros (Hs & Hc & Hb & Hbs) Hp Hn. unfold seed_initial. wp_go.
  all: try exact I.
  all: unfold sound, best_sound in *; mem_simpl; conj_split; auto.
Qed.

Lemma seed_points_sound (h0 : gmap loc Val) (points : list state)
    (m : mem) :
  sound h0 m -> Forall (alive h0) points ->
  wp (seed_points points)
     (fun r m' => match r with Ok _ => sound h0 m' | Raise _ => True end) m.
Proof.
  intros Hm Hp. revert m Hm.
  induction Hp as [|point rest Hpoint _ IH]; intros m Hm; cbn [seed_points].
  - apply wp_ret. exact Hm.
  - apply wp_bind. eapply wp_mono.
    + apply (seed_point_sound h0); [exact Hm|].
      eapply alive_mono; [apply Hm | exact Hpoint].
    + cbn beta. intros [[]|e] m1 H1; [apply IH; exact H1 | exact I].
Qed.

Lemma sample_loop_sound (h0 : gmap loc Val) (c : config) (fuel : nat)
    (n : Z) (m : mem) :
  builds_new_states -> sound h0 m ->
  wp (sample_loop c fuel n)
     (fun r m' => match r with Ok _ => sound h0 m' | Raise _ => True end) m.
Proof.
  intros Hb. revert n m.
  induction fuel as [|fuel IH]; intros n m Hm; cbn [sample_loop].
  - apply wp_ret. exact Hm.
  - destruct (n <? n_samples c); [|apply wp_ret; exact Hm].
    apply wp_bind. eapply wp_mono; [apply (sample_once_sound h0); assumption|].
    cbn beta. intros [[]|e] m1 H1; [apply IH; exact H1 | exact I].
Qed.

Lemma seeding_sound (h0 : gmap loc Val) (c : config) (m : mem) :
  builds_new_states -> sound h0 m -> best_state m = None ->
  alive h0 (initial_state c) -> Forall (alive h0) (points_to_evaluate c) ->
  wp (seeding c)
     (fun r m' => match r with Ok _ => sound h0 m' | Raise _ => True end) m.
Proof.
  intros Hb Hm Hn Hi Hp. unfold seeding.
  destruct (0 <? _); [apply seed_points_sound; assumption|].
  destruct (1 <? _); [apply sample_loop_sound; assumption|].
  apply seed_initial_sound; auto.
  eapply alive_mono; [apply Hm | exact Hi].
Qed.

Lemma climb_step_sound (h0 : gmap loc Val) (c : config) (verbose : bool)
    (i : Z) (m : mem) :
  builds_new_states -> sound h0 m ->
  wp (climb_step c verbose i)
     (fun r m' => match r with Ok _ => sound h0 m' | Raise _ => True end) m.
Proof.
  intros [Hn _] (Hs & Hc & Hb & Hbs). unfold climb_step. wp_run.
  all: post_split; try exact I.
  all: match goal with
       | H : model_neighbor _ _ _ = _ |- _ => destruct (Hn _ _ _ _ _ _ H) as [Hsub Hal]
       end.
  all: unfold sound, best_sound in *; mem_simpl.
  all: repeat match goal with
         | H : heap _ = _ |- _ => rewrite H in *
         | H : best_state _ = _ |- _ => rewrite H in *
         | H : best_objective _ = _ |- _ => rewrite H in *
         | H : current_state _ = _ |- _ => rewrite H in *
         end.
  all: assert (h0 ⊆ h) as Hs' by (etransitivity; eassumption).
  all: pose proof (alive_mono _ _ _ Hsub Hc) as Hc'.
  all: pose proof (alive_mono _ _ _ Hsub Hb) as Hb'.
  all: conj_split.
  all: try assumption.
  all: try (etransitivity; [exact Hs' | apply copy_in_grows]).
  all: try (eapply alive_mono; [apply copy_in_grows | assumption]).
  all: try (apply copy_in_alive; assumption).
  all: try (right; eexists; split; [reflexivity|];
            rewrite copy_in_content_copy; assumption).
  all: try (destruct Hbs as [Hbn | (b & Hbo & Hob)];
            [ left; exact Hbn
            | right; exists b; split; [exact Hbo|];
              rewrite (content_mono _ _ _ Hsub Hb); exact Hob ]).
Qed.

Lemma climb_sound (h0 : gmap loc Val) (c : config) (verbose : bool)
    (k : nat) (i : Z) (m : mem) :
  builds_new_states -> sound h0 m ->
  wp (climb c verbose k i)
     (fun r m' => match r with Ok _ => sound h0 m' | Raise _ => True end) m.
Proof.
  intros Hb. revert i m.
  induction k as [|k IH]; intros i m Hm; cbn [climb].
  - apply wp_ret. exact Hm.
  - apply wp_bind. eapply wp_mono; [apply (climb_step_sound h0); assumption|].
    cbn beta. intros [[v|]|e] m1 H1;
      [apply wp_ret; exact H1 | apply IH; exact H1 | exact I].
Qed.

Lemma run_sound (c : config) (verbose : bool) (h : gmap loc Val) (g : Rng) :
  builds_new_states ->
  alive h (initial_state c) -> Forall (alive h) (points_to_evaluate c) ->
  wp (run c verbose)
     (fun r m' => match r with Ok _ => sound h m' | Raise _ => True end)
     (fresh_mem h g).
Proof.
  intros Hb Hi Hp. unfold run, _clear. wp_go.
  eapply wp_mono.
  - apply (seeding_sound h); auto.
    + unfold sound, best_sound. mem_simpl. cbn [fresh_mem heap].
      conj_split; auto. exact I. exact I.
  - cbn beta. intros [[]|e] m1 H1; [|exact I].
    apply wp_bind. eapply wp_mono; [apply (climb_sound h); assumption|].
    cbn beta. intros [[v|]|e] m2 H2; [apply wp_ret; exact H2 | | exact I].
    wp_go. exact H2.
Qed.

(** X11. With a Problem Model that builds new states and leaves the objects
    of the store alone, and a configuration whose states are in the
    store, the pair that a run returns is consistent: the best state is
    [None] (nothing improved on the default path, or no seed was above
    minus infinity) or it is a state of the store whose objective is the
    best objective returned; and the run has changed no object of the
    store it was given. *)
Theorem returned_best_state_has_best_objective (c : config)
    (verbose : bool) (h : gmap loc Val) (g : Rng) (bs : state)
    (bo : option float) :
  builds_new_states ->
  alive h (initial_state c) -> Forall (alive h) (points_to_evaluate c) ->
  fst (run c verbose (fresh_mem h g)) = Ok (bs, bo) ->
  (bs = None \/
   exists b, bo = Some b /\
             model_objective
               (content (heap (snd (run c verbose (fresh_mem h g)))) bs)
             = Ok b) /\
  alive (heap (snd (run c verbose (fresh_mem h g)))) bs /\
  h ⊆ heap (snd (run c verbose (fresh_mem h g))).
Proof.
  intros Hb Hi Hp Hr.
  pose proof (run_sound c verbose h g Hb Hi Hp) as H.
  pose proof (run_spec c verbose h g) as K.
  unfold wp in H, K. rewrite Hr in H, K.
  destruct K as (_ & _ & -> & -> & _).
  destruct H as (Hs & _ & Ha & Hbs). auto.
Qed.

(** ** A best objective that is not a number *)

Lemma gt_nan_r (x : float) : gt x S754_nan = false.
Proof. destruct x as [?|?| |? ? ?]; reflexivity. Qed.

Lemma gt_nan_l (x : float) : gt S754_nan x = false.
Proof. destruct x as [?|?| |? ? ?]; reflexivity. Qed.

Lemma climb_step_nan (c : config) (verbose : bool) (i : Z) (m : mem) :
  best_objective m = Some S754_nan -> best_state m = None ->
  wp (climb_step c verbose i)
     (fun r m' =>
        best_objective m' = Some S754_nan /\ best_state m' = None /\
        forall v, r <> Ok (Some v)) m.
Proof.
  intros Hb Hs. unfold climb_step. wp_run.
  all: post_split.
  all: repeat match goal with
         | H : best_objective _ = _ |- _ => rewrite H in *
         | H : best_state _ = _ |- _ => rewrite H in *
         end.
  all: cbn [or_zero truthy] in *.
  all: try match goal with
           | H : gt _ S754_nan = true |- _ =>
               rewrite gt_nan_r in H; discriminate H
           | H : gt S754_nan _ = true |- _ =>
               rewrite gt_nan_l in H; discriminate H
           end.
  all: conj_split; auto; try discriminate.
Qed.

Lemma climb_nan (c : config) (verbose : bool) (k : nat) (i : Z) (m : mem) :
  best_objective m = Some S754_nan -> best_state m = None ->
  wp (climb c verbose k i)
     (fun r m' =>
        best_objective m' = Some S754_nan /\ best_state m' = None /\
        forall v, r <> Ok (Some v)) m.
Proof.
  revert i m. induction k as [|k IH]; intros i m Hb Hs; cbn [climb].
  - apply wp_ret. conj_split; auto; discriminate.
  - apply wp_bind. eapply wp_mono; [apply climb_step_nan; assumption|].
    cbn beta. intros [[v|]|e] m1 (B1 & S1 & N1).
    + exfalso. exact (N1 v eq_refl).
    + apply IH; assumption.
    + conj_split; auto; discriminate.
Qed.

(** X12. On the default path a NaN objective of the initial state becomes the
    best objective and stays: no state is ever recorded as the best, the
    target is never reported, and a run that returns returns
    [(None, nan)] after the whole budget. *)
Theorem nan_at_the_start_is_never_improved (c : config) (verbose : bool)
    (h : gmap loc Val) (g : Rng) :
  length (points_to_evaluate c) = O -> n_samples c <= 1 ->
  model_objective (content h (initial_state c)) = Ok S754_nan ->
  best_objective (snd (run c verbose (fresh_mem h g))) = Some S754_nan /\
  best_state (snd (run c verbose (fresh_mem h g))) = None /\
  (forall v,
      fst (run c verbose (fresh_mem h g)) = Ok v ->
      v = (None, Some S754_nan) /\
      budget_exhausted (snd (run c verbose (fresh_mem h g)))).
Proof.
  intros Hp Hn Ho.
  enough (wp (run c verbose)
            (fun r m' =>
               best_objective m' = Some S754_nan /\ best_state m' = None /\
               forall v, r = Ok v ->
                         v = (None, Some S754_nan) /\ budget_exhausted m')
            (fresh_mem h g)) as H by exact H.
  unfold run, _clear, seeding. rewrite Hp. cbn [length Z.of_nat Z.ltb Z.compare].
  replace (1 <? n_samples c) with false by (symmetry; apply Z.ltb_ge; lia).
  unfold seed_initial. wp_go; cbn [fresh_mem heap] in *.
  - match goal with
    | H : (_ <? _) = true |- _ => cbn in H; discriminate H
    end.
  - assert (o = S754_nan) as -> by congruence.
    eapply wp_mono; [apply climb_nan; reflexivity|]. cbn beta.
    intros [[v|]|e] m2 (B2 & S2 & N2).
    + exfalso. exact (N2 v eq_refl).
    + wp_go. unfold budget_exhausted. mem_simpl. conj_split; auto.
      intros v [= <-]. rewrite B2, S2. auto.
    + conj_split; auto; discriminate.
  - congruence.
Qed.

(** ** A run on a climber that has run before *)

Lemma oblivious_ret {A : Type} (a : A) : oblivious (ret a).
Proof. intros o s k m. reflexivity. Qed.

Lemma oblivious_raise {A : Type} (e : exn) : oblivious (raise (A := A) e).
Proof. intros o s k m. reflexivity. Qed.

Lemma oblivious_bind {A B : Type} (c : M A) (f : A -> M B) :
  oblivious c -> (forall a, oblivious (f a)) -> oblivious (bind c f).
Proof.
  intros Hc Hf o s k m. unfold bind. rewrite Hc.
  destruct (c m) as [[a|e] m1]; cbn [fst snd]; [apply Hf | reflexivity].
Qed.

Lemma oblivious_gets {A : Type} (f : mem -> A) :
  (forall o s k m, f (graft o s k m) = f m) -> oblivious (gets f).
Proof. intros H o s k m. unfold gets. rewrite H. reflexivity. Qed.

Lemma oblivious_modify (f : mem -> mem) :
  (forall o s k m, f (graft o s k m) = graft o s k (f m)) ->
  oblivious (modify f).
Proof. intros H o s k m. unfold modify. rewrite H. reflexivity. Qed.

Lemma oblivious_except {A : Type} (c : M A) :
  oblivious c -> oblivious (except_overflow c).
Proof.
  intros Hc o s k m. unfold except_overflow. rewrite Hc.
  destruct (c m) as [[a|[]] m1]; reflexivity.
Qed.

Lemma oblivious_objective (st : state) : oblivious (_objective st).
Proof.
  intros o s k m. unfold _objective. cbn [graft heap].
  destruct (model_objective _); reflexivity.
Qed.

Lemma oblivious_neighbor : oblivious _neighbor.
Proof.
  intros o s k m. unfold _neighbor. cbn [graft heap rng current_state].
  destruct (model_neighbor _ _ _) as [[r h] g]. reflexivity.
Qed.

Lemma oblivious_random : oblivious _random.
Proof.
  intros o s k m. unfold _random. cbn [graft heap rng].
  destruct (model_random _ _) as [[r h] g]. reflexivity.
Qed.

Lemma oblivious_draw : oblivious draw.
Proof.
  intros o s k m. unfold draw. cbn [graft heap rng].
  destruct (random _) as [x g]. reflexivity.
Qed.

Lemma oblivious_deepcopy (st : state) : oblivious (deepcopy st).
Proof.
  intros o s k m. unfold deepcopy. cbn [graft heap rng].
  destruct (copy_in _ _) as [s' h']. reflexivity.
Qed.

Lemma oblivious_math_exp (x : float) : oblivious (math_exp x).
Proof. intros o s k m. reflexivity. Qed.

Lemma oblivious_truediv (x t : float) : oblivious (truediv x t).
Proof.
  unfold truediv. destruct (truthy t);
    [apply oblivious_ret | apply oblivious_raise].
Qed.

Lemma oblivious_gt_attr (a b : option float) : oblivious (gt_attr a b).
Proof.
  unfold gt_attr. destruct a, b;
    first [apply oblivious_ret | apply oblivious_raise].
Qed.

(** One step through a computation of the class. *)
Ltac oblivious_step :=
  lazymatch goal with
  | |- oblivious (bind _ _) => apply oblivious_bind; [|intros ?]
  | |- oblivious (ret _) => apply oblivious_ret
  | |- oblivious (raise _) => apply oblivious_raise
  | |- oblivious (gets _) => apply oblivious_gets; reflexivity
  | |- oblivious (modify _) => apply oblivious_modify; reflexivity
  | |- oblivious (print _) => apply oblivious_modify; reflexivity
  | |- oblivious (except_overflow _) => apply oblivious_except
  | |- oblivious (_objective _) => apply oblivious_objective
  | |- oblivious _neighbor => apply oblivious_neighbor
  | |- oblivious _random => apply oblivious_random
  | |- oblivious draw => apply oblivious_draw
  | |- oblivious (deepcopy _) => apply oblivious_deepcopy
  | |- oblivious (math_exp _) => apply oblivious_math_exp
  | |- oblivious (truediv _ _) => apply oblivious_truediv
  | |- oblivious (gt_attr _ _) => apply oblivious_gt_attr
  | |- oblivious (if ?b then _ else _) => destruct b
  | |- oblivious (match ?x with Some _ => _ | None => _ end) => destruct x
  end.

Lemma oblivious_accept (c : config) (n : state) :
  oblivious (_accept_neighbor c n).
Proof. unfold _accept_neighbor. repeat oblivious_step. Qed.

Lemma oblivious_seed_point (point : state) : oblivious (seed_point point).
Proof. unfold seed_point. repeat oblivious_step. Qed.

Lemma oblivious_sample_once : oblivious sample_once.
Proof. unfold sample_once. repeat oblivious_step. Qed.

Lemma oblivious_seeding (c : config) : oblivious (seeding c).
Proof.
  unfold seeding. destruct (0 <? _).
  - induction (points_to_evaluate c) as [|point rest IH]; cbn [seed_points].
    + apply oblivious_ret.
    + apply oblivious_bind; [apply oblivious_seed_point | intros _; exact IH].
  - destruct (1 <? _).
    + generalize 0. induction (Z.to_nat (n_samples c)) as [|fuel IH];
        intros n; cbn [sample_loop].
      * apply oblivious_ret.
      * destruct (n <? n_samples c); [|apply oblivious_ret].
        apply oblivious_bind; [apply oblivious_sample_once | intros _; apply IH].
    + unfold seed_initial. repeat oblivious_step.
Qed.

Lemma oblivious_climb_step (c : config) (verbose : bool) (i : Z) :
  oblivious (climb_step c verbose i).
Proof.
  unfold climb_step, update_best, check_target.
  repeat first [oblivious_step | apply oblivious_accept].
Qed.

Lemma oblivious_climb (c : config) (verbose : bool) (k : nat) (i : Z) :
  oblivious (climb c verbose k i).
Proof.
  revert i. induction k as [|k IH]; intros i; cbn [climb].
  - apply oblivious_ret.
  - apply oblivious_bind; [apply oblivious_climb_step|].
    intros [v|]; [apply oblivious_ret | apply IH].
Qed.

Lemma oblivious_run (c : config) (verbose : bool) :
  oblivious (run c verbose).
Proof.
  unfold run, _clear.
  repeat first [ apply oblivious_seeding | apply oblivious_climb
               | oblivious_step ].
Qed.

(** X3. [run] begins by [_clear] and by resetting [current_objective], and
    nothing in it reads what was printed before: on a climber that has
    run before, with whatever it left in the five per-run attributes, a
    run returns or raises what it does on a new climber with the same
    store and random source, and leaves the same attributes, store and
    random source; what it prints goes on top of what was printed. *)
Theorem run_on_a_used_climber (c : config) (verbose : bool) (m : mem) :
  fst (run c verbose m)
  = fst (run c verbose (fresh_mem (heap m) (rng m))) /\
  snd (run c verbose m)
  = graft (out m) (seen m) (marks m)
          (snd (run c verbose (fresh_mem (heap m) (rng m)))) /\
  out (snd (run c verbose m))
  = out (snd (run c verbose (fresh_mem (heap m) (rng m)))) ++ out m.
Proof.
  assert (run c verbose m
          = run c verbose
              (graft (out m) (seen m) (marks m)
                 (fresh_mem (heap m) (rng m)))) as E by reflexivity.
  rewrite (oblivious_run c verbose) in E. rewrite E. cbn [fst snd].
  split; [reflexivity|]. split; reflexivity.
Qed.

End EngineFacts.

(** ** The constructor *)

(** C5 (as the code has it). [__init__] succeeds only when max steps is a
    positive int, max objective is absent or numeric and the temperature is
    numeric, and then stores the initial state, the sample count and the
    seed points as given, max steps, and the floats of max objective and
    temperature, whatever the sign of the temperature. It raises
    [ValueError] only when max steps is not a positive int, max objective is
    present and not numeric, or the temperature is not numeric. Its only
    other exception is the [OverflowError] of an int too large for a
    float. *)
Theorem init_outcome (s0 : state) (temp_ max_steps_ max_objective_ : pyval)
    (n_samples_ : Z) (points_ : list state) :
  match __init__ s0 temp_ max_steps_ max_objective_ n_samples_ points_ with
  | Ok c =>
      isinstance_int max_steps_ = true /\ 0 < int_value max_steps_ /\
      isinstance_float_int temp_ = true /\
      initial_state c = s0 /\ n_samples c = n_samples_ /\
      points_to_evaluate c = points_ /\
      max_steps c = int_value max_steps_ /\
      py_float temp_ = Ok (temp c) /\
      ((max_objective_ = PyNone /\ max_objective c = None) \/
       (isinstance_float_int max_objective_ = true /\
        exists x, py_float max_objective_ = Ok x /\
                  max_objective c = Some x))
  | Raise (ValueError _) =>
      isinstance_int max_steps_ = false \/ int_value max_steps_ <= 0 \/
      (max_objective_ <> PyNone /\
       isinstance_float_int max_objective_ = false) \/
      isinstance_float_int temp_ = false
  | Raise OverflowError =>
      exists n, (max_objective_ = PyInt n \/ temp_ = PyInt n) /\
                is_finite (of_Z n) = false
  | Raise _ => False
  end.
Proof.
  unfold __init__.
  destruct (isinstance_int max_steps_) eqn:Ei; cbn [andb]; [|auto].
  destruct (0 <? int_value max_steps_) eqn:Ep;
    [apply Z.ltb_lt in Ep | apply Z.ltb_ge in Ep; auto].
  assert (forall v x, py_float v = Raise x ->
            x = TypeError /\ isinstance_float_int v = false \/
            x = OverflowError /\
            exists n, v = PyInt n /\ is_finite (of_Z n) = false) as Hpf.
  { intros [|b|n|y|t] x; cbn; try discriminate; try (intros [= <-]; auto).
    destruct (of_Z n) eqn:En; try discriminate.
    intros [= <-]. right. split; [reflexivity|]. exists n.
    rewrite En. auto. }
  destruct max_objective_ as [|b|n|y|t] eqn:Emo; cbn [isinstance_float_int].
  5: { right; right; left. split; [discriminate | reflexivity]. }
  all: try (destruct (py_float _) as [x|x] eqn:Ex;
            [| destruct (Hpf _ _ Ex) as [[-> Hf] | [-> (k & Hk & Hfin)]];
               [discriminate Hf | exists k; split; [left; exact Hk | exact Hfin]]]).
  all: destruct (isinstance_float_int temp_) eqn:Et; [|auto 6].
  all: destruct (py_float temp_) as [t'|x'] eqn:Ext;
    [ cbn; repeat split; auto; try lia;
      first [ left; split; reflexivity
            | right; split; [reflexivity | eexists; split; reflexivity] ]
    | destruct (Hpf _ _ Ext) as [[-> Hf] | [-> (k & Hk & Hfin)]];
      [ congruence | exists k; split; [right; exact Hk | exact Hfin] ] ].
Qed.

(** C5, where the claim fails: a zero and a negative temperature are
    accepted. *)
Lemma init_accepts_nonpositive_temperature :
  __init__ (Some 0%nat) (PyInt 0) (PyInt 10) PyNone 1 []
  = Ok {| initial_state := Some 0%nat; n_samples := 1;
          points_to_evaluate := []; max_steps := 10;
          max_objective := None; temp := zero |} /\
  __init__ (Some 0%nat) (PyFloat (neg one)) (PyInt 10) PyNone 1 []
  = Ok {| initial_state := Some 0%nat; n_samples := 1;
          points_to_evaluate := []; max_steps := 10;
          max_objective := None; temp := neg one |} /\
  lt (neg one) zero = true.
Proof. repeat split. Qed.

(** ** The reference [math.exp] and the walk meet the contracts *)

Lemma exp_ref_raises (x : float) (e : exn) :
  exp_ref x = Raise e -> e = OverflowError.
Proof.
  unfold exp_ref.
  destruct x as [s|[|]| |s m k]; try discriminate.
  destruct (exp_finite s m k); try discriminate. congruence.
Qed.

Lemma fmax_ge_one (y : float) : ge (fmax one y) one = true.
Proof.
  unfold fmax. destruct (ge y one) eqn:E; [exact E | reflexivity].
Qed.

Lemma exp_ref_nonneg (x p : float) :
  ge x zero = true -> exp_ref x = Ok p -> ge p one = true.
Proof.
  intros Hx. unfold exp_ref.
  destruct x as [s|[|]| |[|] m k]; try discriminate Hx.
  - intros [= <-]. reflexivity.
  - intros [= <-]. reflexivity.
  - destruct (exp_finite false m k); try discriminate;
      intros [= <-]; apply fmax_ge_one.
Qed.

Lemma exp_ref_overflow_only : exp_overflow_only (PM := walk).
Proof. exact exp_ref_raises. Qed.

Lemma exp_ref_ge_one : exp_ge_one (PM := walk).
Proof. exact exp_ref_nonneg. Qed.

(** The values of [math.exp] at 1 and -1:
    2.718281828459045 and 0.36787944117144233. *)
Example exp_ref_values :
  exp_ref one = Ok (S754_finite false 6121026514868073 (-51)) /\
  exp_ref (neg one) = Ok (S754_finite false 6627126856707896 (-54)) /\
  exp_ref (of_Z 710) = Raise OverflowError /\
  exp_ref (of_Z (-746)) = Ok zero.
Proof. vm_compute. repeat split. Qed.

Lemma walk_neighbor_keeps_current : neighbor_keeps_current (PM := walk).
Proof.
  intros h g s r h' g'. cbn [model_neighbor walk Val Rng] in *.
  unfold walk_neighbor.
  destruct (content h s) as [x|] eqn:E; [|intros [= <- <- <-]; exact E].
  destruct (next_random g) as [d g0]. intros [= <- <- <-].
  destruct s as [l|]; [|discriminate]. cbn in *.
  rewrite lookup_insert_ne; [exact E|].
  intros Hl. apply (is_fresh (dom h)). rewrite Hl.
  apply elem_of_dom. rewrite E. eauto.
Qed.

(** The walk raises nothing but [TypeError]. *)
Lemma walk_raises (e : exn) :
  model_raises (PM := walk) e -> e = TypeError.
Proof.
  intros [[v H] | [(h & g & s & H) | (h & g & H)]];
    cbn [model_objective model_neighbor model_random walk Val Rng] in *.
  - destruct v; cbn in H; congruence.
  - unfold walk_neighbor in H. destruct (content h s).
    + destruct (next_random g). cbn in H. discriminate.
    + cbn in H. congruence.
  - unfold walk_random in H. destruct (next_random g). cbn in H.
    discriminate.
Qed.

(** ** The properties on the walk *)

(** C1. On the default path the best state stays [None]: with max steps 1
    there is no climbing iteration and the run returns [(None, 0.0)]; with
    max steps 4 and three iterations that improve nothing it does so too. *)
Theorem default_seeding_has_no_best_state :
  fst (walk_run (walk_config one 1 None []) true
         (fresh_mem (PM := walk) (one_state 0) []))
  = Ok (None, Some zero) /\
  fst (walk_run (walk_config one 4 None []) true
         (fresh_mem (PM := walk) (one_state 0)
            [tenths 1; tenths 9; tenths 1; tenths 9; tenths 7; tenths 9]))
  = Ok (None, Some zero) /\
  walk_objective (content (one_state 0) (Some 0%nat)) = Ok zero.
Proof. vm_compute. repeat split. Qed.

(** C8. In the seeding the best state is the seed point itself, the object
    that is also the current state, so that a later change of the current
    state's object is a change of the best state: its objective is no
    longer the best objective. The climbing loop stores a copy, which such
    a change leaves alone. *)
Theorem seeded_best_state_is_not_a_copy :
  best_state seeded_mem = Some 0%nat /\
  current_state seeded_mem = Some 0%nat /\
  best_objective seeded_mem = Some (of_Z (-9)) /\
  walk_objective (content (heap seeded_mem) (best_state seeded_mem))
  = Ok (of_Z (-9)) /\
  walk_objective
    (content (<[0%nat := 0]> (heap seeded_mem)) (best_state seeded_mem))
  = Ok zero /\
  best_state climbed_mem = Some 2%nat /\
  current_state climbed_mem = Some 1%nat /\
  best_objective climbed_mem = Some (of_Z (-4)) /\
  walk_objective
    (content (<[1%nat := 0]> (heap climbed_mem)) (best_state climbed_mem))
  = Ok (of_Z (-4)).
Proof. vm_compute. repeat split. Qed.

(** With such a Problem Model the seeded best state is changed by the
    climbing: the run ends with a best state whose objective, -1, is not
    the best objective, 0. *)
Example seeded_best_state_follows_current :
  best_state bumped_mem = Some 0%nat /\
  best_objective bumped_mem = Some zero /\
  walk_objective (content (heap bumped_mem) (best_state bumped_mem))
  = Ok (of_Z (-1)).
Proof. vm_compute. repeat split. Qed.

(** C4, where the claim fails: with temperature -1 a neighbor of objective
    0 is rejected from a current state of objective -1 (the probability is
    exp(-1), the draw 0.9); with temperature 0 the test raises; and with
    temperature 1 and an objective that is infinite everywhere, the
    difference is NaN and the neighbor is rejected. *)
Lemma accept_rejects_better_neighbor :
  walk_objective (content (heap accept_mem) (current_state accept_mem))
  = Ok (of_Z (-1)) /\
  walk_objective (content (heap accept_mem) (Some 1%nat)) = Ok zero /\
  le (of_Z (-1)) zero = true /\
  fst (_accept_neighbor (PM := walk)
         (walk_config (neg one) 10 None []) (Some 1%nat) accept_mem)
  = Ok false /\
  fst (_accept_neighbor (PM := walk)
         (walk_config zero 10 None []) (Some 1%nat) accept_mem)
  = Raise ZeroDivisionError /\
  le pos_inf pos_inf = true /\
  fst (_accept_neighbor (PM := flat)
         (walk_config one 10 None []) (Some 1%nat) flat_mem)
  = Ok false.
Proof. vm_compute. repeat split. Qed.

(** C4 on the walk, with temperature 1: accepted, the draw unused. *)
Lemma accept_at_least_as_good_witness :
  exp_overflow_only (PM := walk) /\ exp_ge_one (PM := walk) /\
  real (of_Z (-1)) = true /\ real zero = true /\
  le (of_Z (-1)) zero = true /\
  _accept_neighbor (PM := walk)
    (walk_config one 10 None []) (Some 1%nat) accept_mem
  = (Ok true, observe zero (observe (of_Z (-1)) accept_mem)).
Proof.
  split; [exact exp_ref_overflow_only|]. split; [exact exp_ref_ge_one|].
  split; [reflexivity|]. split; [reflexivity|]. split; [reflexivity|].
  apply (accept_at_least_as_good (PM := walk)
           (walk_config one 10 None []) (Some 1%nat) accept_mem
           (of_Z (-1)) zero 4503599627370496 (-52)
           exp_ref_overflow_only exp_ref_ge_one);
    reflexivity.
Defined.

(** C2 on the walk: temperature 1, three climbing iterations from the
    state holding 3. *)
Lemma best_objective_is_running_maximum_witness :
  exp_ge_one (PM := walk) /\
  neighbor_keeps_current (PM := walk) /\
  all_real (seen (snd (walk_run (walk_config one 4 None []) true
                         (fresh_mem (PM := walk) (one_state 3) walk_draws)))) /\
  trace_good (marks (snd (walk_run (walk_config one 4 None []) true
                            (fresh_mem (PM := walk) (one_state 3) walk_draws)))).
Proof.
  assert (all_real
            (seen (snd (walk_run (walk_config one 4 None []) true
                          (fresh_mem (PM := walk) (one_state 3) walk_draws))))) as Hreal
      by (vm_compute; repeat constructor).
  split; [exact exp_ref_ge_one|].
  split; [exact walk_neighbor_keeps_current|].
  split; [exact Hreal|].
  exact (best_objective_is_running_maximum (PM := walk)
           (walk_config one 4 None []) true 4503599627370496 (-52)
           (one_state 3) walk_draws exp_ref_ge_one eq_refl
           walk_neighbor_keeps_current Hreal).
Defined.

(** C3, where the claim fails: from the state holding 1 the first
    iteration reaches the state holding 0, whose objective 0 equals the
    maximum objective 0; the run goes on and reports the budget
    exhausted. *)
Lemma target_met_but_not_exceeded :
  fst (walk_run (walk_config one 3 (Some zero) []) true
         (fresh_mem (PM := walk) (one_state 1) walk_draws))
  = Ok (Some 2%nat, Some zero) /\
  ge zero zero = true /\
  budget_exhausted (snd (walk_run (walk_config one 3 (Some zero) []) true
                           (fresh_mem (PM := walk) (one_state 1) walk_draws))) /\
  map (fun cp => (cp_step cp, cp_best cp))
      (marks (snd (walk_run (walk_config one 3 (Some zero) []) true
                     (fresh_mem (PM := walk) (one_state 1) walk_draws))))
  = [(2, Some zero); (1, Some zero); (0, Some (of_Z (-1)))].
Proof. vm_compute. repeat split. Qed.

(** C3 on the walk: with maximum objective -2, from the state holding 3
    the first iteration ends at objective -4, below the target, the second
    at -1, above it, and the run stops there, at step 2 of 9. *)
Lemma target_or_budget_witness :
  exp_overflow_only (PM := walk) /\
  target_reached (snd (walk_run (walk_config one 10 (Some (of_Z (-2))) [])
                         true (fresh_mem (PM := walk) (one_state 3) target_draws))) /\
  fst (walk_run (walk_config one 10 (Some (of_Z (-2))) []) true
         (fresh_mem (PM := walk) (one_state 3) target_draws))
  = Ok (Some 4%nat, Some (of_Z (-1))) /\
  cur_steps (snd (walk_run (walk_config one 10 (Some (of_Z (-2))) []) true
                    (fresh_mem (PM := walk) (one_state 3) target_draws))) = 2 /\
  map (fun cp => (cp_step cp, cp_best cp))
      (marks (snd (walk_run (walk_config one 10 (Some (of_Z (-2))) []) true
                     (fresh_mem (PM := walk) (one_state 3) target_draws))))
  = [(2, Some (of_Z (-1))); (1, Some (of_Z (-4))); (0, Some (of_Z (-9)))].
Proof.
  split; [exact exp_ref_overflow_only|].
  pose proof (target_or_budget (PM := walk)
                (walk_config one 10 (Some (of_Z (-2))) []) true
                (one_state 3) target_draws exp_ref_overflow_only) as H.
  assert (fst (walk_run (walk_config one 10 (Some (of_Z (-2))) []) true
                 (fresh_mem (PM := walk) (one_state 3) target_draws))
          = Ok (Some 4%nat, Some (of_Z (-1)))) as E
      by (vm_compute; reflexivity).
  unfold walk_run in *. rewrite E in H.
  destruct H as [(Ht & _ & _) | (He & _)].
  - split; [exact Ht|]. split; [exact E|].
    split; vm_compute; reflexivity.
  - exfalso. vm_compute in He. discriminate He.
Defined.

(** C6, where the claim fails: with temperature 0 the first iteration
    raises [ZeroDivisionError], which no operation of the walk raises. *)
Lemma zero_temperature_raises :
  fst (walk_run (walk_config zero 3 None []) true
         (fresh_mem (PM := walk) (one_state 0) walk_draws))
  = Raise ZeroDivisionError /\
  ~ model_raises (PM := walk) ZeroDivisionError.
Proof.
  split; [vm_compute; reflexivity|].
  intros H. apply walk_raises in H. discriminate.
Qed.

(** C6 on the walk, with temperature 0: the exception of the run is the
    division's. *)
Lemma run_raises_only_witness :
  exp_overflow_only (PM := walk) /\
  fst (walk_run (walk_config zero 3 None []) true
         (fresh_mem (PM := walk) (one_state 0) walk_draws))
  = Raise ZeroDivisionError /\
  truthy (temp (walk_config zero 3 None [])) = false.
Proof.
  split; [exact exp_ref_overflow_only|].
  assert (fst (walk_run (walk_config zero 3 None []) true
                 (fresh_mem (PM := walk) (one_state 0) walk_draws))
          = Raise ZeroDivisionError) as E by (vm_compute; reflexivity).
  split; [exact E|].
  destruct (proj1 (run_raises_only (PM := walk)
                     (walk_config zero 3 None []) true (one_state 0)
                     walk_draws exp_ref_overflow_only)
                  ZeroDivisionError E) as [Hm | [_ Ht]].
  - apply walk_raises in Hm. discriminate.
  - exact Ht.
Defined.

(** C9, where the claim fails: with temperature -0.0 and a budget of 3
    the run raises in its first iteration; the target is not reached and
    the Problem Model raised nothing. *)
Lemma zero_temperature_stops_climbing :
  fst (walk_run (walk_config (neg zero) 4 None []) true
         (fresh_mem (PM := walk) (one_state 0) walk_draws))
  = Raise ZeroDivisionError /\
  ~ model_raises (PM := walk) ZeroDivisionError /\
  ~ target_reached (snd (walk_run (walk_config (neg zero) 4 None []) true
                           (fresh_mem (PM := walk) (one_state 0) walk_draws))) /\
  budget (walk_config (neg zero) 4 None []) = 3 /\
  cur_steps (snd (walk_run (walk_config (neg zero) 4 None []) true
                    (fresh_mem (PM := walk) (one_state 0) walk_draws))) = 1.
Proof.
  split; [vm_compute; reflexivity|]. split.
  - intros H. apply walk_raises in H. discriminate.
  - split; [|split; vm_compute; reflexivity].
    unfold target_reached. vm_compute. discriminate.
Qed.

(** C9 on the walk: temperature 1, max steps 4, no target: 3 iterations. *)
Lemma climbing_iterations_witness :
  exp_overflow_only (PM := walk) /\
  truthy (temp (walk_config one 4 None [])) = true /\
  budget_exhausted (snd (walk_run (walk_config one 4 None []) true
                           (fresh_mem (PM := walk) (one_state 3) walk_draws))) /\
  climb_marks (marks (snd (walk_run (walk_config one 4 None []) true
                             (fresh_mem (PM := walk) (one_state 3) walk_draws))))
  = 3%nat /\
  cur_steps (snd (walk_run (walk_config one 4 None []) true
                    (fresh_mem (PM := walk) (one_state 3) walk_draws))) = 3.
Proof.
  split; [exact exp_ref_overflow_only|]. split; [reflexivity|].
  assert (forall e,
             fst (walk_run (walk_config one 4 None []) true
                    (fresh_mem (PM := walk) (one_state 3) walk_draws)) = Raise e ->
             ~ model_raises (PM := walk) e)
    as Hm by (intros e He; vm_compute in He; discriminate He).
  assert (~ target_reached
            (snd (walk_run (walk_config one 4 None []) true
                    (fresh_mem (PM := walk) (one_state 3) walk_draws)))) as Ht
      by (unfold target_reached; vm_compute; discriminate).
  destruct (climbing_iterations (PM := walk) (walk_config one 4 None [])
              true (one_state 3) walk_draws exp_ref_overflow_only eq_refl
              Hm Ht) as (_ & He & Hc & Hs).
  split; [exact He|]. split; [exact Hc | exact Hs].
Defined.

(** C7, where the claim fails: a best objective of -9 is improved upon by
    the negative objective -4, in the best-update and so in the run. *)
Lemma negative_best_improved_by_negative :
  lt (of_Z (-9)) zero = true /\ lt (of_Z (-4)) zero = true /\
  best_objective (snd (update_best (PM := walk) update_mem))
  = Some (of_Z (-4)) /\
  map (fun cp => (cp_step cp, cp_best cp))
      (marks (snd (walk_run (walk_config one 2 None []) true
                     (fresh_mem (PM := walk) (one_state 3) walk_draws))))
  = [(1, Some (of_Z (-4))); (0, Some (of_Z (-9)))].
Proof. vm_compute. repeat split. Qed.

(** C7 on the walk. *)
Lemma negative_best_is_improved_witness :
  lt (of_Z (-9)) zero = true /\ gt (of_Z (-4)) (of_Z (-9)) = true /\
  fst (update_best (PM := walk) update_mem) = Ok tt /\
  best_objective (snd (update_best (PM := walk) update_mem))
  = Some (of_Z (-4)).
Proof.
  split; [reflexivity|]. split; [reflexivity|].
  apply (negative_best_is_improved (PM := walk) update_mem
           (of_Z (-9)) (of_Z (-4))); reflexivity.
Defined.

(** ** More on the constructor *)

(** X1. [__init__] reports the first check that fails, in the order max
    steps, max objective, temperature, each with its own message. *)
Theorem init_reports_first_failure (s0 : state)
    (temp_ max_steps_ max_objective_ : pyval) (n_samples_ : Z)
    (points_ : list state) :
  (isinstance_int max_steps_ = false \/ int_value max_steps_ <= 0 ->
   __init__ s0 temp_ max_steps_ max_objective_ n_samples_ points_
   = Raise (ValueError msg_max_steps)) /\
  (isinstance_int max_steps_ = true -> 0 < int_value max_steps_ ->
   max_objective_ <> PyNone ->
   isinstance_float_int max_objective_ = false ->
   __init__ s0 temp_ max_steps_ max_objective_ n_samples_ points_
   = Raise (ValueError msg_max_objective)) /\
  (isinstance_int max_steps_ = true -> 0 < int_value max_steps_ ->
   (max_objective_ = PyNone \/
    exists x, isinstance_float_int max_objective_ = true /\
              py_float max_objective_ = Ok x) ->
   isinstance_float_int temp_ = false ->
   __init__ s0 temp_ max_steps_ max_objective_ n_samples_ points_
   = Raise (ValueError msg_temp)).
Proof.
  unfold __init__. split; [|split].
  - intros [H | H].
    + rewrite H. reflexivity.
    + apply Z.ltb_ge in H. rewrite H, andb_false_r. reflexivity.
  - intros Hi Hp Hn Hf. apply Z.ltb_lt in Hp. rewrite Hi, Hp. cbn [andb].
    destruct max_objective_; try congruence; cbn in Hf; try discriminate Hf.
    reflexivity.
  - intros Hi Hp Hmo Ht. apply Z.ltb_lt in Hp. rewrite Hi, Hp. cbn [andb].
    destruct Hmo as [-> | (x & Hf & Hx)].
    + rewrite Ht. reflexivity.
    + rewrite Hf, Hx, Ht.
      destruct max_objective_; reflexivity.
Qed.

(** The constructor on a text for a temperature: the message is the one
    of the first argument that fails. *)
Lemma init_reports_first_failure_witness :
  __init__ (Some 0%nat) (PyStr "hot") (PyFloat one) (PyStr "far") 1 []
  = Raise (ValueError msg_max_steps) /\
  __init__ (Some 0%nat) (PyStr "hot") (PyInt 10) (PyStr "far") 1 []
  = Raise (ValueError msg_max_objective) /\
  __init__ (Some 0%nat) (PyStr "hot") (PyBool true) (PyInt 5) 1 []
  = Raise (ValueError msg_temp).
Proof.
  split; [|split].
  - apply (proj1 (init_reports_first_failure (Some 0%nat) (PyStr "hot")
                    (PyFloat one) (PyStr "far") 1 [])).
    left. reflexivity.
  - apply (proj1 (proj2 (init_reports_first_failure (Some 0%nat)
                           (PyStr "hot") (PyInt 10) (PyStr "far") 1 [])));
      [reflexivity | reflexivity | discriminate | reflexivity].
  - apply (proj2 (proj2 (init_reports_first_failure (Some 0%nat)
                           (PyStr "hot") (PyBool true) (PyInt 5) 1 [])));
      [reflexivity | reflexivity | | reflexivity].
    right. eexists. split; reflexivity.
Defined.

(** ** More properties on the walk *)

(** ['%d'] and ['%f'] on values of Python: [1.0], [-1.0], [0.1], [1/3],
    [-9.0], [1.5e-06], [2.5e-06], [2.5e-07], [1e+22], [5e-324],
    [123456.789], [0.9999995], [0.99999949] and [math.e]. *)
Example percent_values :
  percent_f one = "1.000000"%string /\
  percent_f (neg one) = "-1.000000"%string /\
  percent_f (tenths 1) = "0.100000"%string /\
  percent_f (div one (of_Z 3)) = "0.333333"%string /\
  percent_f (of_Z (-9)) = "-9.000000"%string /\
  percent_f (S754_finite false 7083549724304468 (-72)) = "0.000002"%string /\
  percent_f (S754_finite false 5902958103587057 (-71)) = "0.000003"%string /\
  percent_f (S754_finite false 4722366482869645 (-74)) = "0.000000"%string /\
  percent_f (S754_finite false 4768371582031250 21)
  = "10000000000000000000000.000000"%string /\
  percent_f (S754_finite false 1 (-1074)) = "0.000000"%string /\
  percent_f (S754_finite false 8483885939586761 (-36))
  = "123456.789000"%string /\
  percent_f (S754_finite false 9007194751141365 (-53)) = "1.000000"%string /\
  percent_f (S754_finite false 9007194661069372 (-53)) = "0.999999"%string /\
  percent_f (S754_finite false 6121026514868073 (-51)) = "2.718282"%string /\
  percent_f neg_inf = "-inf"%string /\
  percent_f (neg zero) = "-0.000000"%string /\
  percent_d 0 = "0"%string /\ percent_d (-12) = "-12"%string /\
  percent_d 100 = "100"%string.
Proof. vm_compute. repeat split. Qed.

(** The text of a climber that has not run, and after a run of three
    steps from the state holding 3. *)
Example text_of_a_climber :
  fst (__str__ (PM := walk) walk_show
         (fresh_mem (PM := walk) (one_state 3) []))
  = Ok ("STOCHASTIC HILL CLIMB: " ++ newline
        ++ "CURRENT STEPS: 0 " ++ newline
        ++ "BEST OBJECTIVE: -inf " ++ newline
        ++ "BEST STATE: None " ++ newline ++ newline)%string /\
  fst (__str__ (PM := walk) walk_show
         (snd (walk_run (walk_config one 4 None []) true
                 (fresh_mem (PM := walk) (one_state 3) walk_draws))))
  = Ok ("STOCHASTIC HILL CLIMB: " ++ newline
        ++ "CURRENT STEPS: 3 " ++ newline
        ++ "BEST OBJECTIVE: -4.000000 " ++ newline
        ++ "BEST STATE: 2 " ++ newline ++ newline)%string.
Proof. vm_compute. repeat split. Qed.

Lemma walk_builds_new_states : builds_new_states (PM := walk).
Proof.
  split.
  - intros h g s s' h' g'. cbn [model_neighbor walk Val Rng] in *.
    unfold walk_neighbor.
    destruct (content h s) as [x|]; [|intros [=]].
    destruct (next_random g) as [d g0]. intros [= <- <- <-].
    split; [apply insert_subseteq, not_elem_of_dom, is_fresh|].
    cbn. rewrite lookup_insert_eq. eauto.
  - intros h g s' h' g'. cbn [model_random walk Val Rng] in *.
    unfold walk_random.
    destruct (next_random g) as [d g0]. intros [= <- <- <-].
    split; [apply insert_subseteq, not_elem_of_dom, is_fresh|].
    cbn. rewrite lookup_insert_eq. eauto.
Qed.

(** On the steep walk: the neighbor's objective overflows, and the
    neighbor is accepted. *)
Lemma accept_swallows_overflow_of_objective_witness :
  model_objective (Problem := steep)
    (content (heap (pair_mem steep 1 2 [tenths 9])) (Some 1%nat))
  = Raise OverflowError /\
  fst (_accept_neighbor (PM := steep) (walk_config one 10 None [])
         (Some 1%nat) (pair_mem steep 1 2 [tenths 9])) = Ok true /\
  rng (snd (_accept_neighbor (PM := steep) (walk_config one 10 None [])
              (Some 1%nat) (pair_mem steep 1 2 [tenths 9])))
  = [tenths 9].
Proof.
  split; [reflexivity|].
  apply (accept_swallows_overflow_of_objective (PM := steep)
           (walk_config one 10 None []) (Some 1%nat)
           (pair_mem steep 1 2 [tenths 9])).
  right. exists (of_Z (-1)). split; reflexivity.
Defined.

(** On the walk with an infinite temperature: the neighbor holding 3 is
    accepted from the state holding 0; at temperature 1 the draw 0.9
    rejects it. *)
Lemma accept_at_infinite_temperature_witness :
  exp_overflow_only (PM := walk) /\ exp_ge_one (PM := walk) /\
  is_finite (sub zero (of_Z (-9))) = true /\
  fst (_accept_neighbor (PM := walk) (walk_config one 10 None [])
         (Some 1%nat) (pair_mem walk 0 3 [tenths 9])) = Ok false /\
  _accept_neighbor (PM := walk) (walk_config pos_inf 10 None [])
    (Some 1%nat) (pair_mem walk 0 3 [tenths 9])
  = (Ok true, observe (of_Z (-9)) (observe zero (pair_mem walk 0 3 [tenths 9]))).
Proof.
  split; [exact exp_ref_overflow_only|]. split; [exact exp_ref_ge_one|].
  split; [reflexivity|]. split; [vm_compute; reflexivity|].
  apply (accept_at_infinite_temperature (PM := walk)
           (walk_config pos_inf 10 None []) (Some 1%nat)
           (pair_mem walk 0 3 [tenths 9]) zero (of_Z (-9)) false
           exp_ref_overflow_only exp_ref_ge_one);
    reflexivity.
Defined.

(** On the walk with temperature -1: the worse neighbor is accepted. *)
Lemma accept_at_negative_temperature_witness :
  exp_overflow_only (PM := walk) /\ exp_ge_one (PM := walk) /\
  real zero = true /\ real (of_Z (-9)) = true /\
  le (of_Z (-9)) zero = true /\
  _accept_neighbor (PM := walk) (walk_config (neg one) 10 None [])
    (Some 1%nat) (pair_mem walk 0 3 [tenths 9])
  = (Ok true, observe (of_Z (-9)) (observe zero (pair_mem walk 0 3 [tenths 9]))).
Proof.
  split; [exact exp_ref_overflow_only|]. split; [exact exp_ref_ge_one|].
  split; [reflexivity|]. split; [reflexivity|]. split; [reflexivity|].
  apply (accept_at_negative_temperature (PM := walk)
           (walk_config (neg one) 10 None []) (Some 1%nat)
           (pair_mem walk 0 3 [tenths 9]) zero (of_Z (-9))
           4503599627370496 (-52)
           exp_ref_overflow_only exp_ref_ge_one);
    reflexivity.
Defined.

(** On the walk with a hole at 0: the neighbor holding 0 is rejected
    although the draw is 0. *)
Lemma accept_rejects_nan_witness :
  exp (Problem := hole) S754_nan = Ok S754_nan /\
  model_objective (Problem := hole)
    (content (heap (pair_mem hole 1 0 [zero])) (Some 1%nat)) = Ok S754_nan /\
  fst (_accept_neighbor (PM := hole) (walk_config one 10 None [])
         (Some 1%nat) (pair_mem hole 1 0 [zero])) = Ok false.
Proof.
  split; [reflexivity|]. split; [reflexivity|].
  apply (accept_rejects_nan (PM := hole) (walk_config one 10 None [])
           (Some 1%nat) (pair_mem hole 1 0 [zero]) (of_Z (-1)) S754_nan);
    reflexivity.
Defined.

(** On the walk, from a best objective of -9 with the current state, at
    reference 1, holding 2: the best state becomes the new reference 2. *)
Lemma best_update_stores_a_copy_witness :
  gt (of_Z (-4)) (or_zero (best_objective update_mem)) = true /\
  exists l',
    best_state (snd (update_best (PM := walk) update_mem)) = Some l' /\
    l' <> 1%nat /\ heap update_mem !! l' = None /\
    heap (snd (update_best (PM := walk) update_mem))
    = <[l' := 2]> (heap update_mem) /\
    current_state (snd (update_best (PM := walk) update_mem)) = Some 1%nat /\
    best_objective (snd (update_best (PM := walk) update_mem))
    = Some (of_Z (-4)) /\
    forall w,
      content (<[1%nat := w]> (heap (snd (update_best (PM := walk) update_mem))))
              (best_state (snd (update_best (PM := walk) update_mem)))
      = Some 2.
Proof.
  split; [reflexivity|].
  apply (best_update_stores_a_copy (PM := walk) update_mem 1%nat 2
           (of_Z (-4)));
    reflexivity.
Defined.

(** On the walk from the state holding 3, by the default path and three
    steps: the state returned holds 2 and its objective is the -4
    returned. *)
Lemma returned_best_state_has_best_objective_witness :
  builds_new_states (PM := walk) /\
  fst (walk_run (walk_config one 4 None []) true
         (fresh_mem (PM := walk) (one_state 3) walk_draws))
  = Ok (Some 2%nat, Some (of_Z (-4))) /\
  walk_objective
    (content (heap (snd (walk_run (walk_config one 4 None []) true
                          (fresh_mem (PM := walk) (one_state 3) walk_draws))))
             (Some 2%nat))
  = Ok (of_Z (-4)).
Proof.
  split; [exact walk_builds_new_states|].
  assert (fst (walk_run (walk_config one 4 None []) true
                 (fresh_mem (PM := walk) (one_state 3) walk_draws))
          = Ok (Some 2%nat, Some (of_Z (-4)))) as E
      by (vm_compute; reflexivity).
  split; [exact E|].
  assert (alive (PM := walk) (one_state 3) (Some 0%nat)) as Ha
      by (exists 3; reflexivity).
  destruct (returned_best_state_has_best_objective (PM := walk)
              (walk_config one 4 None []) true (one_state 3) walk_draws
              (Some 2%nat) (Some (of_Z (-4))) walk_builds_new_states Ha
              (Forall_nil_2 _) E) as ([Hn | (b & Hb & Ho)] & _ & _).
  - discriminate Hn.
  - injection Hb as <-. exact Ho.
Defined.

(** On the walk by the default path: [current_objective] is minus
    infinity after three steps, with a best objective of -4. *)
Lemma climbing_leaves_current_objective_witness :
  current_objective (snd (walk_run (walk_config one 4 None []) true
                            (fresh_mem (PM := walk) (one_state 3) walk_draws)))
  = Some neg_inf /\
  best_objective (snd (walk_run (walk_config one 4 None []) true
                         (fresh_mem (PM := walk) (one_state 3) walk_draws)))
  = Some (of_Z (-4)).
Proof.
  split; [|vm_compute; reflexivity].
  apply (proj2 (climbing_leaves_current_objective (PM := walk)
                  (walk_config one 4 None []) true));
    [reflexivity | cbn; lia].
Defined.

(** On the walk seeded with two points: two evaluations, and the random
    source left alone. *)
Lemma seeding_evaluates_each_seed_once_witness :
  length (seen (snd (seeding (PM := walk)
                       (walk_config one 10 None [Some 0%nat; Some 0%nat])
                       (fresh_mem (PM := walk) (one_state 3) walk_draws))))
  = 2%nat /\
  rng (snd (seeding (PM := walk)
              (walk_config one 10 None [Some 0%nat; Some 0%nat])
              (fresh_mem (PM := walk) (one_state 3) walk_draws)))
  = walk_draws.
Proof.
  destruct (seeding_evaluates_each_seed_once (PM := walk)
              (walk_config one 10 None [Some 0%nat; Some 0%nat])
              (fresh_mem (PM := walk) (one_state 3) walk_draws))
    as (_ & _ & _ & H1 & H2).
  split.
  - apply H1. vm_compute. reflexivity.
  - apply H2. left. cbn. lia.
Defined.

(** On the walk: the text of the climber after a run. *)
Lemma text_of_a_climber_in_a_run_witness :
  exists s,
    __str__ (PM := walk) walk_show
      (snd (walk_run (walk_config one 4 None []) true
              (fresh_mem (PM := walk) (one_state 3) walk_draws)))
    = (Ok s, snd (walk_run (walk_config one 4 None []) true
                    (fresh_mem (PM := walk) (one_state 3) walk_draws))) /\
    __repr__ (PM := walk) walk_show
      (snd (walk_run (walk_config one 4 None []) true
              (fresh_mem (PM := walk) (one_state 3) walk_draws)))
    = (Ok s, snd (walk_run (walk_config one 4 None []) true
                    (fresh_mem (PM := walk) (one_state 3) walk_draws))).
Proof.
  exact (proj2 (text_of_a_climber_in_a_run (PM := walk) walk_show
                  (walk_config one 4 None []) true (one_state 3)
                  walk_draws)).
Defined.

(** On the walk with a hole at 0, from the state holding 0: the best
    objective is NaN after the run, and no state is the best. *)
Lemma nan_at_the_start_is_never_improved_witness :
  model_objective (Problem := hole)
    (content (one_state 0) (initial_state (walk_config one 3 None [])))
  = Ok S754_nan /\
  fst (run (PM := hole) (walk_config one 3 None []) true
         (fresh_mem (PM := hole) (one_state 0) walk_draws))
  = Ok (None, Some S754_nan).
Proof.
  split; [reflexivity|].
  assert (n_samples (walk_config one 3 None []) <= 1) as Hn by (cbn; lia).
  destruct (nan_at_the_start_is_never_improved (PM := hole)
              (walk_config one 3 None []) true (one_state 0) walk_draws
              eq_refl Hn eq_refl) as (_ & _ & H).
  destruct (fst (run (PM := hole) (walk_config one 3 None []) true
                   (fresh_mem (PM := hole) (one_state 0) walk_draws)))
    as [v|e] eqn:E.
  - destruct (H v eq_refl) as [-> _]. reflexivity.
  - vm_compute in E. discriminate E.
Defined.
